(** * Event inventory and usage audit: a shallow embedding

    The repository holds two scripts.  [generate_events_inventory.py] scans the
    Rust sources of the event crate for [pub enum] declarations and records
    every enum with its variants; [generate_event_usage.py] reads that
    inventory back and asks ripgrep where each variant is referenced.

    Part I embeds the scripts function by function.  Part II states and proves
    the properties of the specification. *)

From Stdlib Require Import List String Ascii ZArith Lia Bool Arith PeanoNat.
From Stdlib Require Import Permutation Sorted.
Import ListNotations.
Local Open Scope string_scope.
Local Open Scope list_scope.

(** ** Part I: the embedding *)

(** *** Python built-ins

    Strings are sequences of code points below 256 ([ascii] is eight bits),
    which covers the Latin-1 range of Python's [str]. *)
Module Py.

(** Exceptions the scripts can raise. *)
Inductive exc : Type :=
  | IndexError
  | ValueError
  | RuntimeError (msg : string).

(** Outcome of a call: a value, a raised exception, or a loop cut short by
    its iteration budget (shown further down never to happen). *)
Inductive run (A : Type) : Type :=
  | Done (a : A)
  | Raised (e : exc)
  | OutOfFuel.
Arguments Done {A} a.
Arguments Raised {A} e.
Arguments OutOfFuel {A}.

Definition bind {A B : Type} (m : run A) (k : A -> run B) : run B :=
  match m with
  | Done a => k a
  | Raised e => Raised e
  | OutOfFuel => OutOfFuel
  end.

(** [str.isspace] on one code point: TAB..CR, FS..US, space, NEL, NBSP. *)
Definition isspace (c : ascii) : bool :=
  let n := nat_of_ascii c in
  ((9 <=? n) && (n <=? 13) || (28 <=? n) && (n <=? 32)
   || (n =? 133) || (n =? 160))%nat.

Fixpoint lstrip (s : string) : string :=
  match s with
  | EmptyString => EmptyString
  | String c s' => if isspace c then lstrip s' else s
  end.

Fixpoint rstrip (s : string) : string :=
  match s with
  | EmptyString => EmptyString
  | String c s' =>
      match rstrip s' with
      | EmptyString => if isspace c then EmptyString else String c EmptyString
      | r => String c r
      end
  end.

(** [s.strip()] *)
Definition strip (s : string) : string := rstrip (lstrip s).

(** [s.startswith(p)] *)
Fixpoint startswith (s p : string) : bool :=
  match p, s with
  | EmptyString, _ => true
  | String _ _, EmptyString => false
  | String a p', String b s' => Ascii.eqb b a && startswith s' p'
  end.

(** [s.endswith(p)] *)
Fixpoint endswith (s p : string) : bool :=
  (s =? p)%string ||
  match s with
  | EmptyString => false
  | String _ s' => endswith s' p
  end.

(** [s.count(c)] for a one-character needle. *)
Fixpoint count (s : string) (c : ascii) : Z :=
  match s with
  | EmptyString => 0
  | String d s' => (if Ascii.eqb d c then 1 else 0) + count s' c
  end.

(** [c in s] for a one-character needle. *)
Definition has_char (c : ascii) (s : string) : bool := (0 <? count s c)%Z.

(** [sub in s] *)
Fixpoint contains (sub s : string) : bool :=
  startswith s sub ||
  match s with
  | EmptyString => false
  | String _ s' => contains sub s'
  end.

(** [s[n:]] *)
Fixpoint slice_from (n : nat) (s : string) : string :=
  match n, s with
  | O, _ => s
  | S _, EmptyString => EmptyString
  | S n', String _ s' => slice_from n' s'
  end.

(** [sep.join(parts)] *)
Definition join (sep : string) (parts : list string) : string :=
  String.concat sep parts.

(** [s.removesuffix(suffix)] *)
Fixpoint removesuffix (s suffix : string) : string :=
  if (s =? suffix)%string then EmptyString
  else match s with
       | EmptyString => EmptyString
       | String c s' => if endswith s suffix then String c (removesuffix s' suffix) else s
       end.

(** Line boundaries of [str.splitlines]: LF, VT, FF, CR, FS, GS, RS, NEL. *)
Definition is_linebreak (c : ascii) : bool :=
  let n := nat_of_ascii c in
  ((10 <=? n) && (n <=? 13) || (28 <=? n) && (n <=? 30) || (n =? 133))%nat.

Fixpoint splitlines_from (cur : string) (s : string) : list string :=
  match s with
  | EmptyString => if (cur =? "")%string then [] else [cur]
  | String c s' =>
      if Ascii.eqb c "013" then
        match s' with
        | String "010" s'' => cur :: splitlines_from "" s''
        | _ => cur :: splitlines_from "" s'
        end
      else if is_linebreak c then cur :: splitlines_from "" s'
      else splitlines_from (cur ++ String c "")%string s'
  end.

(** [s.splitlines()] *)
Definition splitlines (s : string) : list string := splitlines_from "" s.

End Py.

Import Py.

Notation "x <- m ;; k" := (bind m (fun x => k))
  (at level 61, m at next level, right associativity).

(** *** Regular expressions of the inventory script *)

Definition is_upper (c : ascii) : bool :=
  let n := nat_of_ascii c in ((65 <=? n) && (n <=? 90))%nat.

(** The class [[A-Za-z0-9_]]. *)
Definition is_word (c : ascii) : bool :=
  let n := nat_of_ascii c in
  ((65 <=? n) && (n <=? 90) || (97 <=? n) && (n <=? 122)
   || (48 <=? n) && (n <=? 57) || (n =? 95))%nat.

(** The longest prefix of word characters. *)
Fixpoint take_word (s : string) : string :=
  match s with
  | EmptyString => EmptyString
  | String c s' => if is_word c then String c (take_word s') else EmptyString
  end.

(** The variant pattern of [collect_variants], an upper-case letter followed
    by word characters, matched at the head of [s]; the result is group 1. *)
Definition match_variant_name (s : string) : option string :=
  match s with
  | EmptyString => None
  | String c s' => if is_upper c then Some (String c (take_word s')) else None
  end.

(** A literal prefix, consumed. *)
Fixpoint eat (lit s : string) : option string :=
  match lit, s with
  | EmptyString, _ => Some s
  | String a lit', String b s' => if Ascii.eqb a b then eat lit' s' else None
  | String _ _, EmptyString => None
  end.

(** [\s+], consumed greedily; what follows in [RE_ENUM] is never a space, so
    the greedy match is the only one. *)
Definition eat_spaces1 (s : string) : option string :=
  match s with
  | EmptyString => None
  | String c s' => if isspace c then Some (lstrip s') else None
  end.

(** [RE_ENUM] anchored at the head of [s]. *)
Definition RE_ENUM_here (s : string) : option string :=
  match eat "pub" s with
  | None => None
  | Some s1 =>
      match eat_spaces1 s1 with
      | None => None
      | Some s2 =>
          match eat "enum" s2 with
          | None => None
          | Some s3 =>
              match eat_spaces1 s3 with
              | None => None
              | Some s4 =>
                  match take_word s4 with
                  | EmptyString => None
                  | name => Some name
                  end
              end
          end
      end
  end.

(** [RE_ENUM.search(line)], returning [group("name")] of the leftmost match. *)
Fixpoint RE_ENUM_search (line : string) : option string :=
  match RE_ENUM_here line with
  | Some name => Some name
  | None =>
      match line with
      | EmptyString => None
      | String _ rest => RE_ENUM_search rest
      end
  end.

(** *** pathlib

    A pure POSIX path is its tuple of parts: [("/", "repo", "a.rs")] for
    [/repo/a.rs].  Two paths are equal when their parts are. *)
Definition Path : Type := list string.

Fixpoint split_on (c : ascii) (cur s : string) : list string :=
  match s with
  | EmptyString => [cur]
  | String d s' =>
      if Ascii.eqb d c then cur :: split_on c "" s'
      else split_on c (cur ++ String d "")%string s'
  end.

Fixpoint leading_slashes (s : string) : nat :=
  match s with
  | String "/" s' => S (leading_slashes s')
  | _ => O
  end.

(** [Path(s)]: one or at least three leading slashes give the root [/],
    exactly two give [//]; empty and [.] components are dropped. *)
Definition Path_of (s : string) : Path :=
  (match leading_slashes s with
   | 0 => []
   | 2 => ["//"]
   | _ => ["/"]
   end)
  ++ filter (fun x => negb (x =? "")%string && negb (x =? ".")%string)
       (split_on "/" "" s).

Definition is_absolute (p : Path) : bool :=
  match p with
  | r :: _ => startswith r "/"
  | [] => false
  end.

(** [str(p)] and [p.as_posix()] *)
Definition path_str (p : Path) : string :=
  match p with
  | [] => "."
  | r :: rest => if startswith r "/" then (r ++ join "/" rest)%string
                 else join "/" p
  end.

(** [p.relative_to(other)]; [None] stands for the ValueError. *)
Fixpoint relative_to (p other : Path) : option Path :=
  match other, p with
  | [], _ => Some p
  | o :: other', x :: p' =>
      if (x =? o)%string then relative_to p' other' else None
  | _ :: _, [] => None
  end.

(** [p / s] *)
Definition joinpath (p : Path) (s : string) : Path :=
  let q := Path_of s in
  if is_absolute q then q else p ++ q.

(** Paths order by their parts, each compared as a string. *)
Fixpoint path_compare (p q : Path) : comparison :=
  match p, q with
  | [], [] => Eq
  | [], _ :: _ => Lt
  | _ :: _, [] => Gt
  | a :: p', b :: q' =>
      match String.compare a b with
      | Eq => path_compare p' q'
      | c => c
      end
  end.

Definition path_ltb (p q : Path) : bool :=
  match path_compare p q with
  | Lt => true
  | _ => false
  end.

(** [sorted(paths)]: a stable sort that only asks [x < y]. *)
Fixpoint insert_sorted (x : Path) (l : list Path) : list Path :=
  match l with
  | [] => [x]
  | y :: l' => if path_ltb x y then x :: l else y :: insert_sorted x l'
  end.

Definition sorted (paths : list Path) : list Path :=
  fold_left (fun acc x => insert_sorted x acc) paths [].

(** *** JSON values, as the scripts build them: dicts keep insertion order *)
#[local] Unset Elimination Schemes.
Inductive json : Type :=
  | JStr (s : string)
  | JInt (n : Z)
  | JList (l : list json)
  | JDict (items : list (string * json)).
#[local] Set Elimination Schemes.

(** The line feed the scripts join lines with and end their files with. *)
Definition LF : string := String "010" "".

(** ** generate_events_inventory.py *)
Module Inventory.

(** *** Data of the inventory script *)

Record Variant : Type := mkVariant {
  variant_name : string;
  variant_start_line : nat;
  variant_doc : list string;
  variant_definition : string
}.

Record EnumItem : Type := mkEnumItem {
  name : string;
  module : string;
  path : Path;
  start_line : nat;
  doc : list string;
  definition : string;
  variants : list Variant
}.

(** Opening minus closing braces of a line. *)
Definition brace_delta (line : string) : Z := count line "{" - count line "}".

(** Opening minus closing parentheses of a line. *)
Definition paren_delta (line : string) : Z := count line "(" - count line ")".

(** The text of a doc-comment line: [stripped[3:].strip()]. *)
Definition doc_text (stripped : string) : string := strip (slice_from 3 stripped).

(** *** collect_leading_doc *)

(** The [while i >= 0] loop, with [n = i + 1]; [docs] is in append order. *)
Fixpoint collect_leading_doc_loop (lines : list string) (n : nat)
    (docs : list string) : list string :=
  match n with
  | O => docs
  | S i =>
      let stripped := strip (nth i lines "") in
      if startswith stripped "///" then
        collect_leading_doc_loop lines i (docs ++ [doc_text stripped])
      else if (stripped =? "")%string then
        collect_leading_doc_loop lines i docs
      else docs
  end.

(** [lines[start_index - 1]] raises when it lies past the end of the list;
    every later lookup is below it. *)
Definition collect_leading_doc (lines : list string) (start_index : nat)
    : run (list string) :=
  if (List.length lines <? start_index)%nat then Raised IndexError
  else Done (rev (collect_leading_doc_loop lines start_index [])).

(** *** collect_block *)

(** The [for idx in range(start_index, len(lines))] loop; [n] counts the
    indices still to visit. *)
Fixpoint collect_block_loop (lines : list string) (n idx : nat)
    (buffer : list string) (brace_depth : Z) (started : bool)
    (end_index : nat) : list string * nat :=
  match n with
  | O => (buffer, end_index)
  | S n' =>
      let line := nth idx lines "" in
      let buffer := buffer ++ [line] in
      let '(brace_depth, started) :=
        if negb started then
          if has_char "{" line then (brace_depth + brace_delta line, true)%Z
          else (brace_depth, started)
        else ((brace_depth + brace_delta line)%Z, started) in
      if started && (brace_depth <=? 0)%Z then (buffer, idx)
      else collect_block_loop lines n' (S idx) buffer brace_depth started end_index
  end.

Definition collect_block (lines : list string) (start_index : nat)
    : string * nat :=
  let '(buffer, end_index) :=
    collect_block_loop lines (List.length lines - start_index) start_index
      [] 0%Z false start_index in
  (strip (join LF buffer), end_index).

(** *** collect_variant_definition *)

(** The [while idx < len(lines)] loop; [n] is [len(lines) - idx]. *)
Fixpoint collect_variant_definition_loop (lines : list string) (n idx : nat)
    (buffer : list string) (local_brace local_paren : Z) (consumed : nat)
    : list string * nat :=
  match n with
  | O => (buffer, consumed)
  | S n' =>
      let line := nth idx lines "" in
      let buffer := buffer ++ [line] in
      let stripped := strip line in
      let local_brace := (local_brace + brace_delta line)%Z in
      let local_paren := (local_paren + paren_delta line)%Z in
      let consumed := S consumed in
      if (local_brace <=? 0)%Z && (local_paren <=? 0)%Z && endswith stripped ","
      then (buffer, consumed)
      else collect_variant_definition_loop lines n' (S idx) buffer
             local_brace local_paren consumed
  end.

Definition collect_variant_definition (lines : list string) (start_index : nat)
    : string * nat :=
  let '(buffer, consumed) :=
    collect_variant_definition_loop lines (List.length lines - start_index)
      start_index [] 0%Z 0%Z 0 in
  (strip (join LF buffer), consumed).

(** *** collect_variants *)

(** [sum(line.count(open) - line.count(close) for line in lines[idx:idx+consumed])] *)
Definition brace_delta_sum (lines : list string) (idx consumed : nat) : Z :=
  fold_right Z.add 0%Z (map brace_delta (firstn consumed (skipn idx lines))).

(** The [while idx <= end_index] loop.  Every round moves [idx] forward, so
    [fuel] rounds are enough when [fuel] exceeds [end_index - idx]. *)
Fixpoint collect_variants_loop (lines : list string) (end_index : nat)
    (fuel idx : nat) (variants : list Variant) (brace_depth : Z)
    (inside_enum : bool) (pending_doc : list string) : run (list Variant) :=
  if (end_index <? idx)%nat then Done variants
  else
    match fuel with
    | O => OutOfFuel
    | S fuel' =>
        match nth_error lines idx with
        | None => Raised IndexError
        | Some line =>
            let stripped := strip line in
            if negb inside_enum then
              if has_char "{" line then
                collect_variants_loop lines end_index fuel' (S idx) variants
                  (brace_depth + brace_delta line)%Z true pending_doc
              else
                collect_variants_loop lines end_index fuel' (S idx) variants
                  brace_depth inside_enum pending_doc
            else if startswith stripped "///" then
              collect_variants_loop lines end_index fuel' (S idx) variants
                (brace_depth + brace_delta line)%Z inside_enum
                (pending_doc ++ [doc_text stripped])
            else if startswith stripped "#[" then
              collect_variants_loop lines end_index fuel' (S idx) variants
                (brace_depth + brace_delta line)%Z inside_enum
                (pending_doc ++ [stripped])
            else
              match
                (if (brace_depth =? 1)%Z && negb (stripped =? "")%string
                    && negb (startswith stripped "//")
                 then match_variant_name stripped else None)
              with
              | Some variant_name =>
                  let '(variant_def, consumed) :=
                    collect_variant_definition lines idx in
                  collect_variants_loop lines end_index fuel' (idx + consumed)
                    (variants ++ [mkVariant variant_name (idx + 1) pending_doc
                                    variant_def])
                    (brace_depth + brace_delta_sum lines idx consumed)%Z
                    inside_enum []
              | None =>
                  collect_variants_loop lines end_index fuel' (S idx) variants
                    (brace_depth + brace_delta line)%Z inside_enum pending_doc
              end
        end
    end.

Definition collect_variants (lines : list string) (start_index end_index : nat)
    : run (list Variant) :=
  collect_variants_loop lines end_index (S end_index - start_index) start_index
    [] 0%Z false [].

(** *** compute_module, enum_to_dict, parse_file and main *)

Definition variant_to_dict (variant : Variant) : json :=
  JDict [("name", JStr (variant_name variant));
         ("start_line", JInt (Z.of_nat (variant_start_line variant)));
         ("doc", JList (map JStr (variant_doc variant)));
         ("definition", JStr (variant_definition variant))].

Definition enum_to_dict (item : EnumItem) : json :=
  JDict [("kind", JStr "enum");
         ("name", JStr (name item));
         ("module", JStr (module item));
         ("path", JStr (path_str (path item)));
         ("start_line", JInt (Z.of_nat (start_line item)));
         ("doc", JList (map JStr (doc item)));
         ("definition", JStr (definition item));
         ("variants", JList (map variant_to_dict (variants item)))].

Section Script.

(** The repository root, [Path(__file__).resolve().parents[1]]. *)
Variable REPO_ROOT : Path.
(** [Path.cwd()] *)
Variable cwd : Path.
(** [BASE.rglob("*.rs")], in the order the file system lists the files. *)
Variable rglob_rs : list Path.
(** [path.read_text(encoding="utf-8")] *)
Variable read_text : Path -> string.
(** [json.dumps(value, indent=2)] *)
Variable json_dumps : json -> string.

Definition BASE : Path := REPO_ROOT ++ ["crates"; "events"; "src"].

Definition compute_module (path : Path) : run string :=
  match relative_to path BASE with
  | None => Raised ValueError
  | Some parts =>
      match rev parts with
      | [] => Raised IndexError
      | last :: _ =>
          let parts :=
            if (last =? "mod.rs")%string then removelast parts
            else removelast parts ++ [removesuffix last ".rs"] in
          Done (join "::" (filter (fun part => negb (part =? "")%string) parts))
      end
  end.

(** The generator body of [parse_file]: [rest] is [lines[idx:]]. *)
Fixpoint parse_file_loop (path : Path) (lines : list string) (idx : nat)
    (rest : list string) : run (list EnumItem) :=
  match rest with
  | [] => Done []
  | line :: rest' =>
      match RE_ENUM_search line with
      | None => parse_file_loop path lines (S idx) rest'
      | Some name =>
          let start_line := idx + 1 in
          enum_doc <- collect_leading_doc lines idx ;;
          let '(definition, end_idx) := collect_block lines idx in
          variants <- collect_variants lines idx end_idx ;;
          module <- compute_module path ;;
          match relative_to path cwd with
          | None => Raised ValueError
          | Some rel =>
              items <- parse_file_loop path lines (S idx) rest' ;;
              Done (mkEnumItem name module rel start_line enum_doc definition
                      variants :: items)
          end
      end
  end.

Definition parse_file (path : Path) : run (list EnumItem) :=
  let lines := splitlines (read_text path) in
  parse_file_loop path lines 0 lines.

(** The [for path in sorted(...)] loop of [main]. *)
Fixpoint main_loop (paths : list Path) (items : list EnumItem)
    : run (list EnumItem) :=
  match paths with
  | [] => Done items
  | path :: paths' =>
      if contains "/tests/" (path_str path) then main_loop paths' items
      else
        found <- parse_file path ;;
        main_loop paths' (items ++ found)
  end.

(** The dict [output] of [main]. *)
Definition main_output : run json :=
  items <- main_loop (sorted rglob_rs) [] ;;
  match relative_to BASE cwd with
  | None => Raised ValueError
  | Some base =>
      Done (JDict
        [("base", JStr (path_str base));
         ("items",
          JList (map enum_to_dict
                   (filter (fun item => endswith (name item) "Event") items)))])
  end.

(** [main] returns the text it writes to [EVENTS_INVENTORY.json]. *)
Definition main : run string :=
  output <- main_output ;;
  Done (json_dumps output ++ LF)%string.

End Script.

End Inventory.

(** ** generate_event_usage.py *)
Module Usage.

(** What [subprocess.run(..., capture_output=True, text=True)] hands back. *)
Record CompletedProcess : Type := mkCompletedProcess {
  returncode : Z;
  stdout : string;
  stderr : string
}.

Record Occurrence : Type := mkOccurrence {
  path : Path;
  line : Z;
  text : string
}.

(** The keys of an inventory entry that the script reads. *)
Record variant_dict : Type := mkVariantDict {
  variant_name : string
}.

Record item_dict : Type := mkItemDict {
  module : string;
  name : string;
  item_path : string;
  variants : list variant_dict
}.

Definition is_digit (c : ascii) : bool :=
  let n := nat_of_ascii c in ((48 <=? n) && (n <=? 57))%nat.

(** Decimal digits with single underscores between them. *)
Fixpoint digits_value (acc : Z) (after_digit : bool) (s : string) : option Z :=
  match s with
  | EmptyString => if after_digit then Some acc else None
  | String c s' =>
      if is_digit c then
        digits_value (acc * 10 + (Z.of_nat (nat_of_ascii c) - 48))%Z true s'
      else if Ascii.eqb c "_" then
        if after_digit then digits_value acc false s' else None
      else None
  end.

(** The white space [int] skips around a number: TAB..CR and the space, and
    the two code points above 127 that are white space, NEL and NBSP, which
    [int] turns into a space first.  The separators FS..US, which [str.strip]
    removes, are not skipped. *)
Definition is_int_space (c : ascii) : bool :=
  let n := nat_of_ascii c in
  ((9 <=? n) && (n <=? 13) || (n =? 32) || (n =? 133) || (n =? 160))%nat.

Fixpoint int_lstrip (s : string) : string :=
  match s with
  | EmptyString => EmptyString
  | String c s' => if is_int_space c then int_lstrip s' else s
  end.

Fixpoint int_rstrip (s : string) : string :=
  match s with
  | EmptyString => EmptyString
  | String c s' =>
      match int_rstrip s' with
      | EmptyString => if is_int_space c then EmptyString else String c EmptyString
      | r => String c r
      end
  end.

Fixpoint count_digits (s : string) : nat :=
  match s with
  | EmptyString => 0
  | String c s' => if is_digit c then S (count_digits s') else count_digits s'
  end.

(** [sys.get_int_max_str_digits()], as the interpreter starts. *)
Definition int_max_str_digits : nat := 4300.

(** [int(s)]; [None] stands for the ValueError.  White space around the
    number is skipped, one sign may lead, and a number of more than
    [int_max_str_digits] digits is refused. *)
Definition py_int (s : string) : option Z :=
  let body := int_rstrip (int_lstrip s) in
  let '(negative, digits) :=
    match body with
    | String "+" r => (false, r)
    | String "-" r => (true, r)
    | r => (false, r)
    end in
  match digits_value 0 false digits with
  | None => None
  | Some n =>
      if (int_max_str_digits <? count_digits digits)%nat then None
      else Some (if negative then - n else n)%Z
  end.

(** [a, b, c = line.split(":", 2)]; [None] when there are fewer than three
    fields to unpack. *)
Fixpoint split_first (c : ascii) (cur s : string) : option (string * string) :=
  match s with
  | EmptyString => None
  | String d s' =>
      if Ascii.eqb d c then Some (cur, s')
      else split_first c (cur ++ String d "")%string s'
  end.

Definition split_colon2 (line : string) : option (string * string * string) :=
  match split_first ":" "" line with
  | None => None
  | Some (path_str, rest) =>
      match split_first ":" "" rest with
      | None => None
      | Some (line_no, text) => Some (path_str, line_no, text)
      end
  end.

Section Script.

(** The repository root, [Path(__file__).resolve().parents[1]]. *)
Variable REPO_ROOT : Path.
(** [path.resolve()], which follows the links of the file system. *)
Variable resolve : Path -> Path.
(** [subprocess.run(cmd, check=False, capture_output=True, text=True)] *)
Variable subprocess_run : list string -> CompletedProcess.
(** The text of [EVENTS_INVENTORY.json]. *)
Variable INVENTORY_text : string.
(** [json.loads(text)["items"]] *)
Variable json_loads_items : string -> list item_dict.
(** [json.dumps(value, indent=2)] *)
Variable json_dumps : json -> string.

Definition to_dict (self : Occurrence) : run json :=
  match relative_to (path self) REPO_ROOT with
  | None => Raised ValueError
  | Some rel =>
      Done (JDict [("path", JStr (path_str rel));
                   ("line", JInt (line self));
                   ("line_text", JStr (strip (text self)))])
  end.

Definition load_inventory : list item_dict := json_loads_items INVENTORY_text.

(** [rel.parts and rel.parts[0] in {"refactor", "target"}] *)
Definition in_excluded_dir (rel : Path) : bool :=
  match rel with
  | [] => false
  | top :: _ => (top =? "refactor")%string || (top =? "target")%string
  end.

(** The [for line in proc.stdout.splitlines()] loop of [ripgrep]. *)
Fixpoint ripgrep_loop (out_lines : list string)
    (results : list (Path * Z * string)) : run (list (Path * Z * string)) :=
  match out_lines with
  | [] => Done results
  | line :: out_lines' =>
      match split_colon2 line with
      | None => Raised ValueError
      | Some (path_str, line_no, text) =>
          let path := Path_of path_str in
          match relative_to path REPO_ROOT with
          | None => ripgrep_loop out_lines' results
          | Some rel =>
              if in_excluded_dir rel then ripgrep_loop out_lines' results
              else
                match py_int line_no with
                | None => Raised ValueError
                | Some n => ripgrep_loop out_lines' (results ++ [(path, n, text)])
                end
          end
      end
  end.

Definition ripgrep (pattern : string) : run (list (Path * Z * string)) :=
  let cmd := ["rg"; "--no-heading"; "--line-number"; pattern;
              path_str REPO_ROOT] in
  let proc := subprocess_run cmd in
  if negb ((returncode proc =? 0)%Z || (returncode proc =? 1)%Z) then
    Raised (RuntimeError (stderr proc))
  else if (strip (stdout proc) =? "")%string then Done []
  else ripgrep_loop (splitlines (stdout proc)) [].

(** The inner [for path, line, text in ripgrep(pattern)] loop of [main]. *)
Fixpoint hits_loop (module_path : Path) (found : list (Path * Z * string))
    (hits : list Occurrence) : list Occurrence :=
  match found with
  | [] => hits
  | (path, line, text) :: found' =>
      if list_eq_dec string_dec (resolve path) module_path then
        hits_loop module_path found' hits
      else hits_loop module_path found' (hits ++ [mkOccurrence path line text])
  end.

(** [[hit.to_dict() for hit in hits]] *)
Fixpoint to_dicts (hits : list Occurrence) : run (list json) :=
  match hits with
  | [] => Done []
  | hit :: hits' =>
      d <- to_dict hit ;;
      ds <- to_dicts hits' ;;
      Done (d :: ds)
  end.

(** One round of [for variant in item["variants"]]: the record appended to
    [usage_report]. *)
Definition usage_record (item : item_dict) (variant : variant_dict) : run json :=
  let module_path := resolve (joinpath REPO_ROOT (item_path item)) in
  let pattern := (name item ++ "::" ++ variant_name variant)%string in
  found <- ripgrep pattern ;;
  let hits := hits_loop module_path found [] in
  match hits with
  | _ :: _ =>
      occurrences <- to_dicts hits ;;
      Done (JDict [("domain", JStr (module item));
                   ("event_type", JStr (name item));
                   ("variant", JStr (variant_name variant));
                   ("occurrences", JList occurrences)])
  | [] =>
      Done (JDict [("domain", JStr (module item));
                   ("event_type", JStr (name item));
                   ("variant", JStr (variant_name variant));
                   ("occurrences", JList [])])
  end.

Fixpoint variants_loop (item : item_dict) (todo : list variant_dict)
    (usage_report : list json) : run (list json) :=
  match todo with
  | [] => Done usage_report
  | variant :: todo' =>
      record <- usage_record item variant ;;
      variants_loop item todo' (usage_report ++ [record])
  end.

Fixpoint items_loop (inventory : list item_dict) (usage_report : list json)
    : run (list json) :=
  match inventory with
  | [] => Done usage_report
  | item :: inventory' =>
      usage_report <- variants_loop item (variants item) usage_report ;;
      items_loop inventory' usage_report
  end.

(** The list [usage_report] of [main]. *)
Definition main_report : run (list json) := items_loop load_inventory [].

(** [main] returns the text it writes to [event_variant_usage.json]; when a
    search fails nothing is written. *)
Definition main : run string :=
  usage_report <- main_report ;;
  Done (json_dumps (JList usage_report) ++ LF)%string.

End Script.

End Usage.

(** ** Vocabulary of the statements

    Source text is described line by line, in the terms the specification
    uses: doc-comment lines, blank lines, attribute lines, and the layout of
    an enum block as a header line, one group of lines per variant and a
    closing line. *)

Import Inventory.

Definition is_doc_line (l : string) : bool := startswith (strip l) "///".
Definition is_blank_line (l : string) : bool := (strip l =? "")%string.
Definition is_attr_line (l : string) : bool := startswith (strip l) "#[".

(** The text attached for a doc-comment line: marker and surrounding white
    space removed. *)
Definition doc_of_line (l : string) : string := doc_text (strip l).

(** The number of lines of [ls] up to and including the first one at which
    the brace and parenthesis counters are back at zero (or below) and the
    line ends with a comma; [None] when no line of [ls] is such a line. *)
Fixpoint first_stop (local_brace local_paren : Z) (ls : list string)
    : option nat :=
  match ls with
  | [] => None
  | l :: ls' =>
      let local_brace := (local_brace + brace_delta l)%Z in
      let local_paren := (local_paren + paren_delta l)%Z in
      if (local_brace <=? 0)%Z && (local_paren <=? 0)%Z
         && endswith (strip l) ","
      then Some 1
      else option_map S (first_stop local_brace local_paren ls')
  end.

(** Net brace count of a run of lines. *)
Definition brace_sum (ls : list string) : Z :=
  fold_right Z.add 0%Z (map brace_delta ls).

(** The brace depth, started at [d], stays positive after every line. *)
Fixpoint stays_open (d : Z) (ls : list string) : bool :=
  match ls with
  | [] => true
  | l :: ls' => (0 <? d + brace_delta l)%Z && stays_open (d + brace_delta l)%Z ls'
  end.

(** One variant of a block in the line-per-variant layout: the lines before
    it (doc comments, attributes, blank lines, plain comments) and the lines
    of its definition. *)
Record entry : Type := mkEntry {
  lead : list string;
  body : list string
}.

Definition entry_lines (en : entry) : list string := lead en ++ body en.

(** A line between variants: braces balanced, and no upper-case identifier
    at its head. *)
Definition lead_ok (l : string) : Prop :=
  brace_delta l = 0%Z /\ match_variant_name (strip l) = None.

(** A variant's own lines: the first begins with an upper-case identifier, the
    last is the first comma-ended line with braces and parentheses balanced,
    the braces opened inside are closed inside. *)
Definition body_ok (b : list string) : Prop :=
  match_variant_name (strip (hd "" b)) <> None
  /\ first_stop 0 0 b = Some (List.length b)
  /\ stays_open 1 b = true
  /\ brace_sum b = 0%Z.

Definition entry_ok (en : entry) : Prop :=
  Forall lead_ok (lead en) /\ body_ok (body en).

Definition entry_name (en : entry) : string :=
  match match_variant_name (strip (hd "" (body en))) with
  | Some n => n
  | None => ""
  end.

(** What the pending-doc buffer holds after a run of lines between variants:
    doc-comment texts and whole attribute lines, in order. *)
Fixpoint lead_docs (ls : list string) : list string :=
  match ls with
  | [] => []
  | l :: ls' =>
      if is_doc_line l then doc_of_line l :: lead_docs ls'
      else if is_attr_line l then strip l :: lead_docs ls'
      else lead_docs ls'
  end.

(** The records expected for a run of entries whose first line has index
    [idx] (zero-based). *)
Fixpoint expected_variants (idx : nat) (entries : list entry) : list Variant :=
  match entries with
  | [] => []
  | en :: entries' =>
      mkVariant (entry_name en) (idx + List.length (lead en) + 1)
        (lead_docs (lead en)) (strip (join LF (body en)))
      :: expected_variants (idx + List.length (entry_lines en)) entries'
  end.

(** [lines[start:start+k]] *)
Definition span (lines : list string) (start k : nat) : list string :=
  firstn k (skipn start lines).

(** The number of lines [collect_variant_definition] takes from [ls]. *)
Definition taken (ls : list string) : nat :=
  match first_stop 0 0 ls with
  | Some k => k
  | None => List.length ls
  end.

(** A variant record is well placed in [lines] when its definition is the
    stripped join of the lines taken from its own start line. *)
Definition definition_from_span (lines : list string) (v : Variant) : Prop :=
  1 <= variant_start_line v <= List.length lines
  /\ variant_definition v
     = strip (join LF (span lines (variant_start_line v - 1)
                         (taken (skipn (variant_start_line v - 1) lines)))).

(** A last variant with no comma-ended line before the end of the block. *)
Definition open_body_ok (b after : list string) : Prop :=
  match_variant_name (strip (hd "" b)) <> None
  /\ b <> []
  /\ first_stop 0 0 (b ++ after) = None.

(** The layout of a block: its variants are [entries], then [final] when the
    last variant has no trailing comma. *)
Definition layout_lines (header : string) (entries : list entry)
    (final : option entry) (trailer : list string) (closing : string)
    : list string :=
  header :: List.concat (map entry_lines entries)
    ++ match final with Some en => entry_lines en | None => [] end
    ++ trailer ++ [closing].

Definition layout_variants (entries : list entry) (final : option entry)
    : list entry :=
  entries ++ match final with Some en => [en] | None => [] end.

Definition layout_ok (header : string) (entries : list entry)
    (final : option entry) (trailer : list string) (closing : string) : Prop :=
  has_char "{" header = true /\ brace_delta header = 1%Z
  /\ Forall entry_ok entries
  /\ match final with
     | None =>
         Forall lead_ok trailer
         /\ match_variant_name (strip closing) = None
         /\ (1 + brace_delta closing <= 0)%Z
     | Some en =>
         Forall lead_ok (lead en)
         /\ open_body_ok (body en) (trailer ++ [closing])
         /\ stays_open 1 (body en ++ trailer) = true
         /\ (1 + brace_sum (body en ++ trailer) + brace_delta closing <= 0)%Z
     end.

(** The lines of a block between its header and its closing line. *)
Definition layout_middle (entries : list entry) (final : option entry)
    (trailer : list string) : list string :=
  List.concat (map entry_lines entries)
    ++ match final with Some en => entry_lines en | None => [] end
    ++ trailer.

(** The records expected for a block in the layout whose header is at
    index [start - 1]. *)
Definition layout_expected (start : nat) (lines : list string)
    (entries : list entry) (final : option entry) : list Variant :=
  expected_variants start entries
  ++ match final with
     | None => []
     | Some en =>
         let idx := start + List.length (List.concat (map entry_lines entries))
                    + List.length (lead en) in
         [mkVariant (entry_name en) (idx + 1) (lead_docs (lead en))
            (fst (collect_variant_definition lines idx))]
     end.

Definition path_le (p q : Path) : Prop := path_compare q p <> Lt.

(** *** Vocabulary of the usage report *)
Module UsageSpec.
Import Usage.

(** The (event type, variant) pairs of an inventory, items in order and each
    item's variants in order. *)
Definition inventory_pairs (inventory : list item_dict)
    : list (item_dict * variant_dict) :=
  flat_map (fun item => map (pair item) (variants item)) inventory.

(** The usage record of a pair with the given occurrences. *)
Definition record_of (item : item_dict) (variant : variant_dict)
    (occurrences : list json) : json :=
  JDict [("domain", JStr (module item));
         ("event_type", JStr (name item));
         ("variant", JStr (variant_name variant));
         ("occurrences", JList occurrences)].

(** The search pattern of a pair and the command line it is handed to. *)
Definition pattern_of (item : item_dict) (variant : variant_dict) : string :=
  (name item ++ "::" ++ variant_name variant)%string.

Definition command_of (REPO_ROOT : Path) (pattern : string) : list string :=
  ["rg"; "--no-heading"; "--line-number"; pattern; path_str REPO_ROOT].

(** The file an inventory entry was declared in. *)
Definition declaring_file (REPO_ROOT : Path) (resolve : Path -> Path)
    (item : item_dict) : Path :=
  resolve (joinpath REPO_ROOT (item_path item)).

(** A line of search output the script can take apart: three colon-separated
    fields, and a decimal line number unless the match is dropped for its
    location. *)
Definition output_line_ok (REPO_ROOT : Path) (line : string) : Prop :=
  exists path_str line_no text,
    split_colon2 line = Some (path_str, line_no, text)
    /\ match relative_to (Path_of path_str) REPO_ROOT with
       | None => True
       | Some rel => in_excluded_dir rel = true \/ py_int line_no <> None
       end.

(** A line of search output on which the script stops: it has fewer than
    three colon-separated fields, or its match is kept for its location and
    the second field is not a number. *)
Definition line_not_taken_apart (REPO_ROOT : Path) (line : string) : Prop :=
  split_colon2 line = None
  \/ exists path_str line_no text rel,
       split_colon2 line = Some (path_str, line_no, text)
       /\ relative_to (Path_of path_str) REPO_ROOT = Some rel
       /\ in_excluded_dir rel = false
       /\ py_int line_no = None.

(** Running a fallible step over a list, stopping at the first failure. *)
Fixpoint map_run {A B : Type} (f : A -> run B) (l : list A) : run (list B) :=
  match l with
  | [] => Done []
  | a :: l' =>
      b <- f a ;;
      bs <- map_run f l' ;;
      Done (b :: bs)
  end.

Definition benign (status : Z) : Prop := status = 0%Z \/ status = 1%Z.

(** Every result the output loop keeps lies under the repository root. *)
Definition under_root (REPO_ROOT : Path) (m : Path * Z * string) : Prop :=
  relative_to (fst (fst m)) REPO_ROOT <> None.

End UsageSpec.

(** The reading of the claim: every line of the span stripped on its own. *)
Definition normalized_per_line (ls : list string) : string :=
  join LF (map strip ls).

(** The item list of the inventory dict. *)
Definition emitted_items (output : json) : list json :=
  match output with
  | JDict [(_, _); (_, JList items)] => items
  | _ => []
  end.

(** Both scripts in order: the usage script reads the file the inventory
    script wrote.  The result is the text of the two artifacts. *)
Definition pipeline (REPO_ROOT cwd : Path) (rglob_rs : list Path)
    (read_text : Path -> string) (resolve : Path -> Path)
    (subprocess_run : list string -> Usage.CompletedProcess)
    (json_loads_items : string -> list Usage.item_dict)
    (json_dumps : json -> string) : run string * run string :=
  let inventory := main REPO_ROOT cwd rglob_rs read_text json_dumps in
  (inventory,
   INVENTORY_text <- inventory ;;
   Usage.main REPO_ROOT resolve subprocess_run INVENTORY_text json_loads_items
     json_dumps).

(** *** Sample sources and a sample tree *)

(** An enum whose last variant has no trailing comma, followed by another
    enum. *)
Definition source_without_last_comma : list string :=
  ["pub enum OrderEvent {";
   "    Created(OrderId),";
   "    Cancelled { reason: String }";
   "}";
   "";
   "pub enum OrderStatus {";
   "    Open,";
   "    Closed,";
   "}"].

(** Two variants, the first followed by a comment on its line. *)
Definition source_with_trailing_comment : list string :=
  ["pub enum OrderEvent {";
   "    Created(OrderId), // first";
   "    Cancelled { reason: String },";
   "}"].

(** The same enum on one line. *)
Definition source_on_one_line : list string :=
  ["pub enum OrderEvent { Created(OrderId), Cancelled { reason: String } }"].

(** A struct-like variant over three indented lines. *)
Definition source_with_struct_variant : list string :=
  ["pub enum OrderEvent {";
   "    Cancelled {";
   "        reason: String,";
   "    },";
   "}"].

(** A variant with an attribute above its one doc-comment line. *)
Definition source_with_attribute_above_doc : list string :=
  ["pub enum OrderEvent {";
   "    #[deprecated]";
   "    /// made";
   "    Created(OrderId),";
   "}"].

(** A block in the layout: a documented variant, a struct-like variant over
    three lines with nested parentheses, and a last variant with no comma. *)
Definition sample_entries : list entry :=
  [mkEntry ["    /// made"] ["    Created(OrderId),"];
   mkEntry [""; "    // gone"]
     ["    Cancelled {"; "        reason: Vec<(u8, u8)>,"; "    },"]].

Definition sample_final : option entry :=
  Some (mkEntry ["    /// done"; "    #[deprecated]"] ["    Closed"]).

(** A tree with three Rust files under the event crate, one of them in a
    tests directory; every file holds the same two enums. *)
Definition sample_root : Path := ["/"; "repo"].

Definition sample_listing : list Path :=
  [sample_root ++ ["crates"; "events"; "src"; "order"; "mod.rs"];
   sample_root ++ ["crates"; "events"; "src"; "tests"; "order.rs"];
   sample_root ++ ["crates"; "events"; "src"; "audit.rs"]].

Definition sample_text (p : Path) : string :=
  join LF ["/// Order events";
           "pub enum OrderEvent {";
           "    Created(OrderId),";
           "    Cancelled { reason: String },";
           "}";
           "pub enum OrderStatus {";
           "    Open,";
           "}";
           ""].

(** A stand-in for the serializer: it prints the names of the items. *)
Fixpoint sample_dumps (v : json) : string :=
  match v with
  | JStr s => s
  | JInt _ => "0"
  | JList l => join "," (map sample_dumps l)
  | JDict items => join ";" (map (fun kv => sample_dumps (snd kv)) items)
  end.

Definition sample_output : json := Eval vm_compute in
    match main_output sample_root sample_root sample_listing sample_text with
    | Done output => output
    | _ => JList []
    end.

(** A search tool over the sample tree: [OrderEvent::Created] is found in
    the declaring file, in one other source file and in the inventory file;
    [OrderEvent::Cancelled] only in the declaring file; [OrderEvent::Lost]
    makes the tool fail; [OrderEvent::Odd] is found in a file with a colon in
    its name; nothing else is found. *)
Definition sample_search (cmd : list string) : Usage.CompletedProcess :=
  match nth 3 cmd "" with
  | "OrderEvent::Created" =>
      Usage.mkCompletedProcess 0
        (join LF ["/repo/crates/events/src/order/mod.rs:3:    Created(OrderId),";
                  "/repo/apps/shop.rs:10:    emit(OrderEvent::Created(id));";
                  "/repo/refactor/EVENTS_INVENTORY.json:9:OrderEvent::Created";
                  ""]) ""
  | "OrderEvent::Cancelled" =>
      Usage.mkCompletedProcess 0
        (join LF ["/repo/crates/events/src/order/mod.rs:4:    Cancelled,"; ""])
        ""
  | "OrderEvent::Lost" => Usage.mkCompletedProcess 2 "" "rg: regex parse error"
  | "OrderEvent::Odd" =>
      Usage.mkCompletedProcess 0 (join LF ["/repo/notes/a:b.rs:3:OrderEvent::Odd"; ""]) ""
  | _ => Usage.mkCompletedProcess 1 "" ""
  end.

Definition sample_order_item (names : list string) : Usage.item_dict :=
  Usage.mkItemDict "order" "OrderEvent" "crates/events/src/order/mod.rs"
    (map Usage.mkVariantDict names).

(** A stand-in for the deserializer: the inventory does not depend on the
    text. *)
Definition sample_loads (names : list string) (text : string)
    : list Usage.item_dict :=
  [sample_order_item names].

Definition sample_report : list json := Eval vm_compute in
    match Usage.main_report sample_root (fun p => p) sample_search ""
            (sample_loads ["Created"; "Cancelled"]) with
    | Done report => report
    | _ => []
    end.

(** *** Further vocabulary: declarations, identifiers, paths, trimmed text *)

(** The declaration lines of a text: the index and the declared name of every
    line on which the declaration pattern matches, from index [idx] on. *)
Fixpoint enum_lines_from (idx : nat) (rest : list string) : list (nat * string) :=
  match rest with
  | [] => []
  | line :: rest' =>
      match RE_ENUM_search line with
      | Some name => (idx, name) :: enum_lines_from (S idx) rest'
      | None => enum_lines_from (S idx) rest'
      end
  end.

Definition enum_lines (lines : list string) : list (nat * string) :=
  enum_lines_from 0 lines.

(** The item [parse_file] yields for the declaration at line index [idx]. *)
Definition item_of_declaration (REPO_ROOT cwd path : Path)
    (lines : list string) (decl : nat * string) (item : EnumItem) : Prop :=
  name item = snd decl
  /\ start_line item = fst decl + 1
  /\ compute_module REPO_ROOT path = Done (module item)
  /\ relative_to path cwd = Some (Inventory.path item)
  /\ collect_leading_doc lines (fst decl) = Done (doc item)
  /\ definition item = fst (collect_block lines (fst decl))
  /\ collect_variants lines (fst decl) (snd (collect_block lines (fst decl)))
     = Done (variants item).

(** Every character of [s] is a word character. *)
Fixpoint all_word (s : string) : bool :=
  match s with
  | EmptyString => true
  | String c s' => is_word c && all_word s'
  end.

(** An identifier with an upper-case first letter. *)
Definition is_variant_identifier (s : string) : bool :=
  match s with
  | EmptyString => false
  | String c s' => is_upper c && all_word s'
  end.

(** A variant found in the block from [start_index] to [end_index]: it starts
    on a line after the declaration line and inside the block, and its name
    is the identifier at the head of that line. *)
Definition variant_in_block (lines : list string) (start_index end_index : nat)
    (v : Variant) : Prop :=
  start_index + 2 <= variant_start_line v <= end_index + 1
  /\ match_variant_name (strip (nth (variant_start_line v - 1) lines ""))
     = Some (variant_name v).

Definition starts_before (a b : Variant) : Prop :=
  variant_start_line a < variant_start_line b.

(** The items of one file of the sample tree. *)
Definition sample_items : list EnumItem := Eval vm_compute in
    match parse_file sample_root sample_root sample_text
            (sample_root ++ ["crates"; "events"; "src"; "audit.rs"]) with
    | Done items => items
    | _ => []
    end.

(** A path component as a file system lists it: not empty, not the dot, and
    without a slash. *)
Definition plain_part (s : string) : Prop :=
  s <> "" /\ s <> "." /\ has_char "/" s = false.

(** A match the search keeps: it lies below the repository root, outside
    the directories [refactor] and [target]. *)
Definition kept_match (REPO_ROOT : Path) (m : Path * Z * string) : Prop :=
  exists rel,
    relative_to (fst (fst m)) REPO_ROOT = Some rel
    /\ Usage.in_excluded_dir rel = false.

(** The files [main] reads: those whose path string does not hold
    [/tests/]. *)
Definition read_by_main (paths : list Path) : list Path :=
  filter (fun path => negb (contains "/tests/" (path_str path))) paths.

(** The items of the whole sample tree. *)
Definition sample_tree_items : list EnumItem := Eval vm_compute in
    match Inventory.main_loop sample_root sample_root sample_text
            (sorted sample_listing) [] with
    | Done items => items
    | _ => []
    end.

(** The last character of a string. *)
Fixpoint last_char (s : string) : option ascii :=
  match s with
  | EmptyString => None
  | String c EmptyString => Some c
  | String _ s' => last_char s'
  end.

(** A text with no white space at either end. *)
Definition trimmed (s : string) : Prop :=
  match s with
  | EmptyString => True
  | String c _ => isspace c = false
  end
  /\ match last_char s with
     | None => True
     | Some c => isspace c = false
     end.

(** *** Further vocabulary: the lines met before a variant *)

(** The index just past the first line of [ls] that holds an opening brace,
    [idx] being the index of the first line of [ls]. *)
Fixpoint past_opening (ls : list string) (idx : nat) : nat :=
  match ls with
  | [] => idx
  | l :: ls' => if has_char "{" l then S idx else past_opening ls' (S idx)
  end.

(** The index of the line below the block's opening line. *)
Definition block_body_start (lines : list string) (start_index : nat) : nat :=
  past_opening (skipn start_index lines) start_index.

(** The index just past the lines taken for a variant's definition. *)
Definition definition_end (lines : list string) (v : Variant) : nat :=
  variant_start_line v - 1
  + snd (collect_variant_definition lines (variant_start_line v - 1)).

(** Where the lines met before the variant number [j] begin: below the
    opening line for the first variant, below the definition of the variant
    before it for the others. *)
Definition met_from (lines : list string) (start_index : nat)
    (vs : list Variant) (j : nat) : nat :=
  match j with
  | O => block_body_start lines start_index
  | S j' =>
      match nth_error vs j' with
      | Some u => definition_end lines u
      | None => 0
      end
  end.

(** The lines met since the previous variant (or the opening line), up to
    the line on which [v], the variant number [j], starts. *)
Definition lines_met_before (lines : list string) (start_index : nat)
    (vs : list Variant) (j : nat) (v : Variant) : list string :=
  span lines (met_from lines start_index vs j)
    (variant_start_line v - 1 - met_from lines start_index vs j).

(** The doc lists of consecutive variants, the lines met before the first
    one beginning at index [from]. *)
Fixpoint docs_since (lines : list string) (from : nat) (vs : list Variant)
    : Prop :=
  match vs with
  | [] => True
  | v :: vs' =>
      from <= variant_start_line v - 1
      /\ variant_doc v
         = lead_docs (span lines from (variant_start_line v - 1 - from))
      /\ docs_since lines (definition_end lines v) vs'
  end.

(** Where the lines met after the last variant of [vs] begin. *)
Fixpoint since_end (lines : list string) (from : nat) (vs : list Variant)
    : nat :=
  match vs with
  | [] => from
  | v :: vs' => since_end lines (definition_end lines v) vs'
  end.

(** A text of white space only. *)
Fixpoint all_space (s : string) : bool :=
  match s with
  | EmptyString => true
  | String c s' => isspace c && all_space s'
  end.

(** Two doc-comment lines directly above the second variant, a blank line
    and a plain comment above them. *)
Definition source_with_docs_above_variants : list string :=
  ["pub enum OrderEvent {";
   "    /// first";
   "    Created(OrderId),";
   "";
   "    // note";
   "    /// second";
   "    /// more";
   "    Cancelled,";
   "}"].

(** One doc-comment line directly above the declaration, a blank line above
    it and a doc-comment line above the blank line. *)
Definition source_with_doc_above_blank : list string :=
  ["/// Old";
   "";
   "/// Order";
   "pub enum OrderEvent {";
   "    Created(OrderId),";
   "}"].

(** ** Part II: properties *)

(** *** Doc collection above a declaration *)

Lemma leading_doc_loop_prefix (above rest : list string) (n : nat)
    (docs : list string) :
  n <= List.length above ->
  collect_leading_doc_loop (above ++ rest) n docs
  = collect_leading_doc_loop above n docs.
Proof.
  revert docs. induction n as [|i IH]; intros docs Hn; simpl; [reflexivity|].
  rewrite app_nth1 by lia.
  destruct (startswith _ "///"); [apply IH; lia|].
  destruct (_ =? "")%string; [apply IH; lia|reflexivity].
Qed.

Lemma leading_doc_loop_snoc (above : list string) (x : string)
    (docs : list string) :
  collect_leading_doc_loop (above ++ [x]) (S (List.length above)) docs
  = if is_doc_line x then
      collect_leading_doc_loop above (List.length above) (docs ++ [doc_of_line x])
    else if is_blank_line x then
      collect_leading_doc_loop above (List.length above) docs
    else docs.
Proof.
  simpl. rewrite nth_middle.
  unfold is_doc_line, is_blank_line, doc_of_line.
  destruct (startswith _ "///"); [apply leading_doc_loop_prefix; lia|].
  destruct (_ =? "")%string; [apply leading_doc_loop_prefix; lia|reflexivity].
Qed.

Lemma leading_doc_loop_blanks (above blanks : list string) (docs : list string) :
  Forall (fun l => is_blank_line l = true) blanks ->
  Forall (fun l => is_doc_line l = false) blanks ->
  collect_leading_doc_loop (above ++ blanks) (List.length (above ++ blanks)) docs
  = collect_leading_doc_loop above (List.length above) docs.
Proof.
  induction blanks as [|x blanks IH] using rev_ind; intros Hb Hd.
  - now rewrite app_nil_r.
  - apply Forall_app in Hb as [Hb Hx]. apply Forall_app in Hd as [Hd Hx'].
    inversion Hx; inversion Hx'; subst.
    rewrite app_assoc, length_app. simpl. rewrite Nat.add_1_r.
    rewrite leading_doc_loop_snoc.
    replace (is_doc_line x) with false by congruence.
    replace (is_blank_line x) with true by congruence. auto.
Qed.

Lemma blank_not_doc (l : string) : is_blank_line l = true -> is_doc_line l = false.
Proof.
  unfold is_blank_line, is_doc_line. intros H.
  apply String.eqb_eq in H. now rewrite H.
Qed.

Lemma attr_not_doc_nor_blank (l : string) :
  is_attr_line l = true -> is_doc_line l = false /\ is_blank_line l = false.
Proof.
  unfold is_attr_line, is_doc_line, is_blank_line, startswith.
  destruct (strip l) as [|c s]; simpl; [discriminate|].
  destruct (Ascii.eqb_spec c "#"); [subst c|discriminate].
  intros _. split; reflexivity.
Qed.

Lemma leading_doc_loop_docs (above dl : list string) (docs : list string) :
  Forall (fun l => is_doc_line l = true) dl ->
  collect_leading_doc_loop (above ++ dl) (List.length (above ++ dl)) docs
  = collect_leading_doc_loop above (List.length above)
      (docs ++ rev (map doc_of_line dl)).
Proof.
  revert docs. induction dl as [|x dl IH] using rev_ind; intros docs Hd.
  - simpl. now rewrite !app_nil_r.
  - apply Forall_app in Hd as [Hd Hx]. inversion Hx; subst.
    rewrite app_assoc, length_app. simpl. rewrite Nat.add_1_r.
    rewrite leading_doc_loop_snoc.
    replace (is_doc_line x) with true by congruence.
    rewrite IH by assumption.
    rewrite map_app, rev_app_distr. simpl. now rewrite <- app_assoc.
Qed.

Lemma leading_doc_loop_stop (above : list string) (x : string)
    (docs : list string) :
  is_doc_line x = false -> is_blank_line x = false ->
  collect_leading_doc_loop (above ++ [x]) (List.length (above ++ [x])) docs
  = docs.
Proof.
  intros Hd Hb. rewrite length_app. simpl. rewrite Nat.add_1_r.
  now rewrite leading_doc_loop_snoc, Hd, Hb.
Qed.

(** The walk only reads the lines above the declaration. *)
Lemma collect_leading_doc_above (above rest : list string) :
  collect_leading_doc (above ++ rest) (List.length above)
  = Done (rev (collect_leading_doc_loop above (List.length above) [])).
Proof.
  unfold collect_leading_doc.
  replace (_ <? _)%nat with false
    by (symmetry; apply Nat.ltb_ge; rewrite length_app; lia).
  now rewrite leading_doc_loop_prefix.
Qed.

Lemma collect_leading_doc_run (above dl blanks rest : list string) :
  Forall (fun l => is_doc_line l = true) dl ->
  Forall (fun l => is_blank_line l = true) blanks ->
  collect_leading_doc (above ++ dl ++ blanks ++ rest)
    (List.length (above ++ dl ++ blanks))
  = Done (rev (collect_leading_doc_loop above (List.length above) [])
          ++ map doc_of_line dl).
Proof.
  intros Hd Hb.
  replace (above ++ dl ++ blanks ++ rest)
    with ((above ++ dl ++ blanks) ++ rest) by now rewrite <- !app_assoc.
  rewrite collect_leading_doc_above. f_equal.
  rewrite (app_assoc above dl blanks).
  rewrite leading_doc_loop_blanks; auto.
  2:{ eapply Forall_impl; [|exact Hb]. apply blank_not_doc. }
  rewrite leading_doc_loop_docs by assumption. simpl.
  (* the loop only appends to what it was handed *)
  assert (Happ : forall n ls acc,
             collect_leading_doc_loop ls n acc
             = acc ++ collect_leading_doc_loop ls n []).
  { induction n as [|i IH]; intros ls acc; simpl; [now rewrite app_nil_r|].
    destruct (startswith _ "///").
    - rewrite (IH ls (acc ++ _)), (IH ls [_]). now rewrite app_assoc.
    - destruct (_ =? "")%string; [apply IH|now rewrite app_nil_r]. }
  rewrite Happ, rev_app_distr, rev_involutive. reflexivity.
Qed.

(** *** Spans: what the two extraction loops put in their buffers *)

Lemma skipn_cons_nth (lines : list string) (idx : nat) (l : string)
    (ls : list string) :
  skipn idx lines = l :: ls ->
  nth idx lines "" = l /\ nth_error lines idx = Some l
  /\ skipn (S idx) lines = ls /\ idx < List.length lines.
Proof.
  revert idx. induction lines as [|x lines IH]; intros [|idx] H; simpl in *;
    try discriminate.
  - inversion H; subst. repeat split; auto. lia.
  - destruct (IH idx H) as (? & ? & ? & ?). repeat split; auto. lia.
Qed.

Lemma first_stop_bounds (lb lp : Z) (ls : list string) (k : nat) :
  first_stop lb lp ls = Some k -> 1 <= k <= List.length ls.
Proof.
  revert lb lp k. induction ls as [|l ls IH]; intros lb lp k; simpl;
    [discriminate|].
  destruct (_ && _).
  - intros [= <-]. lia.
  - destruct (first_stop _ _ ls) eqn:E; simpl; [|discriminate].
    intros [= <-]. apply IH in E. lia.
Qed.

Lemma first_stop_app (lb lp : Z) (a b : list string) (k : nat) :
  first_stop lb lp a = Some k -> first_stop lb lp (a ++ b) = Some k.
Proof.
  revert lb lp k. induction a as [|l a IH]; intros lb lp k; simpl;
    [discriminate|].
  destruct (_ && _); [auto|].
  destruct (first_stop _ _ a) eqn:E; simpl; [|discriminate].
  intros [= <-]. now rewrite (IH _ _ _ E).
Qed.

Lemma variant_definition_loop_spec (lines ls : list string) :
  forall idx buffer lb lp consumed,
  skipn idx lines = ls ->
  collect_variant_definition_loop lines (List.length ls) idx buffer lb lp consumed
  = match first_stop lb lp ls with
    | Some k => (buffer ++ firstn k ls, consumed + k)
    | None => (buffer ++ ls, consumed + List.length ls)
    end.
Proof.
  induction ls as [|l ls IH]; intros idx buffer lb lp consumed Hs; simpl.
  - now rewrite app_nil_r, Nat.add_0_r.
  - destruct (skipn_cons_nth _ _ _ _ Hs) as (Hn & _ & Hs' & _). rewrite Hn.
    destruct (_ && _).
    + simpl. now rewrite Nat.add_1_r.
    + rewrite (IH _ _ _ _ _ Hs').
      destruct (first_stop _ _ ls); simpl;
        rewrite <- app_assoc; simpl; f_equal; lia.
Qed.

Lemma collect_variant_definition_spec (lines : list string) (idx : nat) :
  collect_variant_definition lines idx
  = (strip (join LF (span lines idx (taken (skipn idx lines)))),
     taken (skipn idx lines)).
Proof.
  unfold collect_variant_definition, span, taken.
  rewrite <- length_skipn.
  rewrite (variant_definition_loop_spec lines (skipn idx lines)) by reflexivity.
  destruct (first_stop 0 0 (skipn idx lines)); simpl; [reflexivity|].
  now rewrite firstn_all.
Qed.

Lemma taken_bounds (lines : list string) (idx : nat) :
  idx < List.length lines ->
  1 <= taken (skipn idx lines) <= List.length lines - idx.
Proof.
  intros H. unfold taken. rewrite <- length_skipn.
  destruct (first_stop 0 0 (skipn idx lines)) eqn:E.
  - now apply first_stop_bounds in E.
  - rewrite length_skipn. lia.
Qed.

Lemma skipn_app_exact (a b : list string) : skipn (List.length a) (a ++ b) = b.
Proof. induction a; simpl; auto. Qed.

(** A variant whose lines end at their first balanced comma line is taken
    whole and alone. *)
Lemma collect_variant_definition_body (done b rest : list string) :
  first_stop 0 0 b = Some (List.length b) ->
  collect_variant_definition (done ++ b ++ rest) (List.length done)
  = (strip (join LF b), List.length b).
Proof.
  intros H. rewrite collect_variant_definition_spec. unfold span, taken.
  rewrite skipn_app_exact, (first_stop_app _ _ _ rest _ H).
  now rewrite firstn_app, Nat.sub_diag, firstn_all, app_nil_r.
Qed.

(** The buffer of [collect_block] is a run of lines from [start_index]: up
    to the line that closed the block, or to the end of the file when no
    line did, and then [end_index] is still [start_index]. *)
Lemma collect_block_loop_spec (lines ls : list string) :
  forall idx buffer brace_depth started end_index,
  skipn idx lines = ls ->
  exists k,
    k <= List.length ls
    /\ fst (collect_block_loop lines (List.length ls) idx buffer brace_depth
              started end_index) = buffer ++ firstn k ls
    /\ let e := snd (collect_block_loop lines (List.length ls) idx buffer
                       brace_depth started end_index) in
       (1 <= k /\ e = idx + k - 1) \/ (k = List.length ls /\ e = end_index).
Proof.
  induction ls as [|l ls IH]; intros idx buffer bd st e0 Hs; simpl.
  - exists 0. rewrite app_nil_r. auto.
  - destruct (skipn_cons_nth _ _ _ _ Hs) as (Hn & _ & Hs' & _). rewrite Hn.
    set (upd := if negb st then _ else _).
    destruct upd as [bd' st'].
    destruct (st' && (bd' <=? 0)%Z).
    + exists 1. simpl. repeat split; [lia|]. left. lia.
    + destruct (IH (S idx) (buffer ++ [l]) bd' st' e0 Hs')
        as (k & Hk & Hb & He).
      exists (S k). split; [lia|]. split.
      * rewrite Hb, <- app_assoc. reflexivity.
      * simpl in He |- *. destruct He as [[? ->]|[-> ->]]; [left|right]; lia.
Qed.

Lemma collect_block_spec (lines : list string) (start_index : nat) :
  exists k,
    k <= List.length lines - start_index
    /\ fst (collect_block lines start_index)
       = strip (join LF (span lines start_index k))
    /\ ((1 <= k /\ snd (collect_block lines start_index) = start_index + k - 1)
        \/ (k = List.length lines - start_index
            /\ snd (collect_block lines start_index) = start_index)).
Proof.
  unfold collect_block, span. rewrite <- length_skipn.
  destruct (collect_block_loop_spec lines (skipn start_index lines)
              start_index [] 0%Z false start_index eq_refl)
    as (k & Hk & Hb & He).
  destruct (collect_block_loop _ _ _ _ _ _ _) as [buffer e]. simpl in *.
  exists k. subst buffer. auto.
Qed.

Lemma collect_block_end_in_range (lines : list string) (start_index : nat) :
  start_index < List.length lines ->
  start_index <= snd (collect_block lines start_index) < List.length lines.
Proof.
  intros H. destruct (collect_block_spec lines start_index)
    as (k & Hk & _ & [[? ->]|[_ ->]]); lia.
Qed.

(** *** The segmentation loop always finishes *)

Lemma collect_variants_loop_unfold lines end_index fuel idx variants
    brace_depth inside_enum pending_doc :
  collect_variants_loop lines end_index fuel idx variants brace_depth
    inside_enum pending_doc
  = if (end_index <? idx)%nat then Done variants
    else
      match fuel with
      | O => OutOfFuel
      | S fuel' =>
          match nth_error lines idx with
          | None => Raised IndexError
          | Some line =>
              let stripped := strip line in
              if negb inside_enum then
                if has_char "{" line then
                  collect_variants_loop lines end_index fuel' (S idx) variants
                    (brace_depth + brace_delta line)%Z true pending_doc
                else
                  collect_variants_loop lines end_index fuel' (S idx) variants
                    brace_depth inside_enum pending_doc
              else if startswith stripped "///" then
                collect_variants_loop lines end_index fuel' (S idx) variants
                  (brace_depth + brace_delta line)%Z inside_enum
                  (pending_doc ++ [doc_text stripped])
              else if startswith stripped "#[" then
                collect_variants_loop lines end_index fuel' (S idx) variants
                  (brace_depth + brace_delta line)%Z inside_enum
                  (pending_doc ++ [stripped])
              else
                match
                  (if (brace_depth =? 1)%Z && negb (stripped =? "")%string
                      && negb (startswith stripped "//")
                   then match_variant_name stripped else None)
                with
                | Some variant_name =>
                    let '(variant_def, consumed) :=
                      collect_variant_definition lines idx in
                    collect_variants_loop lines end_index fuel' (idx + consumed)
                      (variants ++ [mkVariant variant_name (idx + 1) pending_doc
                                      variant_def])
                      (brace_depth + brace_delta_sum lines idx consumed)%Z
                      inside_enum []
                | None =>
                    collect_variants_loop lines end_index fuel' (S idx) variants
                      (brace_depth + brace_delta line)%Z inside_enum pending_doc
                end
          end
      end.
Proof. destruct fuel; reflexivity. Qed.

Lemma collect_variants_loop_total (lines : list string) (end_index : nat) :
  end_index < List.length lines ->
  forall fuel idx variants brace_depth inside_enum pending_doc,
  S end_index - idx <= fuel ->
  Forall (definition_from_span lines) variants ->
  exists result,
    collect_variants_loop lines end_index fuel idx variants brace_depth
      inside_enum pending_doc = Done result
    /\ Forall (definition_from_span lines) result.
Proof.
  intros He. induction fuel as [|fuel IH];
    intros idx variants bd inside pd Hf Hv;
    rewrite collect_variants_loop_unfold;
    destruct (Nat.ltb_spec end_index idx) as [Hlt|Hge]; eauto; [lia|].
  destruct (nth_error lines idx) as [line|] eqn:Hl.
  2:{ apply nth_error_None in Hl. lia. }
  cbv zeta.
  destruct (negb inside).
  { destruct (has_char "{" line); apply IH; auto; lia. }
  destruct (startswith (strip line) "///"); [apply IH; auto; lia|].
  destruct (startswith (strip line) "#["); [apply IH; auto; lia|].
  match goal with
  | |- context [match ?x with Some _ => _ | None => _ end] =>
      destruct x as [vn|]; [|apply IH; auto; lia]
  end.
  rewrite collect_variant_definition_spec.
  pose proof (taken_bounds lines idx ltac:(lia)) as Ht.
  apply IH; [lia|].
  apply Forall_app. split; [assumption|]. constructor; [|constructor].
  unfold definition_from_span. simpl.
  replace (idx + 1 - 1) with idx by lia. split; [lia|reflexivity].
Qed.

Lemma collect_variants_total (lines : list string) (start_index end_index : nat) :
  end_index < List.length lines ->
  exists result,
    collect_variants lines start_index end_index = Done result
    /\ Forall (definition_from_span lines) result.
Proof.
  intros He. apply collect_variants_loop_total; auto.
Qed.

(** *** Segmentation of a block in the line-per-variant layout *)

Lemma upper_head (st n : string) :
  match_variant_name st = Some n ->
  startswith st "///" = false /\ startswith st "#[" = false
  /\ (st =? "")%string = false /\ startswith st "//" = false.
Proof.
  destruct st as [|c st]; simpl; [discriminate|].
  destruct (is_upper c) eqn:U; [intros _|discriminate].
  assert (Ascii.eqb c "/" = false /\ Ascii.eqb c "#" = false) as [-> ->].
  { split; apply Ascii.eqb_neq; intros ->; discriminate. }
  auto.
Qed.

Lemma nth_error_middle (done rest : list string) (l : string) :
  nth_error (done ++ l :: rest) (List.length done) = Some l.
Proof. induction done; simpl; auto. Qed.

(** One round on a line between variants, at depth one. *)
Lemma segment_step_lead lines e fuel idx vs pd (l : string) :
  idx <= e -> nth_error lines idx = Some l -> lead_ok l ->
  collect_variants_loop lines e (S fuel) idx vs 1 true pd
  = collect_variants_loop lines e fuel (S idx) vs 1 true (pd ++ lead_docs [l]).
Proof.
  intros Hi Hl [Hb Hm]. rewrite collect_variants_loop_unfold.
  replace (e <? idx)%nat with false by (symmetry; apply Nat.ltb_ge; lia).
  rewrite Hl. cbv zeta. simpl negb. cbv iota. rewrite Hb, Hm. simpl lead_docs.
  unfold is_doc_line, is_attr_line, doc_of_line.
  destruct (startswith (strip l) "///"); [reflexivity|].
  destruct (startswith (strip l) "#["); [reflexivity|].
  rewrite app_nil_r. destruct (_ && _); reflexivity.
Qed.

Lemma lead_docs_app (a b : list string) :
  lead_docs (a ++ b) = lead_docs a ++ lead_docs b.
Proof.
  induction a as [|l a IH]; simpl; [reflexivity|].
  destruct (is_doc_line l); [now rewrite IH|].
  destruct (is_attr_line l); now rewrite IH.
Qed.

Lemma segment_run_lead lines e (ld : list string) :
  Forall lead_ok ld ->
  forall done rest fuel vs pd,
  lines = done ++ ld ++ rest ->
  List.length done + List.length ld <= S e ->
  collect_variants_loop lines e (List.length ld + fuel) (List.length done) vs 1
    true pd
  = collect_variants_loop lines e fuel (List.length done + List.length ld) vs 1
      true (pd ++ lead_docs ld).
Proof.
  induction 1 as [|l ld Hl Hld IH]; intros done rest fuel vs pd -> Hle.
  - simpl. now rewrite Nat.add_0_r, app_nil_r.
  - change (List.length (l :: ld) + fuel) with (S (List.length ld + fuel)).
    change (List.length (l :: ld)) with (S (List.length ld)) in *.
    change ((l :: ld) ++ rest) with (l :: ld ++ rest).
    rewrite (segment_step_lead _ _ _ _ _ _ l); auto;
      [|lia|apply nth_error_middle].
    specialize (IH (done ++ [l]) rest fuel vs (pd ++ lead_docs [l])).
    rewrite length_app in IH. cbn [List.length] in IH.
    rewrite Nat.add_1_r, <- app_assoc in IH. cbn [app] in IH.
    rewrite IH; [|reflexivity|lia].
    f_equal; [lia|].
    rewrite <- app_assoc. f_equal.
    change (l :: ld) with ([l] ++ ld). now rewrite lead_docs_app.
Qed.

Lemma brace_delta_sum_body (done b rest : list string) :
  brace_delta_sum (done ++ b ++ rest) (List.length done) (List.length b)
  = brace_sum b.
Proof.
  unfold brace_delta_sum, brace_sum.
  now rewrite skipn_app_exact, firstn_app, Nat.sub_diag, firstn_all, app_nil_r.
Qed.

(** One round on the first line of a variant takes the whole variant. *)
Lemma segment_step_body lines e fuel (done b rest : list string) vs pd :
  lines = done ++ b ++ rest -> List.length done <= e -> body_ok b ->
  collect_variants_loop lines e (S fuel) (List.length done) vs 1 true pd
  = collect_variants_loop lines e fuel (List.length done + List.length b)
      (vs ++ [mkVariant (entry_name (mkEntry [] b)) (List.length done + 1) pd
                (strip (join LF b))])
      1 true [].
Proof.
  intros -> Hi (Hm & Hs & _ & Hz). rewrite collect_variants_loop_unfold.
  replace (e <? _)%nat with false by (symmetry; apply Nat.ltb_ge; lia).
  destruct b as [|l b]; [discriminate|].
  simpl app at 1. rewrite nth_error_middle.
  unfold entry_name. simpl in Hm |- *.
  destruct (match_variant_name (strip l)) as [n|] eqn:En; [|congruence].
  destruct (upper_head _ _ En) as (-> & -> & -> & ->). simpl.
  change (done ++ l :: b ++ rest) with (done ++ (l :: b) ++ rest).
  rewrite (collect_variant_definition_body done (l :: b) rest Hs).
  rewrite brace_delta_sum_body, Hz. reflexivity.
Qed.

Lemma length_concat_entry (en : entry) (entries : list entry) :
  List.length (List.concat (map entry_lines (en :: entries)))
  = List.length (lead en) + List.length (body en)
    + List.length (List.concat (map entry_lines entries)).
Proof. simpl. unfold entry_lines. rewrite !length_app. lia. Qed.

Lemma body_ok_nonempty (b : list string) : body_ok b -> 1 <= List.length b.
Proof. intros (_ & H & _). now apply first_stop_bounds in H. Qed.

(** All the variants of a run of entries, in at most one round per line. *)
Lemma segment_entries lines e (entries : list entry) :
  Forall entry_ok entries ->
  forall done rest vs,
  lines = done ++ List.concat (map entry_lines entries) ++ rest ->
  List.length done + List.length (List.concat (map entry_lines entries)) <= S e ->
  exists r,
    r <= List.length (List.concat (map entry_lines entries))
    /\ forall fuel,
       collect_variants_loop lines e (r + fuel) (List.length done) vs 1 true []
       = collect_variants_loop lines e fuel
           (List.length done
            + List.length (List.concat (map entry_lines entries)))
           (vs ++ expected_variants (List.length done) entries) 1 true [].
Proof.
  induction 1 as [|en entries [Hlead Hbody] _ IH]; intros done rest vs Hl Hle.
  - exists 0. split; [simpl; lia|]. intros fuel. simpl.
    now rewrite Nat.add_0_r, app_nil_r.
  - rewrite length_concat_entry in Hle |- *.
    pose proof (body_ok_nonempty _ Hbody) as Hb1.
    assert (Hl' : lines = (done ++ lead en ++ body en)
                          ++ List.concat (map entry_lines entries) ++ rest).
    { rewrite Hl. simpl. unfold entry_lines. now rewrite <- !app_assoc. }
    destruct (IH (done ++ lead en ++ body en) rest
                (vs ++ [mkVariant (entry_name (mkEntry [] (body en)))
                          (List.length (done ++ lead en) + 1)
                          ([] ++ lead_docs (lead en))
                          (strip (join LF (body en)))])
                Hl') as (r & Hr & Hrun).
    { rewrite !length_app. lia. }
    exists (List.length (lead en) + S r). split; [lia|]. intros fuel.
    rewrite <- Nat.add_assoc.
    rewrite (segment_run_lead lines e (lead en) Hlead done
               (body en ++ List.concat (map entry_lines entries) ++ rest)).
    2:{ rewrite Hl. simpl. unfold entry_lines. now rewrite <- !app_assoc. }
    2:{ lia. }
    change (S r + fuel) with (S (r + fuel)).
    rewrite <- (length_app done (lead en)).
    rewrite (segment_step_body lines e (r + fuel) (done ++ lead en) (body en)
               (List.concat (map entry_lines entries) ++ rest)); auto.
    2:{ rewrite Hl. simpl. unfold entry_lines. now rewrite <- !app_assoc. }
    2:{ rewrite length_app. lia. }
    rewrite <- (length_app (done ++ lead en) (body en)), <- app_assoc.
    rewrite Hrun. rewrite !length_app. simpl expected_variants.
    unfold entry_lines at 3. rewrite length_app.
    f_equal; [lia|].
    rewrite <- app_assoc. simpl. unfold entry_name. simpl.
    repeat f_equal; lia.
Qed.

Lemma segment_step_header lines e fuel idx vs pd (header : string) :
  idx <= e -> nth_error lines idx = Some header -> has_char "{" header = true ->
  collect_variants_loop lines e (S fuel) idx vs 0 false pd
  = collect_variants_loop lines e fuel (S idx) vs (brace_delta header) true pd.
Proof.
  intros Hi Hl Hh. rewrite collect_variants_loop_unfold.
  replace (e <? idx)%nat with false by (symmetry; apply Nat.ltb_ge; lia).
  rewrite Hl. cbv zeta. simpl negb. cbv iota. now rewrite Hh.
Qed.

Lemma segment_past_end lines e fuel idx vs d inside pd :
  e < idx ->
  collect_variants_loop lines e fuel idx vs d inside pd = Done vs.
Proof.
  intros H. rewrite collect_variants_loop_unfold.
  now replace (e <? idx)%nat with true by (symmetry; apply Nat.ltb_lt; lia).
Qed.

(** The closing line adds no variant, whatever the state. *)
Lemma segment_step_last lines e fuel vs d pd (closing : string) :
  nth_error lines e = Some closing ->
  match_variant_name (strip closing) = None ->
  collect_variants_loop lines e (S fuel) e vs d true pd = Done vs.
Proof.
  intros Hl Hm. rewrite collect_variants_loop_unfold.
  rewrite Nat.ltb_irrefl, Hl. cbv zeta. simpl negb. cbv iota. rewrite Hm.
  destruct (startswith _ "///"); [apply segment_past_end; lia|].
  destruct (startswith _ "#["); [apply segment_past_end; lia|].
  destruct (_ && _); apply segment_past_end; lia.
Qed.

(** *** The block extractor on a block in the layout *)

Lemma brace_sum_app (a b : list string) :
  brace_sum (a ++ b) = (brace_sum a + brace_sum b)%Z.
Proof.
  unfold brace_sum. induction a as [|l a IH]; simpl; [reflexivity|].
  rewrite IH. lia.
Qed.

Lemma stays_open_app (d : Z) (a b : list string) :
  stays_open d a = true -> stays_open (d + brace_sum a) b = true ->
  stays_open d (a ++ b) = true.
Proof.
  revert d. induction a as [|l a IH]; intros d Ha Hb; simpl in *.
  - now rewrite Z.add_0_r in Hb.
  - apply andb_true_iff in Ha as [H1 H2]. rewrite H1. simpl.
    apply IH; [assumption|].
    unfold brace_sum in Hb |- *. simpl in Hb.
    now rewrite Z.add_assoc in Hb.
Qed.

Lemma lead_balanced (ld : list string) :
  Forall lead_ok ld -> stays_open 1 ld = true /\ brace_sum ld = 0%Z.
Proof.
  induction 1 as [|l ld [Hb _] _ [IH1 IH2]]; simpl; [auto|].
  unfold brace_sum in *. simpl. rewrite Hb, IH1, IH2. auto.
Qed.

Lemma entries_balanced (entries : list entry) :
  Forall entry_ok entries ->
  stays_open 1 (List.concat (map entry_lines entries)) = true
  /\ brace_sum (List.concat (map entry_lines entries)) = 0%Z.
Proof.
  induction 1 as [|en entries [Hl (_ & _ & Ho & Hz)] _ [IH1 IH2]]; simpl;
    [auto|].
  destruct (lead_balanced _ Hl) as [L1 L2].
  unfold entry_lines at 1 3. rewrite !brace_sum_app, L2, Hz, IH2.
  split; [|reflexivity].
  rewrite <- app_assoc.
  apply stays_open_app; [assumption|]. rewrite L2.
  apply stays_open_app; [assumption|]. now rewrite Hz.
Qed.

Lemma nth_middle_default (done rest : list string) (l : string) :
  nth (List.length done) (done ++ l :: rest) "" = l.
Proof. apply nth_middle. Qed.

Lemma block_step_header (done rest : list string) (header : string) n buffer e0 :
  has_char "{" header = true -> brace_delta header = 1%Z ->
  collect_block_loop (done ++ header :: rest) (S n) (List.length done) buffer
    0 false e0
  = collect_block_loop (done ++ header :: rest) n (S (List.length done))
      (buffer ++ [header]) 1 true e0.
Proof.
  intros Hh Hd. cbn [collect_block_loop]. rewrite nth_middle_default.
  cbn [negb]. rewrite Hh, Hd. reflexivity.
Qed.

Lemma block_step_open (done rest : list string) (l : string) d n buffer e0 :
  (0 < d + brace_delta l)%Z ->
  collect_block_loop (done ++ l :: rest) (S n) (List.length done) buffer
    d true e0
  = collect_block_loop (done ++ l :: rest) n (S (List.length done))
      (buffer ++ [l]) (d + brace_delta l) true e0.
Proof.
  intros H. cbn [collect_block_loop]. rewrite nth_middle_default.
  cbn [negb andb].
  now replace (d + brace_delta l <=? 0)%Z with false
    by (symmetry; apply Z.leb_gt; assumption).
Qed.

Lemma block_step_close (done rest : list string) (l : string) d n buffer e0 :
  (d + brace_delta l <= 0)%Z ->
  collect_block_loop (done ++ l :: rest) (S n) (List.length done) buffer
    d true e0
  = (buffer ++ [l], List.length done).
Proof.
  intros H. cbn [collect_block_loop]. rewrite nth_middle_default.
  cbn [negb andb].
  now replace (d + brace_delta l <=? 0)%Z with true
    by (symmetry; apply Z.leb_le; assumption).
Qed.

Lemma block_loop_open (mid : list string) :
  forall d done rest n buffer e0,
  stays_open d mid = true ->
  collect_block_loop (done ++ mid ++ rest) (List.length mid + n)
    (List.length done) buffer d true e0
  = collect_block_loop (done ++ mid ++ rest) n
      (List.length done + List.length mid) (buffer ++ mid)
      (d + brace_sum mid) true e0.
Proof.
  induction mid as [|l mid IH]; intros d done rest n buffer e0 Ho.
  - cbn [app List.length Nat.add]. unfold brace_sum. cbn [map fold_right].
    now rewrite Nat.add_0_r, app_nil_r, Z.add_0_r.
  - cbn [stays_open] in Ho. apply andb_true_iff in Ho as [H1 H2].
    apply Z.ltb_lt in H1.
    change (List.length (l :: mid) + n) with (S (List.length mid + n)).
    change ((l :: mid) ++ rest) with (l :: mid ++ rest).
    rewrite block_step_open by assumption.
    specialize (IH (d + brace_delta l)%Z (done ++ [l]) rest n (buffer ++ [l]) e0 H2).
    rewrite length_app, <- !app_assoc in IH. cbn [List.length app] in IH.
    rewrite Nat.add_1_r in IH.
    rewrite IH. unfold brace_sum. cbn [map fold_right List.length].
    f_equal; lia.
Qed.

(** On a block whose braces stay open until the closing line, the block
    extractor returns the block's text and the index of the closing line. *)
Lemma collect_block_layout (pre mid post : list string) (header closing : string) :
  has_char "{" header = true -> brace_delta header = 1%Z ->
  stays_open 1 mid = true -> (1 + brace_sum mid + brace_delta closing <= 0)%Z ->
  collect_block (pre ++ header :: mid ++ closing :: post) (List.length pre)
  = (strip (join LF (header :: mid ++ [closing])),
     List.length pre + 1 + List.length mid).
Proof.
  intros Hh Hd Ho Hc. unfold collect_block.
  rewrite length_app. cbn [List.length]. rewrite length_app. cbn [List.length].
  replace (List.length pre + S (List.length mid + S (List.length post))
           - List.length pre)
    with (S (List.length mid + S (List.length post))) by lia.
  rewrite block_step_header by assumption.
  pose proof (block_loop_open mid 1 (pre ++ [header]) (closing :: post)
                (S (List.length post)) ([] ++ [header]) (List.length pre) Ho) as H.
  rewrite length_app, <- !app_assoc in H. cbn [List.length app] in H.
  rewrite Nat.add_1_r in H. cbn [app]. rewrite H. clear H.
  replace (pre ++ header :: mid ++ closing :: post)
    with ((pre ++ header :: mid) ++ closing :: post)
    by (rewrite <- app_assoc; reflexivity).
  replace (S (List.length pre) + List.length mid)
    with (List.length (pre ++ header :: mid))
    by (rewrite length_app; cbn [List.length]; lia).
  rewrite block_step_close by assumption.
  rewrite length_app. cbn [List.length app].
  f_equal. lia.
Qed.

Lemma first_stop_past_open (lb lp : Z) (a b : list string) :
  first_stop lb lp a = None ->
  match first_stop lb lp (a ++ b) with
  | Some k => List.length a < k
  | None => True
  end.
Proof.
  revert lb lp. induction a as [|l a IH]; intros lb lp; simpl.
  - intros _. destruct (first_stop lb lp b) eqn:E; [|exact I].
    apply first_stop_bounds in E. lia.
  - destruct (_ && _); [discriminate|].
    destruct (first_stop _ _ a) eqn:E; simpl; [discriminate|]. intros _.
    specialize (IH _ _ E).
    destruct (first_stop _ _ (a ++ b)); simpl; [lia|exact I].
Qed.

Lemma taken_past_open (a b : list string) :
  first_stop 0 0 a = None -> List.length a <= taken (a ++ b).
Proof.
  intros H. unfold taken. pose proof (first_stop_past_open 0 0 a b H) as P.
  destruct (first_stop 0 0 (a ++ b)); [lia|]. rewrite length_app. lia.
Qed.

(** A variant with no comma-ended line up to the closing line is still
    recorded; its definition runs on, and segmentation ends with it. *)
Lemma segment_step_open_body lines e fuel (done b after post : list string)
    vs pd :
  lines = done ++ (b ++ after) ++ post ->
  List.length done <= e -> e < List.length done + List.length (b ++ after) ->
  open_body_ok b after ->
  collect_variants_loop lines e (S fuel) (List.length done) vs 1 true pd
  = Done (vs ++ [mkVariant (entry_name (mkEntry [] b)) (List.length done + 1) pd
                   (fst (collect_variant_definition lines (List.length done)))]).
Proof.
  intros Hl Hi He (Hm & Hne & Hs). rewrite collect_variants_loop_unfold.
  replace (e <? _)%nat with false by (symmetry; apply Nat.ltb_ge; lia).
  destruct b as [|l b]; [congruence|].
  assert (Hn : nth_error lines (List.length done) = Some l).
  { rewrite Hl. cbn [app]. apply nth_error_middle. }
  rewrite Hn. unfold entry_name. cbn [hd body] in Hm |- *.
  destruct (match_variant_name (strip l)) as [n|] eqn:En; [|congruence].
  destruct (upper_head _ _ En) as (-> & -> & -> & ->).
  cbv zeta. cbn [negb andb Z.eqb Pos.eqb]. cbv iota.
  rewrite collect_variant_definition_spec. cbn [fst].
  apply segment_past_end.
  pose proof (taken_past_open ((l :: b) ++ after) post Hs) as Ht.
  rewrite Hl, skipn_app_exact. lia.
Qed.

Lemma layout_lines_middle header entries final trailer closing :
  layout_lines header entries final trailer closing
  = header :: layout_middle entries final trailer ++ [closing].
Proof.
  unfold layout_lines, layout_middle. now rewrite <- !app_assoc.
Qed.

Lemma layout_middle_balanced header entries final trailer closing :
  layout_ok header entries final trailer closing ->
  stays_open 1 (layout_middle entries final trailer) = true
  /\ (1 + brace_sum (layout_middle entries final trailer)
      + brace_delta closing <= 0)%Z.
Proof.
  intros (_ & _ & He & Hf). unfold layout_middle.
  destruct (entries_balanced _ He) as [E1 E2].
  destruct final as [en|].
  - destruct Hf as (Hl & _ & Ho & Hc).
    destruct (lead_balanced _ Hl) as [L1 L2].
    unfold entry_lines at 2 4. rewrite <- !app_assoc.
    rewrite brace_sum_app in Hc.
    rewrite !brace_sum_app, E2, L2. split; [|lia].
    apply stays_open_app; [assumption|]. rewrite E2.
    apply stays_open_app; [assumption|]. now rewrite L2.
  - destruct Hf as (Ht & _ & Hc).
    destruct (lead_balanced _ Ht) as [T1 T2].
    cbn [app]. rewrite brace_sum_app, E2, T2. split; [|lia].
    apply stays_open_app; [assumption|]. now rewrite E2.
Qed.

(** The block extractor ends a block in the layout at its closing line. *)
Lemma collect_block_of_layout pre header entries final trailer closing post :
  layout_ok header entries final trailer closing ->
  collect_block (pre ++ layout_lines header entries final trailer closing ++ post)
    (List.length pre)
  = (strip (join LF (layout_lines header entries final trailer closing)),
     List.length pre + 1
     + List.length (layout_middle entries final trailer)).
Proof.
  intros H. destruct (layout_middle_balanced _ _ _ _ _ H) as [Ho Hc].
  destruct H as (Hh & Hd & _).
  rewrite layout_lines_middle. cbn [app]. rewrite <- app_assoc. cbn [app].
  now apply collect_block_layout.
Qed.

(** Both sides are the same lines, grouped differently. *)
Ltac same_lines :=
  repeat (progress (cbn [app]; rewrite <- ?app_assoc)); reflexivity.

Lemma collect_variants_of_layout pre header entries final trailer closing post :
  layout_ok header entries final trailer closing ->
  forall lines,
  lines = pre ++ layout_lines header entries final trailer closing ++ post ->
  collect_variants lines (List.length pre)
    (List.length pre + 1 + List.length (layout_middle entries final trailer))
  = Done (layout_expected (List.length pre + 1) lines entries final).
Proof.
  intros (Hh & Hd & He & Hf) lines Hl.
  set (cc := List.concat (map entry_lines entries)) in *.
  set (e := List.length pre + 1 + List.length (layout_middle entries final trailer)).
  unfold collect_variants.
  replace (S e - List.length pre)
    with (S (S (List.length (layout_middle entries final trailer))))
    by (unfold e; lia).
  rewrite (segment_step_header lines e _ _ _ _ header); auto;
    [|unfold e; lia|rewrite Hl; unfold layout_lines; apply nth_error_middle].
  rewrite Hd.
  destruct (segment_entries lines e entries He (pre ++ [header])
              (match final with Some en => entry_lines en | None => [] end
               ++ trailer ++ [closing] ++ post) [])
    as (r & Hr & Hrun).
  { rewrite Hl. unfold layout_lines. same_lines. }
  { fold cc. rewrite length_app. cbn [List.length]. unfold e, layout_middle.
    fold cc. rewrite !length_app. lia. }
  fold cc in Hr, Hrun. rewrite length_app in Hrun. cbn [List.length] in Hrun.
  rewrite Nat.add_1_r in Hrun.
  assert (Hmid : List.length (layout_middle entries final trailer)
                 = List.length cc
                   + List.length (match final with
                                  | Some en => entry_lines en
                                  | None => []
                                  end)
                   + List.length trailer).
  { unfold layout_middle. fold cc. rewrite !length_app. lia. }
  unfold layout_expected. fold cc.
  replace (List.length pre + 1) with (S (List.length pre)) by lia.
  destruct final as [en|].
  - destruct Hf as (Hlead & Hopen & _ & _).
    unfold entry_lines in Hmid. rewrite length_app in Hmid.
    assert (Hb1 : 1 <= List.length (body en)).
    { destruct Hopen as (_ & Hne & _). destruct (body en); [congruence|simpl; lia]. }
    replace (S (List.length (layout_middle entries (Some en) trailer)))
      with (r + (List.length (lead en)
                 + S (List.length cc - r + List.length (body en)
                      + List.length trailer))) by lia.
    rewrite Hrun. cbn [app].
    replace (S (List.length pre) + List.length cc)
      with (List.length (pre ++ [header] ++ cc))
      by (rewrite !length_app; cbn [List.length]; lia).
    rewrite (segment_run_lead lines e (lead en) Hlead (pre ++ [header] ++ cc)
               (body en ++ trailer ++ [closing] ++ post)).
    2:{ rewrite Hl. unfold layout_lines, entry_lines. fold cc. same_lines. }
    2:{ rewrite !length_app. cbn [List.length]. unfold e. lia. }
    rewrite <- length_app.
    rewrite (segment_step_open_body lines e _
               ((pre ++ [header] ++ cc) ++ lead en) (body en)
               (trailer ++ [closing]) post); auto.
    + rewrite Hl. unfold layout_lines, entry_lines. fold cc. same_lines.
    + rewrite !length_app. cbn [List.length]. unfold e. lia.
    + rewrite !length_app. cbn [List.length]. unfold e. lia.
  - destruct Hf as (Htr & Hm & _). cbn [List.length] in Hmid.
    replace (S (List.length (layout_middle entries None trailer)))
      with (r + (List.length trailer + S (List.length cc - r))) by lia.
    rewrite Hrun. cbn [app]. rewrite app_nil_r.
    replace (S (List.length pre) + List.length cc)
      with (List.length (pre ++ [header] ++ cc))
      by (rewrite !length_app; cbn [List.length]; lia).
    rewrite (segment_run_lead lines e trailer Htr (pre ++ [header] ++ cc)
               ([closing] ++ post)).
    2:{ rewrite Hl. unfold layout_lines. fold cc. same_lines. }
    2:{ rewrite !length_app. cbn [List.length]. unfold e. lia. }
    replace (List.length (pre ++ [header] ++ cc) + List.length trailer) with e
      by (rewrite !length_app; cbn [List.length]; unfold e; lia).
    apply (segment_step_last lines e _ _ _ _ closing); [|assumption].
    assert (Hl' : lines = (pre ++ header :: cc ++ trailer) ++ closing :: post).
    { rewrite Hl. unfold layout_lines. fold cc. same_lines. }
    rewrite Hl'.
    replace e with (List.length (pre ++ header :: cc ++ trailer))
      by (rewrite !length_app; cbn [List.length]; rewrite length_app;
          unfold e; lia).
    apply nth_error_middle.
Qed.

(** *** The order of paths, and [sorted] *)

Lemma ascii_compare_refl (a : ascii) : Ascii.compare a a = Eq.
Proof. unfold Ascii.compare. apply N.compare_refl. Qed.

Lemma ascii_compare_lt_trans (a b c : ascii) :
  Ascii.compare a b = Lt -> Ascii.compare b c = Lt -> Ascii.compare a c = Lt.
Proof.
  unfold Ascii.compare. rewrite !N.compare_lt_iff. apply N.lt_trans.
Qed.

Lemma string_compare_refl (s : string) : String.compare s s = Eq.
Proof.
  induction s as [|a s IH]; simpl; [reflexivity|].
  now rewrite ascii_compare_refl.
Qed.

Lemma string_compare_lt_trans (s t u : string) :
  String.compare s t = Lt -> String.compare t u = Lt -> String.compare s u = Lt.
Proof.
  revert t u. induction s as [|a s IH]; intros [|b t] [|c u]; simpl;
    try congruence.
  destruct (Ascii.compare a b) eqn:Hab; try discriminate;
    destruct (Ascii.compare b c) eqn:Hbc; try discriminate; intros H1 H2.
  - apply Ascii.compare_eq_iff in Hab, Hbc. subst.
    rewrite ascii_compare_refl. eauto.
  - apply Ascii.compare_eq_iff in Hab. subst. now rewrite Hbc.
  - apply Ascii.compare_eq_iff in Hbc. subst. now rewrite Hab.
  - now rewrite (ascii_compare_lt_trans _ _ _ Hab Hbc).
Qed.

Lemma path_compare_refl (p : Path) : path_compare p p = Eq.
Proof.
  induction p as [|a p IH]; simpl; [reflexivity|].
  now rewrite string_compare_refl.
Qed.

Lemma path_compare_eq (p q : Path) : path_compare p q = Eq -> p = q.
Proof.
  revert q. induction p as [|a p IH]; intros [|b q]; simpl; try congruence.
  destruct (String.compare a b) eqn:E; try discriminate.
  apply String.compare_eq_iff in E. intros H. f_equal; auto.
Qed.

Lemma path_compare_antisym (p q : Path) :
  path_compare q p = CompOpp (path_compare p q).
Proof.
  revert q. induction p as [|a p IH]; intros [|b q]; simpl; try reflexivity.
  rewrite (String.compare_antisym a b).
  destruct (String.compare b a); simpl; auto.
Qed.

Lemma path_compare_lt_trans (p q r : Path) :
  path_compare p q = Lt -> path_compare q r = Lt -> path_compare p r = Lt.
Proof.
  revert q r. induction p as [|a p IH]; intros [|b q] [|c r]; simpl;
    try congruence.
  destruct (String.compare a b) eqn:Hab; try discriminate;
    destruct (String.compare b c) eqn:Hbc; try discriminate; intros H1 H2.
  - apply String.compare_eq_iff in Hab, Hbc. subst.
    rewrite string_compare_refl. eauto.
  - apply String.compare_eq_iff in Hab. subst. now rewrite Hbc.
  - apply String.compare_eq_iff in Hbc. subst. now rewrite Hab.
  - now rewrite (string_compare_lt_trans _ _ _ Hab Hbc).
Qed.

Lemma path_le_trans (p q r : Path) : path_le p q -> path_le q r -> path_le p r.
Proof.
  unfold path_le. intros Hpq Hqr Hrp.
  destruct (path_compare q p) eqn:E1; [| congruence |].
  - apply path_compare_eq in E1. subst. contradiction.
  - destruct (path_compare r q) eqn:E2; [| congruence |].
    + apply path_compare_eq in E2. subst. congruence.
    + rewrite path_compare_antisym in E1, E2.
      destruct (path_compare p q) eqn:F1; try discriminate.
      destruct (path_compare q r) eqn:F2; try discriminate.
      pose proof (path_compare_lt_trans _ _ _ F1 F2) as F.
      rewrite path_compare_antisym, F in Hrp. discriminate.
Qed.

Lemma path_le_antisym (p q : Path) : path_le p q -> path_le q p -> p = q.
Proof.
  unfold path_le. intros H1 H2. apply path_compare_eq.
  rewrite path_compare_antisym in H1. revert H1 H2.
  destruct (path_compare p q); simpl; intros H1 H2;
    [reflexivity|now elim H2|now elim H1].
Qed.

Lemma path_ltb_le (p q : Path) : path_ltb p q = true -> path_le p q.
Proof.
  unfold path_ltb, path_le. rewrite (path_compare_antisym p q).
  destruct (path_compare p q); simpl; congruence.
Qed.

Lemma path_ltb_ge (p q : Path) : path_ltb p q = false -> path_le q p.
Proof.
  unfold path_ltb, path_le. destruct (path_compare p q); congruence.
Qed.

Lemma insert_sorted_perm (x : Path) (l : list Path) :
  Permutation (x :: l) (insert_sorted x l).
Proof.
  induction l as [|y l IH]; simpl; [reflexivity|].
  destruct (path_ltb x y); [reflexivity|].
  rewrite perm_swap. now constructor.
Qed.

Lemma insert_sorted_sorted (x : Path) (l : list Path) :
  StronglySorted path_le l -> StronglySorted path_le (insert_sorted x l).
Proof.
  induction 1 as [|y l Hs IH Hy]; simpl.
  - repeat constructor.
  - destruct (path_ltb x y) eqn:E.
    + apply path_ltb_le in E. constructor; [now constructor|].
      constructor; [assumption|].
      eapply Forall_impl; [|exact Hy]. intros z. now apply path_le_trans.
    + apply path_ltb_ge in E. constructor; [assumption|].
      apply (Permutation_Forall (insert_sorted_perm x l)).
      now constructor.
Qed.

Lemma sorted_from (l acc : list Path) :
  StronglySorted path_le acc ->
  StronglySorted path_le (fold_left (fun a x => insert_sorted x a) l acc)
  /\ Permutation (acc ++ l) (fold_left (fun a x => insert_sorted x a) l acc).
Proof.
  revert acc. induction l as [|x l IH]; intros acc Ha; simpl.
  - now rewrite app_nil_r.
  - destruct (IH (insert_sorted x acc) (insert_sorted_sorted x acc Ha))
      as [S P].
    split; [assumption|].
    rewrite <- P. rewrite <- Permutation_middle.
    now rewrite <- (insert_sorted_perm x acc).
Qed.

Lemma sorted_sorted (l : list Path) : StronglySorted path_le (sorted l).
Proof. apply sorted_from. constructor. Qed.

Lemma sorted_perm (l : list Path) : Permutation l (sorted l).
Proof. apply (sorted_from l []). constructor. Qed.

(** Two sorted listings of the same paths are the same list. *)
Lemma sorted_unique (l1 l2 : list Path) :
  StronglySorted path_le l1 -> StronglySorted path_le l2 ->
  Permutation l1 l2 -> l1 = l2.
Proof.
  intros S1. revert l2. induction S1 as [|x l1 S1 IH H1]; intros l2 S2 P.
  - apply Permutation_nil in P. now subst.
  - destruct S2 as [|y l2 S2 H2].
    + symmetry in P. apply Permutation_nil in P. discriminate.
    + assert (x = y).
      { apply path_le_antisym.
        - assert (In y (x :: l1)) as [->|Hin]
            by (apply (Permutation_in _ (Permutation_sym P)); now left).
          + unfold path_le. now rewrite path_compare_refl.
          + rewrite Forall_forall in H1. auto.
        - assert (In x (y :: l2)) as [->|Hin]
            by (apply (Permutation_in _ P); now left).
          + unfold path_le. now rewrite path_compare_refl.
          + rewrite Forall_forall in H2. auto. }
      subst y. f_equal. apply IH; [assumption|].
      now apply Permutation_cons_inv in P.
Qed.

(** However the file system lists the files, [sorted] puts them in one
    order. *)
Lemma sorted_of_permutation (l1 l2 : list Path) :
  Permutation l1 l2 -> sorted l1 = sorted l2.
Proof.
  intros P. apply sorted_unique; try apply sorted_sorted.
  rewrite <- (sorted_perm l1), <- (sorted_perm l2). exact P.
Qed.

(** *** The claims on the inventory script *)

(** [C1] The last variant of [OrderEvent] has no trailing comma.  The block
    extractor ends the block at line index 3, yet the definition of
    [Cancelled] takes five lines from index 2: it runs through the closing
    line and into the next enum, up to the first line that ends with a
    comma. *)
Theorem last_variant_without_comma_runs_past_block :
  snd (collect_block source_without_last_comma 0) = 3
  /\ collect_variant_definition source_without_last_comma 2
     = (join LF ["Cancelled { reason: String }"; "}"; "";
                 "pub enum OrderStatus {"; "    Open,"], 5)
  /\ collect_variants source_without_last_comma 0 3
     = Done [mkVariant "Created" 2 [] "Created(OrderId),";
             mkVariant "Cancelled" 3 []
               (join LF ["Cancelled { reason: String }"; "}"; "";
                         "pub enum OrderStatus {"; "    Open,"])].
Proof. repeat split; vm_compute; reflexivity. Qed.


Lemma expected_variants_length (idx : nat) (entries : list entry) :
  List.length (expected_variants idx entries) = List.length entries.
Proof.
  revert idx. induction entries as [|en entries IH]; intros idx; simpl; auto.
Qed.

Lemma expected_variants_names (idx : nat) (entries : list entry) :
  map variant_name (expected_variants idx entries) = map entry_name entries.
Proof.
  revert idx. induction entries as [|en entries IH]; intros idx; simpl;
    [reflexivity|]. now rewrite IH.
Qed.

Lemma layout_expected_length start lines entries final :
  List.length (layout_expected start lines entries final)
  = List.length (layout_variants entries final).
Proof.
  unfold layout_expected, layout_variants.
  rewrite !length_app, expected_variants_length. now destruct final.
Qed.

Lemma layout_expected_names start lines entries final :
  map variant_name (layout_expected start lines entries final)
  = map entry_name (layout_variants entries final).
Proof.
  unfold layout_expected, layout_variants.
  rewrite !map_app, expected_variants_names. now destruct final.
Qed.

(** Segmentation of the block the block extractor found, for a block in the
    layout. *)
Lemma segmentation_of_layout pre header entries final trailer closing post :
  layout_ok header entries final trailer closing ->
  forall lines,
  lines = pre ++ layout_lines header entries final trailer closing ++ post ->
  collect_variants lines (List.length pre)
    (snd (collect_block lines (List.length pre)))
  = Done (layout_expected (List.length pre + 1) lines entries final).
Proof.
  intros H lines ->. rewrite (collect_block_of_layout _ _ _ _ _ _ _ H).
  now apply (collect_variants_of_layout pre header entries final trailer closing
               post H).
Qed.

(** [C2], amended.  For an enum block in the line-per-variant layout (the
    opening brace on the header line, every variant starting on a line of its
    own with an upper-case identifier, every variant but possibly the last
    ending on its first line that ends with a comma with braces and
    parentheses balanced, the closing brace on a line of its own),
    segmentation of the extracted block returns exactly one record per
    variant, in source order and with the variants' names, whatever braces
    and parentheses the payloads nest; the records of the comma-ended
    variants carry their start line, pending docs and definition text. *)
Theorem segmentation_returns_each_variant_of_layout
    (pre post : list string) (header closing : string)
    (entries : list entry) (final : option entry) (trailer : list string)
    (Hlayout : layout_ok header entries final trailer closing) :
  let lines := pre ++ layout_lines header entries final trailer closing ++ post in
  exists vs,
    collect_variants lines (List.length pre)
      (snd (collect_block lines (List.length pre))) = Done vs
    /\ List.length vs = List.length (layout_variants entries final)
    /\ map variant_name vs = map entry_name (layout_variants entries final)
    /\ firstn (List.length entries) vs
       = expected_variants (List.length pre + 1) entries.
Proof.
  intros lines. exists (layout_expected (List.length pre + 1) lines entries final).
  split; [now apply (segmentation_of_layout pre header entries final trailer
                       closing post Hlayout)|].
  split; [apply layout_expected_length|].
  split; [apply layout_expected_names|].
  unfold layout_expected.
  rewrite <- (expected_variants_length (List.length pre + 1) entries) at 1.
  now rewrite firstn_app, Nat.sub_diag, firstn_all, firstn_O, app_nil_r.
Qed.

Lemma sample_layout_ok :
  layout_ok "pub enum OrderEvent {" sample_entries sample_final [] "}".
Proof.
  unfold layout_ok, sample_entries, sample_final, entry_ok, body_ok, lead_ok,
    open_body_ok.
  cbn [lead body].
  repeat match goal with
         | |- _ /\ _ => split
         | |- Forall _ _ => constructor
         end; try (vm_compute; reflexivity); try discriminate;
    try (vm_compute; discriminate).
Qed.

Lemma segmentation_returns_each_variant_of_layout_witness :
  exists vs,
    collect_variants
      (["/// Order events"]
       ++ layout_lines "pub enum OrderEvent {" sample_entries sample_final [] "}"
       ++ [""; "pub struct Order;"])
      1
      (snd (collect_block
              (["/// Order events"]
               ++ layout_lines "pub enum OrderEvent {" sample_entries
                    sample_final [] "}"
               ++ [""; "pub struct Order;"]) 1)) = Done vs
    /\ List.length vs = 3
    /\ map variant_name vs = ["Created"; "Cancelled"; "Closed"]
    /\ firstn 2 vs
       = [mkVariant "Created" 4 ["made"] "Created(OrderId),";
          mkVariant "Cancelled" 7 []
            (join LF ["Cancelled {"; "        reason: Vec<(u8, u8)>,"; "    },"])].
Proof.
  exact (segmentation_returns_each_variant_of_layout ["/// Order events"]
           [""; "pub struct Order;"] "pub enum OrderEvent {" "}"
           sample_entries sample_final [] sample_layout_ok).
Defined.

(** [C2], as stated, fails.  With a comment after the comma of [Created] its
    definition runs on to the next comma-ended line and takes [Cancelled]
    with it; an enum written on one line yields no variant at all. *)
Lemma segmentation_misses_variants_counterexample :
  (snd (collect_block source_with_trailing_comment 0) = 3
   /\ collect_variants source_with_trailing_comment 0 3
      = Done [mkVariant "Created" 2 []
                (join LF ["Created(OrderId), // first";
                          "    Cancelled { reason: String },"])]
   /\ ~ exists vs,
         collect_variants source_with_trailing_comment 0
           (snd (collect_block source_with_trailing_comment 0)) = Done vs
         /\ map variant_name vs = ["Created"; "Cancelled"])
  /\ (snd (collect_block source_on_one_line 0) = 0
      /\ collect_variants source_on_one_line 0 0 = Done []).
Proof.
  repeat split; try (vm_compute; reflexivity).
  intros (vs & H & Hn). vm_compute in H. injection H as <-. discriminate.
Qed.


(** [C3], amended.  The captured definition of an item is the run of source
    lines from its declaration line, joined by line feeds, with the white
    space at the two ends of the whole run removed: the run ends at the
    line that closes the block, or at the end of the file when no line
    does.  Segmentation of the extracted block returns, and the captured
    definition of each variant is the same for the lines its definition pass
    consumed from its start line.  Lines inside a run keep their
    indentation. *)
Theorem definition_is_the_stripped_span (lines : list string)
    (start_index : nat) (Hstart : start_index < List.length lines) :
  (exists k,
     k <= List.length lines - start_index
     /\ fst (collect_block lines start_index)
        = strip (join LF (span lines start_index k))
     /\ ((1 <= k /\ snd (collect_block lines start_index) = start_index + k - 1)
         \/ (k = List.length lines - start_index
             /\ snd (collect_block lines start_index) = start_index)))
  /\ exists vs,
       collect_variants lines start_index
         (snd (collect_block lines start_index)) = Done vs
       /\ Forall (fun v =>
                    1 <= variant_start_line v <= List.length lines
                    /\ variant_definition v
                       = strip (join LF
                           (span lines (variant_start_line v - 1)
                              (snd (collect_variant_definition lines
                                      (variant_start_line v - 1)))))) vs.
Proof.
  split; [apply collect_block_spec|].
  destruct (collect_variants_total lines start_index
              (snd (collect_block lines start_index)))
    as (vs & Hvs & H).
  { now apply collect_block_end_in_range. }
  exists vs. split; [exact Hvs|].
  eapply Forall_impl; [|exact H]. intros v [Hr Hd]. split; [assumption|].
  now rewrite collect_variant_definition_spec.
Qed.

Lemma definition_is_the_stripped_span_witness :
  (exists k,
     k <= List.length source_with_struct_variant - 0
     /\ fst (collect_block source_with_struct_variant 0)
        = strip (join LF (span source_with_struct_variant 0 k))
     /\ ((1 <= k /\ snd (collect_block source_with_struct_variant 0) = 0 + k - 1)
         \/ (k = List.length source_with_struct_variant - 0
             /\ snd (collect_block source_with_struct_variant 0) = 0)))
  /\ exists vs,
       collect_variants source_with_struct_variant 0
         (snd (collect_block source_with_struct_variant 0)) = Done vs
       /\ Forall (fun v =>
                    1 <= variant_start_line v
                    <= List.length source_with_struct_variant
                    /\ variant_definition v
                       = strip (join LF
                           (span source_with_struct_variant
                              (variant_start_line v - 1)
                              (snd (collect_variant_definition
                                      source_with_struct_variant
                                      (variant_start_line v - 1)))))) vs.
Proof.
  apply (definition_is_the_stripped_span source_with_struct_variant 0).
  vm_compute. lia.
Defined.

(** [C3], as stated, fails.  The definition of [Cancelled] keeps the
    indentation of its second and third line, and the definition of the enum
    keeps that of every line after the first: only the two ends of the whole
    span are stripped. *)
Lemma definition_not_normalized_per_line_counterexample :
  collect_variants source_with_struct_variant 0 4
  = Done [mkVariant "Cancelled" 2 []
            (join LF ["Cancelled {"; "        reason: String,"; "    },"])]
  /\ join LF ["Cancelled {"; "        reason: String,"; "    },"]
     <> normalized_per_line (span source_with_struct_variant 1 3)
  /\ fst (collect_block source_with_struct_variant 0)
     = join LF ["pub enum OrderEvent {"; "    Cancelled {";
                "        reason: String,"; "    },"; "}"]
  /\ fst (collect_block source_with_struct_variant 0)
     <> normalized_per_line (span source_with_struct_variant 0 5).
Proof.
  repeat split; try (vm_compute; reflexivity); vm_compute; discriminate.
Qed.


Lemma lead_docs_of_docs (dl : list string) :
  Forall (fun l => is_doc_line l = true) dl -> lead_docs dl = map doc_of_line dl.
Proof.
  induction 1 as [|l dl Hl _ IH]; simpl; [reflexivity|]. now rewrite Hl, IH.
Qed.

(** *** The pending doc buffer of the segmentation loop *)

Lemma docs_since_snoc (lines : list string) (vs : list Variant) (v : Variant) :
  forall from,
  docs_since lines from vs ->
  since_end lines from vs <= variant_start_line v - 1 ->
  variant_doc v
  = lead_docs (span lines (since_end lines from vs)
                 (variant_start_line v - 1 - since_end lines from vs)) ->
  docs_since lines from (vs ++ [v]).
Proof.
  induction vs as [|u vs IH]; intros from H Hle Hd; simpl in *.
  - repeat split; assumption.
  - destruct H as (H1 & H2 & H3). repeat split; auto.
Qed.

Lemma since_end_snoc (lines : list string) (vs : list Variant) (v : Variant) :
  forall from, since_end lines from (vs ++ [v]) = definition_end lines v.
Proof.
  induction vs as [|u vs IH]; intros from; simpl; [reflexivity|apply IH].
Qed.

Lemma span_snoc (lines : list string) (from idx : nat) (line : string) :
  from <= idx -> nth_error lines idx = Some line ->
  span lines from (S idx - from) = span lines from (idx - from) ++ [line].
Proof.
  intros Hle Hn. unfold span.
  replace (S idx - from) with (S (idx - from)) by lia.
  assert (Hn' : nth_error (skipn from lines) (idx - from) = Some line).
  { rewrite nth_error_skipn. now replace (from + (idx - from)) with idx by lia. }
  generalize dependent (skipn from lines). generalize (idx - from).
  induction n as [|n IH]; intros l Hl; destruct l as [|x l]; simpl in *;
    try discriminate.
  - now inversion Hl.
  - f_equal. now apply IH.
Qed.

Lemma span_empty (lines : list string) (from : nat) : span lines from (from - from) = [].
Proof. unfold span. now rewrite Nat.sub_diag. Qed.

Lemma collect_variants_loop_docs (lines : list string) (s e : nat) :
  forall fuel idx vs bd inside pd result,
  collect_variants_loop lines e fuel idx vs bd inside pd = Done result ->
  (inside = false ->
   vs = [] /\ pd = []
   /\ past_opening (skipn idx lines) idx = block_body_start lines s) ->
  (inside = true ->
   docs_since lines (block_body_start lines s) vs
   /\ since_end lines (block_body_start lines s) vs <= idx
   /\ pd = lead_docs
             (span lines (since_end lines (block_body_start lines s) vs)
                (idx - since_end lines (block_body_start lines s) vs))) ->
  docs_since lines (block_body_start lines s) result.
Proof.
  set (F := block_body_start lines s).
  induction fuel as [|fuel IH];
    intros idx vs bd inside pd result;
    rewrite collect_variants_loop_unfold;
    destruct (Nat.ltb_spec e idx) as [Hlt|Hge].
  - intros [= <-] Hout Hin. destruct inside.
    + now destruct (Hin eq_refl).
    + destruct (Hout eq_refl) as (-> & _). exact I.
  - discriminate.
  - intros [= <-] Hout Hin. destruct inside.
    + now destruct (Hin eq_refl).
    + destruct (Hout eq_refl) as (-> & _). exact I.
  - destruct (nth_error lines idx) as [line|] eqn:Hl; [|discriminate].
    assert (Hsk : skipn idx lines = line :: skipn (S idx) lines).
    { clear - Hl. revert idx Hl. induction lines as [|x lines IHl];
        intros [|idx] Hl; simpl in *; try discriminate.
      - now inversion Hl.
      - now apply IHl. }
    cbv zeta.
    destruct inside; cbn [negb].
    2:{ intros H Hout _. destruct (Hout eq_refl) as (-> & -> & Hpo).
        rewrite Hsk in Hpo. cbn [past_opening] in Hpo.
        destruct (has_char "{" line).
        - apply (IH _ _ _ _ _ _ H); [discriminate|]. intros _.
          cbn [docs_since since_end]. rewrite <- Hpo.
          split; [exact I|]. split; [lia|]. now rewrite span_empty.
        - apply (IH _ _ _ _ _ _ H); [|discriminate]. intros _. auto. }
    intros H _ Hin. destruct (Hin eq_refl) as (Hc & Hle & Hpd).
    revert H.
    assert (Hstep : forall extra,
              lead_docs [line] = extra ->
              pd ++ extra
              = lead_docs (span lines (since_end lines F vs)
                             (S idx - since_end lines F vs))).
    { intros extra <-. rewrite (span_snoc _ _ _ _ Hle Hl), lead_docs_app.
      now rewrite Hpd. }
    destruct (startswith (strip line) "///") eqn:Ed.
    { intros H. apply (IH _ _ _ _ _ _ H); [discriminate|]. intros _.
      split; [assumption|]. split; [lia|]. apply Hstep.
      cbn [lead_docs]. unfold is_doc_line. now rewrite Ed. }
    destruct (startswith (strip line) "#[") eqn:Ea.
    { intros H. apply (IH _ _ _ _ _ _ H); [discriminate|]. intros _.
      split; [assumption|]. split; [lia|]. apply Hstep.
      cbn [lead_docs]. unfold is_doc_line, is_attr_line. now rewrite Ed, Ea. }
    assert (Hplain : lead_docs [line] = []).
    { cbn [lead_docs]. unfold is_doc_line, is_attr_line. now rewrite Ed, Ea. }
    match goal with
    | |- context [match ?x with Some _ => _ | None => _ end] =>
        destruct x as [vn|] eqn:Em
    end.
    2:{ intros H. apply (IH _ _ _ _ _ _ H); [discriminate|]. intros _.
        split; [assumption|]. split; [lia|].
        rewrite <- (Hstep [] Hplain). now rewrite app_nil_r. }
    destruct (collect_variant_definition lines idx) as [vd consumed] eqn:Ec.
    intros H. apply (IH _ _ _ _ _ _ H); [discriminate|]. intros _.
    assert (Hend : definition_end lines (mkVariant vn (idx + 1) pd vd)
                   = idx + consumed).
    { unfold definition_end. cbn [variant_start_line].
      replace (idx + 1 - 1) with idx by lia. now rewrite Ec. }
    rewrite since_end_snoc, Hend. split; [|split; [lia|]].
    + apply docs_since_snoc; [assumption| |]; cbn [variant_start_line variant_doc];
        replace (idx + 1 - 1) with idx by lia; assumption.
    + now rewrite span_empty.
Qed.

Lemma docs_since_nth (lines : list string) (vs : list Variant) :
  forall from j v,
  docs_since lines from vs ->
  nth_error vs j = Some v ->
  let f := match j with
           | O => from
           | S j' => match nth_error vs j' with
                     | Some u => definition_end lines u
                     | None => 0
                     end
           end in
  f <= variant_start_line v - 1
  /\ variant_doc v = lead_docs (span lines f (variant_start_line v - 1 - f)).
Proof.
  induction vs as [|u vs IH]; intros from j v H Hn; [now destruct j|].
  destruct H as (H1 & H2 & H3). destruct j as [|j]; simpl in Hn.
  - inversion Hn; subst. simpl. auto.
  - specialize (IH _ j v H3 Hn). destruct j as [|j]; simpl in *; exact IH.
Qed.

(** *** The text of a doc-comment line *)

Lemma string_app_assoc (a b c : string) :
  ((a ++ b) ++ c)%string = (a ++ b ++ c)%string.
Proof. induction a as [|x a IH]; simpl; [reflexivity|now rewrite IH]. Qed.

Lemma all_space_app (a b : string) :
  all_space a = true -> all_space b = true -> all_space (a ++ b) = true.
Proof.
  induction a as [|c a IH]; simpl; [auto|].
  intros H Hb. apply andb_true_iff in H as [Hc Ha]. now rewrite Hc, IH.
Qed.

Lemma lstrip_spaces (ws s : string) :
  all_space ws = true -> lstrip (ws ++ s) = lstrip s.
Proof.
  induction ws as [|c ws IH]; simpl; [reflexivity|].
  intros H. apply andb_true_iff in H as [Hc Hws]. now rewrite Hc, IH.
Qed.

Lemma rstrip_all_space (ws : string) : all_space ws = true -> rstrip ws = "".
Proof.
  induction ws as [|c ws IH]; simpl; [reflexivity|].
  intros H. apply andb_true_iff in H as [Hc Hws]. now rewrite IH, Hc.
Qed.

Lemma rstrip_spaces (s ws : string) :
  all_space ws = true -> rstrip (s ++ ws) = rstrip s.
Proof.
  intros H. induction s as [|c s IH]; simpl.
  - now apply rstrip_all_space.
  - now rewrite IH.
Qed.

Lemma rstrip_ends_plain (s : string) :
  match last_char s with
  | None => True
  | Some c => isspace c = false
  end -> rstrip s = s.
Proof.
  induction s as [|d s IH]; [reflexivity|].
  destruct s as [|d' s'].
  - simpl. now intros ->.
  - intros Hl. change (rstrip (String d (String d' s')))
      with (match rstrip (String d' s') with
            | EmptyString => if isspace d then EmptyString else String d EmptyString
            | r => String d r
            end).
    rewrite (IH Hl). reflexivity.
Qed.

Lemma last_char_app (a b : string) :
  b <> "" -> last_char (a ++ b) = last_char b.
Proof.
  intros Hb. induction a as [|c a IH]; [reflexivity|].
  change (String c a ++ b)%string with (String c (a ++ b)).
  destruct (a ++ b)%string as [|d r] eqn:E.
  - destruct a; simpl in E; [contradiction|discriminate].
  - exact IH.
Qed.

Lemma strip_padded (ws1 body ws2 : string) :
  all_space ws1 = true -> all_space ws2 = true -> trimmed body ->
  strip (ws1 ++ body ++ ws2) = body.
Proof.
  intros H1 H2 [Hhead Hlast]. unfold strip.
  rewrite lstrip_spaces by assumption.
  destruct body as [|c body].
  - cbn [append].
    replace ws2 with (ws2 ++ "")%string
      by (clear; induction ws2 as [|x w IH]; simpl; [reflexivity|now rewrite IH]).
    rewrite lstrip_spaces by assumption. reflexivity.
  - cbn [append lstrip]. rewrite Hhead.
    change (String c (body ++ ws2)) with (String c body ++ ws2)%string.
    rewrite rstrip_spaces by assumption. now apply rstrip_ends_plain.
Qed.

Lemma doc_of_marked_line (indent pad body trail : string) :
  all_space indent = true -> all_space pad = true -> all_space trail = true ->
  trimmed body ->
  is_doc_line (indent ++ "///" ++ pad ++ body ++ trail) = true
  /\ doc_of_line (indent ++ "///" ++ pad ++ body ++ trail) = body.
Proof.
  intros Hi Hp Ht Hb.
  assert (Hs : strip (indent ++ "///" ++ pad ++ body ++ trail)
               = match body with
                 | EmptyString => "///"
                 | _ => ("///" ++ pad ++ body)%string
                 end).
  { destruct body as [|c body].
    - cbn [append].
      apply (strip_padded indent "///" (pad ++ trail) Hi
               (all_space_app _ _ Hp Ht)).
      split; reflexivity.
    - rewrite <- (string_app_assoc pad (String c body) trail).
      rewrite <- (string_app_assoc "///" (pad ++ String c body) trail).
      apply strip_padded; auto. split; [reflexivity|].
      rewrite last_char_app by (destruct pad; discriminate).
      rewrite last_char_app by discriminate. exact (proj2 Hb). }
  unfold is_doc_line, doc_of_line, doc_text. rewrite Hs.
  destruct body as [|c body]; [split; reflexivity|].
  split.
  { cbn [append startswith]. rewrite Ascii.eqb_refl. cbn [andb].
    now destruct (pad ++ String c body)%string. }
  cbn [append slice_from].
  replace (pad ++ String c body)%string
    with (pad ++ String c body ++ "")%string.
  - now apply strip_padded.
  - f_equal. clear. cbn [append]. f_equal.
    induction body as [|x w IH]; simpl; [reflexivity|now rewrite IH].
Qed.

(** *** Doc lists *)

Lemma docs_of_variant (lines : list string) (start_index end_index : nat)
    (vs : list Variant) (j : nat) (v : Variant) :
  collect_variants lines start_index end_index = Done vs ->
  nth_error vs j = Some v ->
  met_from lines start_index vs j <= variant_start_line v - 1
  /\ variant_doc v = lead_docs (lines_met_before lines start_index vs j v).
Proof.
  intros Hvs Hn.
  assert (Hc : docs_since lines (block_body_start lines start_index) vs).
  { apply (collect_variants_loop_docs lines start_index end_index
             _ _ _ _ _ _ _ Hvs); [|discriminate].
    intros _. repeat split; reflexivity. }
  exact (docs_since_nth lines vs _ j v Hc Hn).
Qed.

Lemma leading_docs_below_stop (above blanks dl rest : list string) (stop : string) :
  is_doc_line stop = false -> is_blank_line stop = false ->
  Forall (fun l => is_blank_line l = true) blanks ->
  Forall (fun l => is_doc_line l = true) dl ->
  collect_leading_doc (above ++ stop :: blanks ++ dl ++ rest)
    (List.length (above ++ stop :: blanks ++ dl))
  = Done (map doc_of_line dl).
Proof.
  intros Hd Hb Hbl Hdl.
  pose proof (collect_leading_doc_run ((above ++ [stop]) ++ blanks) dl [] rest
                Hdl (Forall_nil _)) as H.
  cbn [app] in H. rewrite app_nil_r in H.
  replace (above ++ stop :: blanks ++ dl ++ rest)
    with (((above ++ [stop]) ++ blanks) ++ dl ++ rest)
    by (rewrite <- !app_assoc; reflexivity).
  replace (above ++ stop :: blanks ++ dl)
    with (((above ++ [stop]) ++ blanks) ++ dl)
    by (rewrite <- !app_assoc; reflexivity).
  rewrite H. f_equal.
  rewrite leading_doc_loop_blanks; auto.
  2:{ eapply Forall_impl; [|exact Hbl]. apply blank_not_doc. }
  now rewrite leading_doc_loop_stop.
Qed.

Lemma leading_docs_below_blanks (blanks dl rest : list string) :
  Forall (fun l => is_blank_line l = true) blanks ->
  Forall (fun l => is_doc_line l = true) dl ->
  collect_leading_doc (blanks ++ dl ++ rest) (List.length (blanks ++ dl))
  = Done (map doc_of_line dl).
Proof.
  intros Hbl Hdl.
  pose proof (collect_leading_doc_run blanks dl [] rest Hdl (Forall_nil _)) as H.
  cbn [app] in H. rewrite app_nil_r in H. rewrite H. f_equal.
  pose proof (leading_doc_loop_blanks [] blanks [] Hbl) as Hb.
  cbn [app] in Hb. rewrite Hb; [reflexivity|].
  eapply Forall_impl; [|exact Hbl]. apply blank_not_doc.
Qed.

(** [C7], amended.  For a declaration, when the [K] doc-comment lines stand
    directly above it and the nearest non-blank line above them, if there is
    one, is not a doc comment, the doc list is exactly their [K] texts, top
    to bottom.  For a variant, the doc list holds, in order, the texts of the
    doc-comment lines and the whole trimmed attribute lines met since the
    definition of the previous variant (or since the opening line of the
    block); when the [K] doc-comment lines stand directly above the variant
    and no other doc-comment or attribute line is met there, it is exactly
    their [K] texts.  The text of a doc-comment line is what follows the
    marker, without the white space around it. *)
Theorem doc_lines_attached_in_order (dl : list string)
    (Hdocs : Forall (fun l => is_doc_line l = true) dl) :
  (forall above stop blanks rest,
     is_doc_line stop = false -> is_blank_line stop = false ->
     Forall (fun l => is_blank_line l = true) blanks ->
     collect_leading_doc (above ++ stop :: blanks ++ dl ++ rest)
       (List.length (above ++ stop :: blanks ++ dl))
     = Done (map doc_of_line dl))
  /\ (forall blanks rest,
        Forall (fun l => is_blank_line l = true) blanks ->
        collect_leading_doc (blanks ++ dl ++ rest) (List.length (blanks ++ dl))
        = Done (map doc_of_line dl))
  /\ (forall lines start_index end_index vs j v,
        collect_variants lines start_index end_index = Done vs ->
        nth_error vs j = Some v ->
        met_from lines start_index vs j <= variant_start_line v - 1
        /\ variant_doc v = lead_docs (lines_met_before lines start_index vs j v)
        /\ (forall others,
              lines_met_before lines start_index vs j v = others ++ dl ->
              lead_docs others = [] ->
              variant_doc v = map doc_of_line dl
              /\ List.length (variant_doc v) = List.length dl))
  /\ (forall indent pad body trail,
        all_space indent = true -> all_space pad = true ->
        all_space trail = true -> trimmed body ->
        is_doc_line (indent ++ "///" ++ pad ++ body ++ trail) = true
        /\ doc_of_line (indent ++ "///" ++ pad ++ body ++ trail) = body).
Proof.
  split; [|split; [|split]].
  - intros above stop blanks rest Hd Hb Hbl.
    now apply leading_docs_below_stop.
  - intros blanks rest Hbl. now apply leading_docs_below_blanks.
  - intros lines s e vs j v Hvs Hn.
    destruct (docs_of_variant lines s e vs j v Hvs Hn) as [Hle Hdoc].
    split; [exact Hle|]. split; [exact Hdoc|].
    intros others Hsplit Hothers.
    assert (Hk : variant_doc v = map doc_of_line dl).
    { rewrite Hdoc, Hsplit, lead_docs_app, Hothers. simpl.
      now apply lead_docs_of_docs. }
    split; [exact Hk|]. now rewrite Hk, length_map.
  - intros indent pad body trail. apply doc_of_marked_line.
Qed.

Lemma doc_lines_attached_in_order_witness :
  collect_leading_doc
    (["/// Old"] ++ "use std::fmt;" :: [""] ++ ["/// Order"; "/// events"]
     ++ ["pub enum OrderEvent {"])
    (List.length (["/// Old"] ++ "use std::fmt;" :: [""]
                  ++ ["/// Order"; "/// events"]))
  = Done ["Order"; "events"]
  /\ collect_leading_doc
       ([""] ++ ["/// Order"; "/// events"] ++ ["pub enum OrderEvent {"])
       (List.length ([""] ++ ["/// Order"; "/// events"]))
     = Done ["Order"; "events"]
  /\ (collect_variants source_with_docs_above_variants 0 8
      = Done [mkVariant "Created" 3 ["first"] "Created(OrderId),";
              mkVariant "Cancelled" 8 ["second"; "more"] "Cancelled,"]
      /\ lines_met_before source_with_docs_above_variants 0
           [mkVariant "Created" 3 ["first"] "Created(OrderId),";
            mkVariant "Cancelled" 8 ["second"; "more"] "Cancelled,"]
           1 (mkVariant "Cancelled" 8 ["second"; "more"] "Cancelled,")
         = [""; "    // note"] ++ ["    /// second"; "    /// more"]
      /\ variant_doc (mkVariant "Cancelled" 8 ["second"; "more"] "Cancelled,")
         = map doc_of_line ["    /// second"; "    /// more"])
  /\ doc_of_line ("    " ++ "///" ++ " " ++ "Order  events" ++ "  ")
     = "Order  events".
Proof.
  split; [|split; [|split]].
  - apply (proj1 (doc_lines_attached_in_order ["/// Order"; "/// events"]
                    ltac:(repeat constructor))
             ["/// Old"] "use std::fmt;" [""] ["pub enum OrderEvent {"]).
    + reflexivity.
    + reflexivity.
    + repeat constructor.
  - apply (proj1 (proj2 (doc_lines_attached_in_order ["/// Order"; "/// events"]
                           ltac:(repeat constructor)))
             [""] ["pub enum OrderEvent {"]).
    repeat constructor.
  - split; [vm_compute; reflexivity|]. split; [vm_compute; reflexivity|].
    apply (proj2 (proj2 (proj1 (proj2 (proj2
             (doc_lines_attached_in_order ["    /// second"; "    /// more"]
                ltac:(repeat constructor))))
             source_with_docs_above_variants 0 8
             [mkVariant "Created" 3 ["first"] "Created(OrderId),";
              mkVariant "Cancelled" 8 ["second"; "more"] "Cancelled,"]
             1 (mkVariant "Cancelled" 8 ["second"; "more"] "Cancelled,")
             ltac:(vm_compute; reflexivity) ltac:(reflexivity)))
             [""; "    // note"]).
    + vm_compute. reflexivity.
    + reflexivity.
  - refine (proj2 (proj2 (proj2 (proj2
              (doc_lines_attached_in_order [] ltac:(constructor))))
              "    " " " "Order  events" "  " _ _ _ _));
      try reflexivity.
    split; reflexivity.
Defined.

(** [C7], as stated, fails, for a declaration and for a variant.
    [OrderEvent] has exactly one doc-comment line directly above it, a blank
    line stands above that and a doc-comment line above the blank line: the
    doc list of the declaration has two entries.  [Created] has exactly one
    doc-comment line directly above it, and the line above that is an
    attribute: its doc list has two entries, the attribute line first. *)
Lemma doc_list_longer_than_doc_run_counterexample :
  (is_doc_line (nth 2 source_with_doc_above_blank "") = true
   /\ is_doc_line (nth 1 source_with_doc_above_blank "") = false
   /\ collect_leading_doc source_with_doc_above_blank 3 = Done ["Old"; "Order"]
   /\ List.length ["Old"; "Order"] <> 1)
  /\ (is_doc_line (nth 2 source_with_attribute_above_doc "") = true
      /\ is_doc_line (nth 1 source_with_attribute_above_doc "") = false
      /\ is_blank_line (nth 1 source_with_attribute_above_doc "") = false
      /\ collect_variants source_with_attribute_above_doc 0
           (snd (collect_block source_with_attribute_above_doc 0))
         = Done [mkVariant "Created" 4 ["#[deprecated]"; "made"]
                   "Created(OrderId),"]
      /\ List.length ["#[deprecated]"; "made"] <> 1).
Proof.
  repeat split; try (vm_compute; reflexivity); discriminate.
Qed.

(** [C10]  Walking up from a declaration, the first line that is neither
    blank nor a doc comment ends the walk, and an attribute line is such a
    line: when it is the nearest non-blank line above the declaration the doc
    list is empty, whatever stands above the attribute.  Blank lines do not
    end the walk: doc-comment lines separated from the declaration by blank
    lines only are attached, in order, after whatever the walk finds above
    them. *)
Theorem doc_walk_stops_at_attribute_not_at_blank
    (above blanks rest dl : list string) (stop : string)
    (Hstop : is_attr_line stop = true
             \/ (is_doc_line stop = false /\ is_blank_line stop = false))
    (Hblanks : Forall (fun l => is_blank_line l = true) blanks)
    (Hdocs : Forall (fun l => is_doc_line l = true) dl) :
  collect_leading_doc (above ++ stop :: blanks ++ rest)
    (List.length (above ++ stop :: blanks)) = Done []
  /\ collect_leading_doc (above ++ stop :: dl ++ blanks ++ rest)
       (List.length (above ++ stop :: dl ++ blanks)) = Done (map doc_of_line dl)
  /\ exists earlier,
       collect_leading_doc (above ++ dl ++ blanks ++ rest)
         (List.length (above ++ dl ++ blanks))
       = Done (earlier ++ map doc_of_line dl).
Proof.
  assert (Hs : is_doc_line stop = false /\ is_blank_line stop = false).
  { destruct Hstop as [H|H]; [now apply attr_not_doc_nor_blank|exact H]. }
  destruct Hs as [Hsd Hsb].
  split; [|split].
  - pose proof (collect_leading_doc_run (above ++ [stop]) [] blanks rest
                  (Forall_nil _) Hblanks) as H.
    rewrite <- !app_assoc in H. cbn [app] in H. rewrite H.
    now rewrite leading_doc_loop_stop.
  - pose proof (collect_leading_doc_run (above ++ [stop]) dl blanks rest
                  Hdocs Hblanks) as H.
    rewrite <- !app_assoc in H. cbn [app] in H. rewrite H.
    now rewrite leading_doc_loop_stop.
  - eexists. apply collect_leading_doc_run; assumption.
Qed.

Lemma doc_walk_stops_at_attribute_not_at_blank_witness :
  collect_leading_doc
    (["/// Order events"] ++ "#[derive(Debug)]" :: [""] ++ ["pub enum OrderEvent {"])
    (List.length (["/// Order events"] ++ "#[derive(Debug)]" :: [""])) = Done []
  /\ collect_leading_doc
       (["/// Order events"] ++ "#[derive(Debug)]" :: ["/// kept"] ++ [""]
        ++ ["pub enum OrderEvent {"])
       (List.length (["/// Order events"] ++ "#[derive(Debug)]" :: ["/// kept"]
                     ++ [""])) = Done (map doc_of_line ["/// kept"])
  /\ exists earlier,
       collect_leading_doc
         (["/// Order events"] ++ ["/// kept"] ++ [""] ++ ["pub enum OrderEvent {"])
         (List.length (["/// Order events"] ++ ["/// kept"] ++ [""]))
       = Done (earlier ++ map doc_of_line ["/// kept"]).
Proof.
  apply (doc_walk_stops_at_attribute_not_at_blank ["/// Order events"] [""]
           ["pub enum OrderEvent {"] ["/// kept"] "#[derive(Debug)]").
  - left. reflexivity.
  - repeat constructor.
  - repeat constructor.
Defined.


Lemma enum_to_dict_name (a b : EnumItem) :
  enum_to_dict a = enum_to_dict b -> name a = name b.
Proof. unfold enum_to_dict. intros H. now injection H. Qed.

(** [C6]  An item found in the sources is in the emitted inventory exactly
    when its name ends with [Event]; every emitted entry comes from such an
    item, and an enum named [OrderStatus] is never emitted. *)
Theorem inventory_holds_exactly_the_event_enums
    (REPO_ROOT cwd : Path) (rglob_rs : list Path) (read_text : Path -> string)
    (output : json)
    (Hout : main_output REPO_ROOT cwd rglob_rs read_text = Done output) :
  exists items,
    main_loop REPO_ROOT cwd read_text (sorted rglob_rs) [] = Done items
    /\ emitted_items output
       = map enum_to_dict
           (filter (fun item => endswith (name item) "Event") items)
    /\ (forall item, In item items ->
          (In (enum_to_dict item) (emitted_items output)
           <-> endswith (name item) "Event" = true))
    /\ (forall d, In d (emitted_items output) ->
          exists item, In item items /\ d = enum_to_dict item
                       /\ endswith (name item) "Event" = true)
    /\ (forall item, name item = "OrderStatus" ->
          ~ In (enum_to_dict item) (emitted_items output)).
Proof.
  unfold main_output in Hout.
  destruct (main_loop REPO_ROOT cwd read_text (sorted rglob_rs) [])
    as [items| |]; simpl in Hout; try discriminate.
  destruct (relative_to (BASE REPO_ROOT) cwd) as [base|]; [|discriminate].
  injection Hout as <-. exists items. cbn [emitted_items].
  assert (Hback : forall d,
            In d (map enum_to_dict
                    (filter (fun item => endswith (name item) "Event") items)) ->
            exists item, In item items /\ d = enum_to_dict item
                         /\ endswith (name item) "Event" = true).
  { intros d Hd. apply in_map_iff in Hd as (item & <- & Hi).
    apply filter_In in Hi as [Hi He]. eauto. }
  split; [reflexivity|]. split; [reflexivity|]. split; [|split].
  - intros item Hi. split.
    + intros Hd. destruct (Hback _ Hd) as (item' & _ & Heq & He).
      now rewrite (enum_to_dict_name _ _ Heq).
    + intros He. apply in_map. apply filter_In. auto.
  - exact Hback.
  - intros item Hn Hd. destruct (Hback _ Hd) as (item' & _ & Heq & He).
    rewrite <- (enum_to_dict_name _ _ Heq), Hn in He. discriminate.
Qed.

Lemma inventory_holds_exactly_the_event_enums_witness :
  exists items,
    main_loop sample_root sample_root sample_text (sorted sample_listing) []
    = Done items
    /\ emitted_items sample_output
       = map enum_to_dict
           (filter (fun item => endswith (name item) "Event") items)
    /\ (forall item, In item items ->
          (In (enum_to_dict item) (emitted_items sample_output)
           <-> endswith (name item) "Event" = true))
    /\ (forall d, In d (emitted_items sample_output) ->
          exists item, In item items /\ d = enum_to_dict item
                       /\ endswith (name item) "Event" = true)
    /\ (forall item, name item = "OrderStatus" ->
          ~ In (enum_to_dict item) (emitted_items sample_output)).
Proof.
  apply (inventory_holds_exactly_the_event_enums sample_root sample_root
           sample_listing sample_text sample_output).
  vm_compute. reflexivity.
Defined.

Section SameSearch.

Variable REPO_ROOT : Path.
Variable resolve : Path -> Path.
Variables run1 run2 : list string -> Usage.CompletedProcess.
Hypothesis same_search : forall cmd, run1 cmd = run2 cmd.

Lemma ripgrep_same_search (pattern : string) :
  Usage.ripgrep REPO_ROOT run1 pattern = Usage.ripgrep REPO_ROOT run2 pattern.
Proof. unfold Usage.ripgrep. now rewrite same_search. Qed.

Lemma usage_record_same_search item variant :
  Usage.usage_record REPO_ROOT resolve run1 item variant
  = Usage.usage_record REPO_ROOT resolve run2 item variant.
Proof. unfold Usage.usage_record. now rewrite ripgrep_same_search. Qed.

Lemma variants_loop_same_search item todo :
  forall report,
  Usage.variants_loop REPO_ROOT resolve run1 item todo report
  = Usage.variants_loop REPO_ROOT resolve run2 item todo report.
Proof.
  induction todo as [|v todo IH]; intros report; simpl; [reflexivity|].
  rewrite usage_record_same_search.
  destruct (Usage.usage_record _ _ _ _ _); simpl; auto.
Qed.

Lemma items_loop_same_search inventory :
  forall report,
  Usage.items_loop REPO_ROOT resolve run1 inventory report
  = Usage.items_loop REPO_ROOT resolve run2 inventory report.
Proof.
  induction inventory as [|item inventory IH]; intros report; simpl;
    [reflexivity|].
  rewrite variants_loop_same_search.
  destruct (Usage.variants_loop _ _ _ _ _ _); simpl; auto.
Qed.

Lemma usage_main_same_search text loads dumps :
  Usage.main REPO_ROOT resolve run1 text loads dumps
  = Usage.main REPO_ROOT resolve run2 text loads dumps.
Proof.
  unfold Usage.main, Usage.main_report. now rewrite items_loop_same_search.
Qed.

End SameSearch.

(** [C9]  Two runs of the pipeline on the same tree produce the same two
    artifact texts: the order in which the file system lists the source files
    does not matter, since the inventory script sorts them, and the usage
    script depends on the search tool only through what it answers. *)
Theorem pipeline_runs_are_identical
    (REPO_ROOT cwd : Path) (listing1 listing2 : list Path)
    (read_text : Path -> string) (resolve : Path -> Path)
    (search1 search2 : list string -> Usage.CompletedProcess)
    (json_loads_items : string -> list Usage.item_dict)
    (json_dumps : json -> string)
    (Htree : Permutation listing1 listing2)
    (Hsearch : forall cmd, search1 cmd = search2 cmd) :
  pipeline REPO_ROOT cwd listing1 read_text resolve search1 json_loads_items
    json_dumps
  = pipeline REPO_ROOT cwd listing2 read_text resolve search2 json_loads_items
      json_dumps.
Proof.
  assert (E : main REPO_ROOT cwd listing1 read_text json_dumps
              = main REPO_ROOT cwd listing2 read_text json_dumps).
  { unfold main, main_output. now rewrite (sorted_of_permutation _ _ Htree). }
  unfold pipeline. rewrite E. f_equal.
  destruct (main REPO_ROOT cwd listing2 read_text json_dumps) as [text| |];
    simpl; try reflexivity.
  now apply usage_main_same_search.
Qed.


(** *** The usage script *)
Section UsageFacts.
Import Usage UsageSpec.

Variable REPO_ROOT : Path.
Variable resolve : Path -> Path.
Variable subprocess_run : list string -> CompletedProcess.
Variable INVENTORY_text : string.
Variable json_loads_items : string -> list item_dict.
Variable json_dumps : json -> string.

Local Abbreviation ripgrep := (Usage.ripgrep REPO_ROOT subprocess_run).
Local Abbreviation ripgrep_loop := (Usage.ripgrep_loop REPO_ROOT).
Local Abbreviation usage_record := (Usage.usage_record REPO_ROOT resolve subprocess_run).
Local Abbreviation variants_loop := (Usage.variants_loop REPO_ROOT resolve subprocess_run).
Local Abbreviation items_loop := (Usage.items_loop REPO_ROOT resolve subprocess_run).
Local Abbreviation to_dict := (Usage.to_dict REPO_ROOT).
Local Abbreviation to_dicts := (Usage.to_dicts REPO_ROOT).
Local Abbreviation hits_loop := (Usage.hits_loop resolve).
Local Abbreviation proc_of pattern := (subprocess_run (command_of REPO_ROOT pattern)).
Local Abbreviation under_root := (UsageSpec.under_root REPO_ROOT).

(** What [int] skips is never a digit. *)
Lemma int_space_not_digit (c : ascii) : is_int_space c = true -> is_digit c = false.
Proof.
  unfold is_int_space, is_digit. intros H.
  apply andb_false_iff.
  destruct (Nat.leb_spec 48 (nat_of_ascii c)) as [H1|H1]; [|now left].
  destruct (Nat.leb_spec (nat_of_ascii c) 57) as [H2|H2]; [|now right].
  exfalso. revert H.
  destruct (Nat.leb_spec (nat_of_ascii c) 13); [lia|].
  rewrite andb_false_r. simpl.
  destruct (Nat.eqb_spec (nat_of_ascii c) 32); [lia|].
  destruct (Nat.eqb_spec (nat_of_ascii c) 133); [lia|].
  destruct (Nat.eqb_spec (nat_of_ascii c) 160); [lia|]. discriminate.
Qed.

Lemma count_digits_int_lstrip (s : string) :
  count_digits (int_lstrip s) = count_digits s.
Proof.
  induction s as [|c s IH]; simpl; [reflexivity|].
  destruct (is_int_space c) eqn:E; [|reflexivity].
  now rewrite (int_space_not_digit c E).
Qed.

Lemma count_digits_int_rstrip (s : string) :
  count_digits (int_rstrip s) = count_digits s.
Proof.
  induction s as [|c s IH]; simpl; [reflexivity|].
  destruct (int_rstrip s) as [|d r] eqn:E.
  - simpl in IH. destruct (is_int_space c) eqn:Ec.
    + now rewrite (int_space_not_digit c Ec).
    + simpl. now rewrite <- IH.
  - cbn [count_digits] in IH |- *. now rewrite IH.
Qed.

(** [int] refuses a text of more than 4300 digits, and does not skip the
    separators FS..US that [str.strip] removes. *)
Lemma py_int_refuses (s : string) :
  (int_max_str_digits < count_digits s -> py_int s = None)
  /\ py_int (String (ascii_of_nat 31) "7") = None
  /\ py_int (String (ascii_of_nat 28) "7") = None
  /\ py_int "b.rs" = None
  /\ py_int "1__0" = None
  /\ py_int "+ 7" = None
  /\ py_int "" = None.
Proof.
  split; [|repeat split; vm_compute; reflexivity].
  intros H. unfold py_int.
  rewrite <- (count_digits_int_lstrip s), <- count_digits_int_rstrip in H.
  destruct (int_rstrip (int_lstrip s)) as [|c r]; [reflexivity|].
  assert (Hsign : forall neg body,
            int_max_str_digits < count_digits body ->
            match digits_value 0 false body with
            | Some n => if (int_max_str_digits <? count_digits body)%nat
                        then None
                        else Some (if neg : bool then (- n)%Z else n)
            | None => None
            end = None).
  { intros neg body Hd. apply Nat.ltb_lt in Hd.
    destruct (digits_value 0 false body); rewrite ?Hd; auto. }
  destruct (Ascii.eqb_spec c "+") as [->|Hp].
  { apply (Hsign false). exact H. }
  destruct (Ascii.eqb_spec c "-") as [->|Hm].
  { apply (Hsign true). exact H. }
  transitivity (match digits_value 0 false (String c r) with
                | Some n => if (int_max_str_digits <? count_digits (String c r))%nat
                            then None else Some n
                | None => None
                end).
  - destruct c as [[] [] [] [] [] [] [] []]; try reflexivity;
      exfalso; auto.
  - apply (Hsign false). exact H.
Qed.

Lemma py_int_reads :
  py_int "12" = Some 12%Z
  /\ py_int " 12 " = Some 12%Z
  /\ py_int (String (ascii_of_nat 160) "7") = Some 7%Z
  /\ py_int "+7" = Some 7%Z
  /\ py_int "-12" = Some (-12)%Z
  /\ py_int "1_000" = Some 1000%Z.
Proof. repeat split; vm_compute; reflexivity. Qed.

Lemma ripgrep_failure (pattern : string) :
  ~ benign (returncode (proc_of pattern)) ->
  ripgrep pattern = Raised (RuntimeError (stderr (proc_of pattern))).
Proof.
  intros H. unfold Usage.ripgrep. fold (command_of REPO_ROOT pattern).
  destruct (Z.eqb_spec (returncode (proc_of pattern)) 0) as [E|_];
    [exfalso; apply H; now left|].
  destruct (Z.eqb_spec (returncode (proc_of pattern)) 1) as [E|_];
    [exfalso; apply H; now right|].
  reflexivity.
Qed.

Lemma ripgrep_benign (pattern : string) :
  benign (returncode (proc_of pattern)) ->
  ripgrep pattern
  = if (strip (stdout (proc_of pattern)) =? "")%string then Done []
    else ripgrep_loop (splitlines (stdout (proc_of pattern))) [].
Proof.
  intros H. unfold Usage.ripgrep. fold (command_of REPO_ROOT pattern).
  destruct H as [-> | ->]; reflexivity.
Qed.

Lemma ripgrep_loop_cases (out_lines : list string) :
  forall results,
  Forall under_root results ->
  match ripgrep_loop out_lines results with
  | Done found => Forall under_root found
  | Raised e => e = ValueError
  | OutOfFuel => False
  end.
Proof.
  induction out_lines as [|line out_lines IH]; intros results Hr; simpl;
    [assumption|].
  destruct (split_colon2 line) as [[[p n] t]|]; [|reflexivity].
  destruct (relative_to (Path_of p) REPO_ROOT) as [rel|] eqn:E; [|now apply IH].
  destruct (in_excluded_dir rel); [now apply IH|].
  destruct (py_int n) as [k|]; [|reflexivity].
  apply IH. apply Forall_app. split; [assumption|].
  constructor; [|constructor]. unfold under_root. simpl. congruence.
Qed.

Lemma ripgrep_loop_ok (out_lines : list string) :
  Forall (output_line_ok REPO_ROOT) out_lines ->
  forall results, exists found, ripgrep_loop out_lines results = Done found.
Proof.
  induction 1 as [|line out_lines (p & n & t & Hs & Hk) _ IH]; intros results;
    simpl; [eauto|].
  rewrite Hs.
  destruct (relative_to (Path_of p) REPO_ROOT) as [rel|]; [|apply IH].
  destruct (in_excluded_dir rel); [apply IH|].
  destruct Hk as [Hk|Hk]; [discriminate|].
  destruct (py_int n); [apply IH|congruence].
Qed.

Lemma ripgrep_under_root (pattern : string) (found : list (Path * Z * string)) :
  ripgrep pattern = Done found -> Forall under_root found.
Proof.
  unfold Usage.ripgrep.
  destruct (negb _); [discriminate|].
  destruct (_ =? "")%string; [intros [= <-]; constructor|].
  intros H.
  pose proof (ripgrep_loop_cases (splitlines (stdout (proc_of pattern))) []
                (Forall_nil _)) as C.
  fold (command_of REPO_ROOT pattern) in H. now rewrite H in C.
Qed.

(** The hits are the matches outside the declaring file, in order. *)
Lemma hits_loop_filter (module_path : Path) (found : list (Path * Z * string)) :
  forall hits,
  hits_loop module_path found hits
  = hits ++ map (fun m => mkOccurrence (fst (fst m)) (snd (fst m)) (snd m))
              (filter (fun m => if list_eq_dec string_dec
                                     (resolve (fst (fst m))) module_path
                                then false else true) found).
Proof.
  induction found as [|[[p l] t] found IH]; intros hits; simpl.
  - now rewrite app_nil_r.
  - destruct (list_eq_dec string_dec (resolve p) module_path); rewrite IH;
      [reflexivity|]. simpl. now rewrite <- app_assoc.
Qed.

Lemma to_dicts_total (hits : list Occurrence) :
  Forall (fun h => relative_to (path h) REPO_ROOT <> None) hits ->
  exists ds, to_dicts hits = Done ds /\ List.length ds = List.length hits.
Proof.
  induction 1 as [|h hits Hh _ (ds & Hd & Hlen)]; simpl; [eauto|].
  unfold Usage.to_dict.
  destruct (relative_to (path h) REPO_ROOT); [|congruence].
  simpl. rewrite Hd. simpl. eexists. split; [reflexivity|]. simpl. lia.
Qed.

(** A search that returns gives a record, with one entry per hit. *)
Lemma usage_record_found (item : item_dict) (variant : variant_dict)
    (found : list (Path * Z * string)) :
  ripgrep (pattern_of item variant) = Done found ->
  exists occurrences,
    usage_record item variant = Done (record_of item variant occurrences)
    /\ List.length occurrences
       = List.length (hits_loop (declaring_file REPO_ROOT resolve item) found []).
Proof.
  intros H. unfold Usage.usage_record. fold (pattern_of item variant).
  rewrite H. simpl bind. fold (declaring_file REPO_ROOT resolve item).
  pose proof (ripgrep_under_root _ _ H) as Hu.
  destruct (hits_loop _ found []) as [|h hits] eqn:Eh.
  - exists []. split; reflexivity.
  - destruct (to_dicts_total (h :: hits)) as (ds & Hd & Hlen).
    { rewrite <- Eh, hits_loop_filter. simpl.
      apply Forall_map. apply Forall_forall. intros m Hm.
      apply filter_In in Hm as [Hm _].
      rewrite Forall_forall in Hu. apply (Hu m Hm). }
    rewrite Hd. simpl. exists ds. split; [reflexivity|assumption].
Qed.

Lemma usage_record_raised (item : item_dict) (variant : variant_dict) (e : exc) :
  ripgrep (pattern_of item variant) = Raised e ->
  usage_record item variant = Raised e.
Proof.
  intros H. unfold Usage.usage_record. fold (pattern_of item variant).
  now rewrite H.
Qed.

Lemma map_run_app {A B : Type} (f : A -> run B) (l1 l2 : list A) :
  map_run f (l1 ++ l2)
  = (r1 <- map_run f l1 ;; r2 <- map_run f l2 ;; Done (r1 ++ r2)).
Proof.
  induction l1 as [|a l1 IH]; simpl.
  - destruct (map_run f l2); reflexivity.
  - destruct (f a); simpl; try reflexivity. rewrite IH.
    destruct (map_run f l1); simpl; try reflexivity.
    destruct (map_run f l2); reflexivity.
Qed.

Lemma variants_loop_map_run (item : item_dict) (todo : list variant_dict) :
  forall usage_report,
  variants_loop item todo usage_report
  = (rs <- map_run (fun p => usage_record (fst p) (snd p))
             (map (pair item) todo) ;;
     Done (usage_report ++ rs)).
Proof.
  induction todo as [|v todo IH]; intros usage_report; simpl.
  - now rewrite app_nil_r.
  - destruct (usage_record item v) as [r| |]; simpl; try reflexivity.
    rewrite IH.
    destruct (map_run _ (map (pair item) todo)); simpl; try reflexivity.
    now rewrite <- app_assoc.
Qed.

Lemma items_loop_map_run (inventory : list item_dict) :
  forall usage_report,
  items_loop inventory usage_report
  = (rs <- map_run (fun p => usage_record (fst p) (snd p))
             (inventory_pairs inventory) ;;
     Done (usage_report ++ rs)).
Proof.
  induction inventory as [|item inventory IH]; intros usage_report; simpl.
  - now rewrite app_nil_r.
  - rewrite variants_loop_map_run, map_run_app.
    destruct (map_run _ (map (pair item) (variants item))); simpl;
      try reflexivity.
    rewrite IH.
    destruct (map_run _ (inventory_pairs inventory)); simpl; try reflexivity.
    now rewrite <- app_assoc.
Qed.

(** The report is the list of the records of the pairs, in order, and there
    is a report only when every record could be made. *)
Lemma main_report_map_run :
  Usage.main_report REPO_ROOT resolve subprocess_run INVENTORY_text
    json_loads_items
  = map_run (fun p => usage_record (fst p) (snd p))
      (inventory_pairs (load_inventory INVENTORY_text json_loads_items)).
Proof.
  unfold Usage.main_report. rewrite items_loop_map_run.
  destruct (map_run _ _); reflexivity.
Qed.

Lemma map_run_done {A B : Type} (f : A -> run B) (l : list A) (rs : list B) :
  map_run f l = Done rs -> Forall2 (fun a r => f a = Done r) l rs.
Proof.
  revert rs. induction l as [|a l IH]; simpl; intros rs.
  - intros [= <-]. constructor.
  - destruct (f a) eqn:E; simpl; try discriminate.
    destruct (map_run f l); simpl; try discriminate.
    intros [= <-]. constructor; auto.
Qed.

Lemma map_run_all_done {A B : Type} (f : A -> run B) (l : list A) :
  Forall (fun a => exists r, f a = Done r) l -> exists rs, map_run f l = Done rs.
Proof.
  induction 1 as [|a l [r Hr] _ [rs Hrs]]; simpl; [eauto|].
  rewrite Hr, Hrs. simpl. eauto.
Qed.

(** The first record that cannot be made ends the run with its exception. *)
Lemma map_run_first_raise {A B : Type} (f : A -> run B)
    (before after : list A) (a : A) (e : exc) :
  Forall (fun x => exists r, f x = Done r) before -> f a = Raised e ->
  map_run f (before ++ a :: after) = Raised e.
Proof.
  intros Hb Ha. destruct (map_run_all_done f before Hb) as [rs Hrs].
  rewrite map_run_app, Hrs. simpl. now rewrite Ha.
Qed.

Lemma map_run_not_done {A B : Type} (f : A -> run B) (l : list A) (a : A) :
  In a l -> (forall r, f a <> Done r) -> forall rs, map_run f l <> Done rs.
Proof.
  intros Hin Hf rs H. apply map_run_done in H.
  induction H as [|x r l rs Hx _ IH]; [contradiction|].
  destruct Hin as [->|Hin]; [now apply (Hf r)|auto].
Qed.

End UsageFacts.

(** *** The claims on the usage script *)

Lemma pipeline_runs_are_identical_witness :
  pipeline sample_root sample_root sample_listing sample_text (fun p => p)
    sample_search (sample_loads ["Created"; "Cancelled"]) sample_dumps
  = pipeline sample_root sample_root (rev sample_listing) sample_text
      (fun p => p) sample_search (sample_loads ["Created"; "Cancelled"])
      sample_dumps.
Proof.
  apply pipeline_runs_are_identical.
  - apply Permutation_rev.
  - reflexivity.
Defined.

Section UsageClaims.
Import Usage UsageSpec.

Variable REPO_ROOT : Path.
Variable resolve : Path -> Path.
Variable subprocess_run : list string -> CompletedProcess.
Variable INVENTORY_text : string.
Variable json_loads_items : string -> list item_dict.
Variable json_dumps : json -> string.

Local Abbreviation ripgrep := (Usage.ripgrep REPO_ROOT subprocess_run).
Local Abbreviation usage_record := (Usage.usage_record REPO_ROOT resolve subprocess_run).
Local Abbreviation hits_loop := (Usage.hits_loop resolve).
Local Abbreviation main_report :=
  (Usage.main_report REPO_ROOT resolve subprocess_run INVENTORY_text
     json_loads_items).
Local Abbreviation main :=
  (Usage.main REPO_ROOT resolve subprocess_run INVENTORY_text json_loads_items
     json_dumps).
Local Abbreviation inventory := (load_inventory INVENTORY_text json_loads_items).
Local Abbreviation proc_of pattern := (subprocess_run (command_of REPO_ROOT pattern)).

Lemma main_of_report :
  main = (usage_report <- main_report ;;
          Done (json_dumps (JList usage_report) ++ LF)%string).
Proof. reflexivity. Qed.

(** [C5]  The report has exactly one record for each (event type, variant)
    pair of the inventory, in inventory order: it is the list of the records
    made for the pairs one after the other, and it is produced whenever every
    search returns.  A pair whose search returns gets a record with its
    domain, event type and variant and one occurrence per surviving match, so
    a pair with no surviving match gets a record with an empty occurrence
    list, not no record. *)
Theorem usage_report_has_one_record_per_pair :
  (Forall (fun p => exists found,
                      ripgrep (pattern_of (fst p) (snd p)) = Done found)
     (inventory_pairs inventory) ->
   exists report, main_report = Done report)
  /\ forall report, main_report = Done report ->
       Forall2 (fun p r =>
                  exists found occurrences,
                    ripgrep (pattern_of (fst p) (snd p)) = Done found
                    /\ r = record_of (fst p) (snd p) occurrences
                    /\ List.length occurrences
                       = List.length
                           (hits_loop (declaring_file REPO_ROOT resolve (fst p))
                              found []))
         (inventory_pairs inventory) report
       /\ List.length report = List.length (inventory_pairs inventory).
Proof.
  split.
  - intros Hall. rewrite main_report_map_run. apply map_run_all_done.
    eapply Forall_impl; [|exact Hall]. intros [item v] [found Hf]. simpl in *.
    destruct (usage_record_found REPO_ROOT resolve subprocess_run item v
                found Hf) as (occ & Ho & _). eauto.
  - intros report Hreport.
    rewrite main_report_map_run in Hreport. apply map_run_done in Hreport.
    split.
    + eapply Forall2_impl; [|exact Hreport]. intros [item v] r Hr. simpl in *.
      destruct (ripgrep (pattern_of item v)) as [found|e|] eqn:E.
      * destruct (usage_record_found REPO_ROOT resolve subprocess_run item v
                    found E) as (occ & Ho & Hl).
        exists found, occ. split; [reflexivity|]. split; [congruence|exact Hl].
      * rewrite (usage_record_raised REPO_ROOT resolve subprocess_run item v e E)
          in Hr. discriminate.
      * unfold Usage.usage_record in Hr. fold (pattern_of item v) in Hr.
        rewrite E in Hr. discriminate.
    + symmetry. eapply Forall2_length. exact Hreport.
Qed.

(** [C8]  The hits of a variant are its matches outside the declaring file,
    in order: a match whose resolved path is the declaring file is dropped.
    When every match lies in the declaring file, the variant's record has an
    empty occurrence list. *)
Theorem matches_in_declaring_file_are_discarded
    (item : item_dict) (variant : variant_dict)
    (found : list (Path * Z * string))
    (Hfound : ripgrep (pattern_of item variant) = Done found) :
  hits_loop (declaring_file REPO_ROOT resolve item) found []
  = map (fun m => mkOccurrence (fst (fst m)) (snd (fst m)) (snd m))
      (filter (fun m => if list_eq_dec string_dec (resolve (fst (fst m)))
                              (declaring_file REPO_ROOT resolve item)
                        then false else true) found)
  /\ (Forall (fun m => resolve (fst (fst m))
                       = declaring_file REPO_ROOT resolve item) found ->
      usage_record item variant = Done (record_of item variant [])).
Proof.
  split; [apply hits_loop_filter|].
  intros Hall. unfold Usage.usage_record. fold (pattern_of item variant).
  rewrite Hfound. simpl bind. fold (declaring_file REPO_ROOT resolve item).
  rewrite hits_loop_filter. simpl app.
  replace (filter _ found) with (@nil (Path * Z * string)); [reflexivity|].
  symmetry. clear Hfound. induction Hall as [|m found Hm _ IH]; simpl;
    [reflexivity|].
  destruct (list_eq_dec string_dec _ _); [exact IH|contradiction].
Qed.

Lemma ripgrep_never_search_failure_when_benign (pattern : string) :
  benign (returncode (proc_of pattern)) ->
  ripgrep pattern = Raised ValueError \/ exists found, ripgrep pattern = Done found.
Proof.
  intros H. rewrite (ripgrep_benign REPO_ROOT subprocess_run pattern H).
  destruct (_ =? "")%string; [right; eauto|].
  pose proof (ripgrep_loop_cases REPO_ROOT
                (splitlines (stdout (proc_of pattern))) [] (Forall_nil _)) as C.
  destruct (Usage.ripgrep_loop _ _ _) as [found|e|];
    [right; eauto|left; now subst|contradiction].
Qed.

(** The outcomes of a search by termination status.  On a status other than
    0 and 1 the search raises a RuntimeError carrying the tool's error text;
    the run ends with that error when the searches before it returned, and
    in no case produces a report.  With status 0 or 1 that error is never
    raised: the search returns an empty list on blank output and a list of
    matches when every output line can be taken apart, and otherwise a list
    or a ValueError. *)
Lemma ripgrep_outcomes_by_status (pattern : string) :
  (~ benign (returncode (proc_of pattern)) ->
   ripgrep pattern = Raised (RuntimeError (stderr (proc_of pattern)))
   /\ (forall item variant,
         In (item, variant) (inventory_pairs inventory) ->
         pattern_of item variant = pattern ->
         forall out, main <> Done out)
   /\ (forall before item variant after,
         inventory_pairs inventory = before ++ (item, variant) :: after ->
         pattern_of item variant = pattern ->
         Forall (fun p => exists r, usage_record (fst p) (snd p) = Done r)
           before ->
         main = Raised (RuntimeError (stderr (proc_of pattern)))))
  /\ (benign (returncode (proc_of pattern)) ->
      (forall msg, ripgrep pattern <> Raised (RuntimeError msg))
      /\ (strip (stdout (proc_of pattern)) = "" -> ripgrep pattern = Done [])
      /\ (Forall (output_line_ok REPO_ROOT)
            (splitlines (stdout (proc_of pattern))) ->
          exists found, ripgrep pattern = Done found)
      /\ (ripgrep pattern = Raised ValueError
          \/ exists found, ripgrep pattern = Done found)).
Proof.
  split.
  - intros Hbad. pose proof (ripgrep_failure REPO_ROOT subprocess_run pattern Hbad)
      as Hr.
    split; [exact Hr|]. split.
    + intros item v Hin <- out. rewrite main_of_report, main_report_map_run.
      destruct (map_run _ _) as [report| |] eqn:E; simpl; try discriminate.
      exfalso. revert E.
      apply (map_run_not_done _ _ (item, v) Hin). intros r. simpl.
      now rewrite (usage_record_raised REPO_ROOT resolve subprocess_run item v _ Hr).
    + intros before item v after Hp <- Hb.
      rewrite main_of_report, main_report_map_run, Hp.
      rewrite (map_run_first_raise _ before after (item, v)
                 (RuntimeError (stderr (proc_of (pattern_of item v)))));
        [reflexivity|exact Hb|].
      simpl. now apply usage_record_raised.
  - intros Hok. split; [|split; [|split]].
    + intros msg. destruct (ripgrep_never_search_failure_when_benign pattern Hok)
        as [->|[found ->]]; discriminate.
    + intros Hblank. rewrite (ripgrep_benign REPO_ROOT subprocess_run pattern Hok).
      now rewrite Hblank.
    + intros Hlines. rewrite (ripgrep_benign REPO_ROOT subprocess_run pattern Hok).
      destruct (_ =? "")%string; [eauto|].
      now apply ripgrep_loop_ok.
    + now apply ripgrep_never_search_failure_when_benign.
Qed.

Lemma ripgrep_loop_stops (before after : list string) (line : string) :
  Forall (output_line_ok REPO_ROOT) before ->
  line_not_taken_apart REPO_ROOT line ->
  forall results,
  Usage.ripgrep_loop REPO_ROOT (before ++ line :: after) results
  = Raised ValueError.
Proof.
  intros Hb Hline.
  induction Hb as [|l before (p & n & t & Hs & Hk) _ IH]; intros results;
    cbn [app Usage.ripgrep_loop].
  - destruct Hline as [->|(p & n & t & rel & -> & -> & -> & ->)]; reflexivity.
  - rewrite Hs.
    destruct (relative_to (Path_of p) REPO_ROOT) as [rel|]; [|apply IH].
    destruct (in_excluded_dir rel); [apply IH|].
    destruct Hk as [Hk|Hk]; [discriminate|].
    destruct (py_int n); [apply IH|congruence].
Qed.

(** [C4]  With the success status (or the no-matches status) and output that
    is not blank, the search raises a ValueError, and returns no list, as
    soon as a line of the output cannot be taken apart: a line with fewer
    than three colon-separated fields, or a line of a match kept for its
    location whose second field is not a number, as for a match in a file
    whose name holds a colon.  The run then ends without a report. *)
Theorem benign_status_raises_on_line_not_taken_apart (pattern : string)
    (before after : list string) (line : string)
    (Hstatus : benign (returncode (proc_of pattern)))
    (Hout : strip (stdout (proc_of pattern)) <> "")
    (Hlines : splitlines (stdout (proc_of pattern)) = before ++ line :: after)
    (Hbefore : Forall (output_line_ok REPO_ROOT) before)
    (Hline : line_not_taken_apart REPO_ROOT line) :
  ripgrep pattern = Raised ValueError
  /\ (forall found, ripgrep pattern <> Done found)
  /\ (forall item variant,
        In (item, variant) (inventory_pairs inventory) ->
        pattern_of item variant = pattern ->
        forall out, main <> Done out).
Proof.
  assert (Hr : ripgrep pattern = Raised ValueError).
  { rewrite (ripgrep_benign REPO_ROOT subprocess_run pattern Hstatus).
    destruct (String.eqb_spec (strip (stdout (proc_of pattern))) "") as [E|_];
      [contradiction|].
    rewrite Hlines. now apply ripgrep_loop_stops. }
  split; [exact Hr|]. split.
  - intros found. rewrite Hr. discriminate.
  - intros item v Hin <- out. rewrite main_of_report, main_report_map_run.
    destruct (map_run _ _) as [report| |] eqn:E; simpl; try discriminate.
    exfalso. revert E.
    apply (map_run_not_done _ _ (item, v) Hin). intros r. simpl.
    now rewrite (usage_record_raised REPO_ROOT resolve subprocess_run item v _ Hr).
Qed.

End UsageClaims.


Lemma usage_report_has_one_record_per_pair_witness :
  Usage.main_report sample_root (fun p => p) sample_search ""
    (sample_loads ["Created"; "Cancelled"]) = Done sample_report
  /\ List.length sample_report = 2
  /\ exists report,
       Usage.main_report sample_root (fun p => p) sample_search ""
         (sample_loads ["Created"; "Cancelled"]) = Done report.
Proof.
  pose proof (usage_report_has_one_record_per_pair sample_root (fun p => p)
                sample_search "" (sample_loads ["Created"; "Cancelled"]))
    as [Htotal Hshape].
  assert (Hrun : Usage.main_report sample_root (fun p => p) sample_search ""
                   (sample_loads ["Created"; "Cancelled"]) = Done sample_report)
    by (vm_compute; reflexivity).
  split; [exact Hrun|]. split.
  - exact (proj2 (Hshape sample_report Hrun)).
  - apply Htotal. repeat constructor; eexists; vm_compute; reflexivity.
Defined.

Lemma matches_in_declaring_file_are_discarded_witness :
  Usage.usage_record sample_root (fun p => p) sample_search
    (sample_order_item ["Created"; "Cancelled"]) (Usage.mkVariantDict "Cancelled")
  = Done (UsageSpec.record_of (sample_order_item ["Created"; "Cancelled"])
            (Usage.mkVariantDict "Cancelled") []).
Proof.
  apply (proj2 (matches_in_declaring_file_are_discarded sample_root (fun p => p)
                  sample_search (sample_order_item ["Created"; "Cancelled"])
                  (Usage.mkVariantDict "Cancelled")
                  [(sample_root ++ ["crates"; "events"; "src"; "order"; "mod.rs"],
                    4%Z, "    Cancelled,")]
                  ltac:(vm_compute; reflexivity))).
  repeat constructor.
Defined.

Lemma benign_status_raises_on_line_not_taken_apart_witness :
  Usage.returncode
    (sample_search (UsageSpec.command_of sample_root "OrderEvent::Odd")) = 0%Z
  /\ Usage.split_colon2 "/repo/notes/a:b.rs:3:OrderEvent::Odd"
     = Some ("/repo/notes/a", "b.rs", "3:OrderEvent::Odd")
  /\ Usage.ripgrep sample_root sample_search "OrderEvent::Odd" = Raised ValueError
  /\ forall out,
       Usage.main sample_root (fun p => p) sample_search ""
         (sample_loads ["Created"; "Odd"]) sample_dumps <> Done out.
Proof.
  pose proof (benign_status_raises_on_line_not_taken_apart sample_root
                (fun p => p) sample_search "" (sample_loads ["Created"; "Odd"])
                sample_dumps "OrderEvent::Odd" []
                [] "/repo/notes/a:b.rs:3:OrderEvent::Odd"
                ltac:(left; reflexivity)
                ltac:(vm_compute; discriminate)
                ltac:(vm_compute; reflexivity)
                ltac:(constructor)
                ltac:(right;
                      exists "/repo/notes/a", "b.rs", "3:OrderEvent::Odd",
                        ["notes"; "a"];
                      repeat split; vm_compute; reflexivity))
    as (Hr & _ & Hmain).
  split; [reflexivity|]. split; [reflexivity|]. split; [exact Hr|].
  apply (Hmain (sample_order_item ["Created"; "Odd"]) (Usage.mkVariantDict "Odd")).
  - right. left. reflexivity.
  - reflexivity.
Defined.

(** ** Part III: further properties of the two scripts *)

(** *** Strings *)

Lemma str_app_nil_r (s : string) : (s ++ "")%string = s.
Proof. induction s as [|c s IH]; simpl; [reflexivity|now rewrite IH]. Qed.

Lemma str_app_assoc (a b c : string) :
  ((a ++ b) ++ c)%string = (a ++ b ++ c)%string.
Proof. induction a as [|x a IH]; simpl; [reflexivity|now rewrite IH]. Qed.

Lemma str_length_app (a b : string) :
  String.length (a ++ b) = String.length a + String.length b.
Proof. induction a as [|x a IH]; simpl; [reflexivity|now rewrite IH]. Qed.

Lemma endswith_app (a suffix : string) : endswith (a ++ suffix) suffix = true.
Proof.
  induction a as [|c a IH]; simpl.
  - destruct suffix; simpl; rewrite ?String.eqb_refl, ?Ascii.eqb_refl; reflexivity.
  - rewrite IH. apply orb_true_r.
Qed.

Lemma removesuffix_app (a suffix : string) :
  removesuffix (a ++ suffix) suffix = a.
Proof.
  induction a as [|c a IH].
  - simpl. destruct suffix; simpl; [reflexivity|].
    now rewrite Ascii.eqb_refl, String.eqb_refl.
  - cbn [append removesuffix].
    destruct (String.eqb_spec (String c (a ++ suffix)) suffix) as [E|_].
    + apply (f_equal String.length) in E. simpl in E.
      rewrite str_length_app in E. lia.
    + change (String c (a ++ suffix)) with (String c a ++ suffix)%string.
      rewrite endswith_app. simpl. now rewrite IH.
Qed.

Lemma str_app_inv_tail (a b t : string) :
  (a ++ t)%string = (b ++ t)%string -> a = b.
Proof.
  revert b. induction a as [|c a IH]; intros [|d b] H; simpl in H.
  - reflexivity.
  - apply (f_equal String.length) in H. simpl in H.
    rewrite str_length_app in H. lia.
  - apply (f_equal String.length) in H. simpl in H.
    rewrite str_length_app in H. lia.
  - injection H as -> H. f_equal. now apply IH.
Qed.

(** *** Paths below a directory *)

Lemma relative_to_app (root rel : Path) : relative_to (root ++ rel) root = Some rel.
Proof.
  induction root as [|r root IH]; simpl; [now destruct rel|].
  now rewrite String.eqb_refl.
Qed.

Lemma relative_to_inv (p root rel : Path) :
  relative_to p root = Some rel -> p = root ++ rel.
Proof.
  revert p. induction root as [|r root IH]; intros p; simpl.
  - destruct p; simpl; intros H; injection H as <-; reflexivity.
  - destruct p as [|x p]; simpl; [discriminate|].
    destruct (String.eqb_spec x r) as [->|]; [|discriminate].
    intros H. now rewrite (IH _ H).
Qed.

Lemma rev_snoc_removelast (l : list string) (x : string) :
  rev (l ++ [x]) = x :: rev l /\ removelast (l ++ [x]) = l.
Proof. split; [apply rev_unit|apply removelast_last]. Qed.

(** The module path of a source file: the directory names below [BASE]
    joined by [::], followed by the file's stem unless the file is the
    directory's [mod.rs]; empty names are left out.  So a directory's
    [mod.rs] and the file of the same name beside the directory get the
    same module path. *)
Theorem compute_module_of_source_file (REPO_ROOT : Path) (dirs : list string)
    (stem : string) (Hstem : stem <> "mod") :
  compute_module REPO_ROOT (BASE REPO_ROOT ++ dirs ++ [(stem ++ ".rs")%string])
  = Done (join "::" (filter (fun part => negb (part =? "")%string)
                       (dirs ++ [stem])))
  /\ compute_module REPO_ROOT (BASE REPO_ROOT ++ dirs ++ ["mod.rs"])
     = Done (join "::" (filter (fun part => negb (part =? "")%string) dirs))
  /\ compute_module REPO_ROOT
       (BASE REPO_ROOT ++ (dirs ++ [stem]) ++ ["mod.rs"])
     = compute_module REPO_ROOT
         (BASE REPO_ROOT ++ dirs ++ [(stem ++ ".rs")%string]).
Proof.
  assert (H1 : compute_module REPO_ROOT
                 (BASE REPO_ROOT ++ dirs ++ [(stem ++ ".rs")%string])
               = Done (join "::" (filter (fun part => negb (part =? "")%string)
                                    (dirs ++ [stem])))).
  { unfold compute_module. rewrite relative_to_app.
    destruct (rev_snoc_removelast dirs (stem ++ ".rs")%string) as [-> ->].
    destruct (String.eqb_spec (stem ++ ".rs")%string "mod.rs") as [E|_].
    - exfalso. apply Hstem. apply (str_app_inv_tail stem "mod" ".rs"). exact E.
    - now rewrite removesuffix_app. }
  assert (H2 : forall ds, compute_module REPO_ROOT
                            (BASE REPO_ROOT ++ ds ++ ["mod.rs"])
               = Done (join "::" (filter (fun part => negb (part =? "")%string)
                                    ds))).
  { intros ds. unfold compute_module. rewrite relative_to_app.
    destruct (rev_snoc_removelast ds "mod.rs") as [-> ->]. reflexivity. }
  split; [exact H1|]. split; [apply H2|]. now rewrite H1, H2.
Qed.

Lemma compute_module_of_source_file_witness :
  compute_module ["/"; "repo"]
    (BASE ["/"; "repo"] ++ ["order"] ++ [("audit" ++ ".rs")%string])
  = Done (join "::" (filter (fun part => negb (part =? "")%string)
                       (["order"] ++ ["audit"])))
  /\ compute_module ["/"; "repo"] (BASE ["/"; "repo"] ++ ["order"] ++ ["mod.rs"])
     = Done (join "::" (filter (fun part => negb (part =? "")%string) ["order"]))
  /\ compute_module ["/"; "repo"]
       (BASE ["/"; "repo"] ++ (["order"] ++ ["audit"]) ++ ["mod.rs"])
     = compute_module ["/"; "repo"]
         (BASE ["/"; "repo"] ++ ["order"] ++ [("audit" ++ ".rs")%string]).
Proof.
  apply (compute_module_of_source_file ["/"; "repo"] ["order"] "audit").
  discriminate.
Defined.

Lemma compute_module_done_iff (REPO_ROOT path : Path) :
  (exists m, compute_module REPO_ROOT path = Done m)
  <-> exists rel, rel <> [] /\ path = BASE REPO_ROOT ++ rel.
Proof.
  unfold compute_module. split.
  - intros [m H].
    destruct (relative_to path (BASE REPO_ROOT)) as [rel|] eqn:E;
      [|discriminate].
    exists rel. split; [|now apply relative_to_inv].
    intros ->. discriminate.
  - intros (rel & Hne & ->). rewrite relative_to_app.
    destruct (rev rel) as [|last r] eqn:E.
    + apply (f_equal (@rev string)) in E. rewrite rev_involutive in E.
      contradiction.
    + eauto.
Qed.

(** [compute_module] returns exactly for the paths strictly below [BASE]:
    a path outside [BASE] raises ValueError, [BASE] itself IndexError. *)
Theorem compute_module_returns_below_base (REPO_ROOT path : Path) :
  ((exists m, compute_module REPO_ROOT path = Done m)
   <-> exists rel, rel <> [] /\ path = BASE REPO_ROOT ++ rel)
  /\ compute_module REPO_ROOT (BASE REPO_ROOT) = Raised IndexError
  /\ (relative_to path (BASE REPO_ROOT) = None ->
      compute_module REPO_ROOT path = Raised ValueError).
Proof.
  split; [apply compute_module_done_iff|split].
  - unfold compute_module.
    rewrite <- (app_nil_r (BASE REPO_ROOT)) at 1. now rewrite relative_to_app.
  - intros H. unfold compute_module. now rewrite H.
Qed.

Lemma compute_module_returns_below_base_witness :
  compute_module ["/"; "repo"] ["/"; "elsewhere"; "a.rs"] = Raised ValueError.
Proof.
  apply (compute_module_returns_below_base ["/"; "repo"]
           ["/"; "elsewhere"; "a.rs"]).
  reflexivity.
Defined.


Section ParseFile.

Variable REPO_ROOT cwd : Path.
Variable read_text : Path -> string.
Variable path : Path.

Local Abbreviation lines := (splitlines (read_text path)).

Lemma parse_file_loop_items (all : list string) (rest : list string) :
  forall idx items,
  parse_file_loop REPO_ROOT cwd path all idx rest = Done items ->
  Forall2 (item_of_declaration REPO_ROOT cwd path all)
    (enum_lines_from idx rest) items.
Proof.
  induction rest as [|line rest IH]; intros idx items; simpl.
  - intros [= <-]. constructor.
  - destruct (RE_ENUM_search line) as [nm|]; [|apply IH].
    destruct (collect_leading_doc all idx) as [d| |] eqn:Ed; simpl;
      try discriminate.
    destruct (collect_block all idx) as [def e] eqn:Eb.
    destruct (collect_variants all idx e) as [vs| |] eqn:Ev; simpl;
      try discriminate.
    destruct (compute_module REPO_ROOT path) as [m| |] eqn:Em; simpl;
      try discriminate.
    destruct (relative_to path cwd) as [r|] eqn:Er; [|discriminate].
    destruct (parse_file_loop REPO_ROOT cwd path all (S idx) rest)
      as [more| |] eqn:El; simpl; try discriminate.
    intros [= <-]. constructor; [|now apply IH].
    unfold item_of_declaration. simpl. rewrite Eb. simpl.
    repeat split; auto.
Qed.

Lemma parse_file_loop_returns (all : list string) (m : string) (r : Path) :
  compute_module REPO_ROOT path = Done m -> relative_to path cwd = Some r ->
  forall rest idx,
  skipn idx all = rest ->
  exists items, parse_file_loop REPO_ROOT cwd path all idx rest = Done items.
Proof.
  intros Hm Hr. induction rest as [|line rest IH]; intros idx Hs; simpl;
    [eauto|].
  destruct (skipn_cons_nth _ _ _ _ Hs) as (_ & _ & Hs' & Hlt).
  destruct (IH (S idx) Hs') as [more Hmore].
  destruct (RE_ENUM_search line) as [nm|]; [|eauto].
  unfold collect_leading_doc.
  replace (List.length all <? idx)%nat with false
    by (symmetry; apply Nat.ltb_ge; lia).
  simpl bind.
  destruct (collect_block all idx) as [def e] eqn:Eb.
  destruct (collect_variants_total all idx e) as (vs & -> & _).
  { pose proof (collect_block_end_in_range all idx Hlt) as H.
    rewrite Eb in H. simpl in H. lia. }
  simpl bind. rewrite Hm. simpl bind. rewrite Hr, Hmore. simpl. eauto.
Qed.

Lemma parse_file_loop_without_declaration (all rest : list string) :
  forall idx,
  enum_lines_from idx rest = [] ->
  parse_file_loop REPO_ROOT cwd path all idx rest = Done [].
Proof.
  induction rest as [|line rest IH]; intros idx; simpl; [reflexivity|].
  destruct (RE_ENUM_search line); [discriminate|apply IH].
Qed.

(** Whatever the text of a file below [BASE] and below the working directory,
    [parse_file] returns, with one item per declaration line: no text makes
    the extraction raise.  A text with no declaration line gives no item and
    no error for any path. *)
Theorem parse_file_returns_on_every_text :
  (forall rel r,
     rel <> [] -> path = BASE REPO_ROOT ++ rel ->
     relative_to path cwd = Some r ->
     exists items,
       parse_file REPO_ROOT cwd read_text path = Done items
       /\ List.length items = List.length (enum_lines lines))
  /\ (enum_lines lines = [] ->
      parse_file REPO_ROOT cwd read_text path = Done []).
Proof.
  split.
  - intros rel r Hrel Hpath Hcwd.
    destruct (proj2 (compute_module_done_iff REPO_ROOT path)
                (ex_intro _ rel (conj Hrel Hpath))) as [m Hm].
    destruct (parse_file_loop_returns lines m r Hm Hcwd lines 0 eq_refl)
      as [items Hi].
    exists items. split; [exact Hi|].
    apply parse_file_loop_items in Hi. symmetry.
    eapply Forall2_length. exact Hi.
  - apply parse_file_loop_without_declaration.
Qed.

(** The items of a file are those of its declaration lines, in line order:
    the item of a declaration carries the declared name, the one-based line
    number, the module and relative path of the file, and the doc list,
    definition and variants collected from that line. *)
Theorem parse_file_items_follow_declarations (items : list EnumItem)
    (Hitems : parse_file REPO_ROOT cwd read_text path = Done items) :
  Forall2 (item_of_declaration REPO_ROOT cwd path lines) (enum_lines lines)
    items.
Proof. now apply parse_file_loop_items. Qed.

End ParseFile.


(** *** Bounds of the definition pass and of the segmentation loop *)

Lemma first_stop_ends_with_comma (lb lp : Z) (ls : list string) (k : nat) :
  first_stop lb lp ls = Some k ->
  endswith (strip (nth (k - 1) ls "")) "," = true.
Proof.
  revert lb lp k. induction ls as [|l ls IH]; intros lb lp k; simpl;
    [discriminate|].
  destruct (_ && _) eqn:E.
  - intros [= <-]. simpl. now apply andb_true_iff in E as [_ E].
  - destruct (first_stop _ _ ls) as [j|] eqn:F; simpl; [|discriminate].
    intros [= <-]. pose proof (first_stop_bounds _ _ _ _ F) as B.
    specialize (IH _ _ _ F). simpl.
    destruct j as [|j]; [lia|]. simpl in IH. now rewrite Nat.sub_0_r in IH.
Qed.

Lemma nth_skipn_plus (lines : list string) (idx j : nat) :
  nth j (skipn idx lines) "" = nth (idx + j) lines "".
Proof.
  revert idx. induction lines as [|l lines IH]; intros [|idx]; simpl;
    try reflexivity; [now destruct j|apply IH].
Qed.

(** The definition pass takes at least one line and never reads past the end
    of the file; started at or past the end it takes nothing.  When it stops
    before the end of the file, the last line it took ends with a comma. *)
Theorem collect_variant_definition_bounds (lines : list string) (idx : nat) :
  (idx < List.length lines ->
   1 <= snd (collect_variant_definition lines idx) <= List.length lines - idx)
  /\ (List.length lines <= idx ->
      collect_variant_definition lines idx = (EmptyString, 0))
  /\ (snd (collect_variant_definition lines idx) < List.length lines - idx ->
      endswith
        (strip (nth (idx + snd (collect_variant_definition lines idx) - 1)
                  lines "")) "," = true).
Proof.
  rewrite collect_variant_definition_spec. cbn [snd].
  split; [apply taken_bounds|]. split.
  - intros H. unfold span, taken. rewrite skipn_all2 by assumption. reflexivity.
  - unfold taken. intros H.
    destruct (first_stop 0 0 (skipn idx lines)) as [k|] eqn:E.
    + pose proof (first_stop_bounds _ _ _ _ E) as B.
      apply first_stop_ends_with_comma in E.
      rewrite nth_skipn_plus in E.
      now replace (idx + k - 1) with (idx + (k - 1)) by lia.
    + rewrite length_skipn in H. lia.
Qed.

Lemma collect_variant_definition_bounds_witness :
  1 <= snd (collect_variant_definition source_with_struct_variant 1)
  <= List.length source_with_struct_variant - 1.
Proof.
  apply (collect_variant_definition_bounds source_with_struct_variant 1).
  vm_compute. lia.
Defined.

Lemma collect_variants_loop_out_of_range (lines : list string) (e : nat) :
  List.length lines <= e ->
  forall fuel idx vs bd inside pd,
  idx <= e -> S e - idx <= fuel ->
  collect_variants_loop lines e fuel idx vs bd inside pd = Raised IndexError.
Proof.
  intros He. induction fuel as [|fuel IH]; intros idx vs bd inside pd Hi Hf;
    rewrite collect_variants_loop_unfold;
    destruct (Nat.ltb_spec e idx) as [Hlt|_]; try lia.
  destruct (nth_error lines idx) as [line|] eqn:Hl; [|reflexivity].
  assert (Hidx : idx < List.length lines)
    by (apply nth_error_Some; congruence).
  cbv zeta.
  destruct (negb inside).
  { destruct (has_char "{" line); apply IH; lia. }
  destruct (startswith (strip line) "///"); [apply IH; lia|].
  destruct (startswith (strip line) "#["); [apply IH; lia|].
  match goal with
  | |- context [match ?x with Some _ => _ | None => _ end] =>
      destruct x as [vn|]; [|apply IH; lia]
  end.
  rewrite collect_variant_definition_spec.
  pose proof (taken_bounds lines idx Hidx) as Ht.
  apply IH; lia.
Qed.

(** Segmentation returns exactly when the last index it is asked to visit
    exists: with an end index inside the file the loop ends with a list of
    variants, with one past the end of the file it raises IndexError; and
    with the end index before the start index nothing is visited. *)
Theorem collect_variants_returns_in_range (lines : list string)
    (start_index end_index : nat) :
  (end_index < List.length lines ->
   exists vs, collect_variants lines start_index end_index = Done vs)
  /\ (start_index <= end_index -> List.length lines <= end_index ->
      collect_variants lines start_index end_index = Raised IndexError)
  /\ (end_index < start_index ->
      collect_variants lines start_index end_index = Done []).
Proof.
  split; [|split].
  - intros H. destruct (collect_variants_total lines start_index end_index H)
      as (vs & Hvs & _). eauto.
  - intros Hs He. apply collect_variants_loop_out_of_range; auto.
  - intros H. apply segment_past_end. exact H.
Qed.

Lemma collect_variants_returns_in_range_witness :
  (exists vs, collect_variants source_with_struct_variant 0 4 = Done vs)
  /\ collect_variants source_with_struct_variant 0 5 = Raised IndexError
  /\ collect_variants source_with_struct_variant 3 2 = Done [].
Proof.
  split; [|split].
  - apply (collect_variants_returns_in_range source_with_struct_variant 0 4).
    vm_compute. lia.
  - apply (collect_variants_returns_in_range source_with_struct_variant 0 5);
      vm_compute; lia.
  - apply (collect_variants_returns_in_range source_with_struct_variant 3 2).
    lia.
Defined.

(** A block that ends on its declaration line has no variants: the loop
    visits that one line and only notes the opening brace. *)
Lemma collect_variants_single_line (lines : list string) (start_index : nat) :
  start_index < List.length lines ->
  collect_variants lines start_index start_index = Done [].
Proof.
  intros H. unfold collect_variants.
  replace (S start_index - start_index) with 1 by lia.
  rewrite collect_variants_loop_unfold, Nat.ltb_irrefl.
  destruct (nth_error lines start_index) as [line|] eqn:E.
  2:{ apply nth_error_None in E. lia. }
  cbv zeta. simpl negb. cbv iota.
  destruct (has_char "{" line); apply segment_past_end; lia.
Qed.


(** *** A block that never closes *)

Lemma count_nonneg (s : string) (c : ascii) : (0 <= count s c)%Z.
Proof.
  induction s as [|d s IH]; simpl; [lia|]. destruct (Ascii.eqb d c); lia.
Qed.

Lemma positive_delta_has_brace (l : string) :
  (0 < brace_delta l)%Z -> has_char "{" l = true.
Proof.
  unfold brace_delta, has_char. intros H.
  pose proof (count_nonneg l "}"). apply Z.ltb_lt. lia.
Qed.

Lemma block_loop_before_brace (intro : list string) :
  Forall (fun l => has_char "{" l = false) intro ->
  forall done rest n buffer e0,
  collect_block_loop (done ++ intro ++ rest) (List.length intro + n)
    (List.length done) buffer 0 false e0
  = collect_block_loop (done ++ intro ++ rest) n
      (List.length done + List.length intro) (buffer ++ intro) 0 false e0.
Proof.
  induction 1 as [|l intro Hl _ IH]; intros done rest n buffer e0.
  - cbn [app List.length Nat.add]. now rewrite Nat.add_0_r, app_nil_r.
  - change (List.length (l :: intro) + n) with (S (List.length intro + n)).
    change ((l :: intro) ++ rest) with (l :: intro ++ rest).
    cbn [collect_block_loop]. rewrite nth_middle_default. cbn [negb].
    rewrite Hl. cbn [andb].
    specialize (IH (done ++ [l]) rest n (buffer ++ [l]) e0).
    rewrite length_app, <- !app_assoc in IH. cbn [List.length app] in IH.
    rewrite Nat.add_1_r in IH. rewrite IH.
    cbn [List.length]. f_equal. lia.
Qed.

Lemma block_loop_never_closes (pre intro rest : list string) :
  Forall (fun l => has_char "{" l = false) intro ->
  stays_open 0 rest = true ->
  forall e0,
  collect_block_loop (pre ++ intro ++ rest)
    (List.length intro + List.length rest) (List.length pre) [] 0 false e0
  = (intro ++ rest, e0).
Proof.
  intros Hintro Hopen e0.
  rewrite (block_loop_before_brace intro Hintro pre rest). cbn [app].
  destruct rest as [|header more].
  - cbn [collect_block_loop]. now rewrite app_nil_r.
  - cbn [stays_open] in Hopen. apply andb_true_iff in Hopen as [Hh Hm].
    apply Z.ltb_lt in Hh. cbn [Z.add] in Hh, Hm.
    rewrite app_assoc, <- length_app.
    cbn [List.length collect_block_loop]. rewrite nth_middle_default.
    cbn [negb]. rewrite (positive_delta_has_brace _ Hh). cbn [Z.add].
    replace (brace_delta header <=? 0)%Z with false
      by (symmetry; apply Z.leb_gt; assumption).
    cbn [andb].
    pose proof (block_loop_open more (brace_delta header)
                  ((pre ++ intro) ++ [header]) [] 0 (intro ++ [header]) e0 Hm)
      as H.
    rewrite length_app, app_nil_r, Nat.add_0_r, <- !app_assoc in H.
    cbn [List.length app] in H. rewrite Nat.add_1_r in H.
    rewrite <- app_assoc. rewrite H. reflexivity.
Qed.

(** When the braces of a declaration never close (no line from the
    declaration on holds an opening brace, or the depth stays positive to
    the end of the file), the extractor reports the block as ending on the
    declaration line and takes the whole rest of the file as its definition;
    segmentation then finds no variant. *)
Theorem unclosed_block_takes_rest_of_file (pre intro rest : list string)
    (Hintro : Forall (fun l => has_char "{" l = false) intro)
    (Hopen : stays_open 0 rest = true)
    (Hdecl : intro ++ rest <> []) :
  collect_block (pre ++ intro ++ rest) (List.length pre)
  = (strip (join LF (intro ++ rest)), List.length pre)
  /\ collect_variants (pre ++ intro ++ rest) (List.length pre)
       (snd (collect_block (pre ++ intro ++ rest) (List.length pre)))
     = Done [].
Proof.
  assert (H : collect_block (pre ++ intro ++ rest) (List.length pre)
              = (strip (join LF (intro ++ rest)), List.length pre)).
  { unfold collect_block. rewrite !length_app.
    replace (List.length pre + (List.length intro + List.length rest)
             - List.length pre)
      with (List.length intro + List.length rest) by lia.
    now rewrite block_loop_never_closes. }
  split; [exact H|]. rewrite H. cbn [snd].
  apply collect_variants_single_line.
  rewrite length_app.
  assert (0 < List.length (intro ++ rest))
    by (destruct (intro ++ rest); [congruence|simpl; lia]).
  lia.
Qed.

Lemma unclosed_block_takes_rest_of_file_witness :
  collect_block (["use a;"] ++ ["pub enum OrderEvent"] ++ ["{"; "    Created,"])
    (List.length ["use a;"])
  = (strip (join LF (["pub enum OrderEvent"] ++ ["{"; "    Created,"])),
     List.length ["use a;"])
  /\ collect_variants
       (["use a;"] ++ ["pub enum OrderEvent"] ++ ["{"; "    Created,"])
       (List.length ["use a;"])
       (snd (collect_block
               (["use a;"] ++ ["pub enum OrderEvent"] ++ ["{"; "    Created,"])
               (List.length ["use a;"])))
     = Done [].
Proof.
  apply (unclosed_block_takes_rest_of_file ["use a;"] ["pub enum OrderEvent"]
           ["{"; "    Created,"]).
  - repeat constructor.
  - reflexivity.
  - discriminate.
Defined.

(** A block that ends on its declaration line, as an enum written on one
    line does, has no variants. *)
Theorem block_on_one_line_has_no_variant (lines : list string)
    (start_index : nat) (Hstart : start_index < List.length lines)
    (Hend : snd (collect_block lines start_index) = start_index) :
  collect_variants lines start_index (snd (collect_block lines start_index))
  = Done [].
Proof. rewrite Hend. now apply collect_variants_single_line. Qed.

Lemma block_on_one_line_has_no_variant_witness :
  collect_variants source_on_one_line 0 (snd (collect_block source_on_one_line 0))
  = Done [].
Proof.
  apply (block_on_one_line_has_no_variant source_on_one_line 0).
  - vm_compute. lia.
  - reflexivity.
Defined.


(** *** What every recorded variant satisfies *)

Lemma strongly_sorted_snoc (vs : list Variant) (v : Variant) :
  StronglySorted starts_before vs ->
  Forall (fun a => starts_before a v) vs ->
  StronglySorted starts_before (vs ++ [v]).
Proof.
  induction 1 as [|a vs Hs IH Ha]; intros Hv; simpl.
  - repeat constructor.
  - inversion Hv as [|? ? Hav Hvs]; subst. constructor; [auto|].
    apply Forall_app. split; [assumption|]. now repeat constructor.
Qed.

Lemma collect_variants_loop_placement (lines : list string) (s e : nat) :
  forall fuel idx vs bd inside pd result,
  collect_variants_loop lines e fuel idx vs bd inside pd = Done result ->
  s <= idx -> (inside = true -> s < idx) -> (inside = false -> vs = []) ->
  Forall (variant_in_block lines s e) vs ->
  Forall (fun v => variant_start_line v <= idx) vs ->
  StronglySorted starts_before vs ->
  Forall (variant_in_block lines s e) result
  /\ StronglySorted starts_before result.
Proof.
  induction fuel as [|fuel IH];
    intros idx vs bd inside pd result;
    rewrite collect_variants_loop_unfold;
    destruct (Nat.ltb_spec e idx) as [Hlt|Hge];
    try (intros [= <-]; auto; fail); try discriminate.
  destruct (nth_error lines idx) as [line|] eqn:Hl; [|discriminate].
  assert (Hidx : idx < List.length lines)
    by (apply nth_error_Some; congruence).
  assert (Hnth : nth idx lines "" = line) by (now apply nth_error_nth).
  assert (Hmono : forall vs0,
            Forall (fun v => variant_start_line v <= idx) vs0 ->
            Forall (fun v => variant_start_line v <= S idx) vs0).
  { intros vs0 H. eapply Forall_impl; [|exact H]. simpl. intros; lia. }
  cbv zeta.
  destruct inside; cbn [negb].
  2:{ intros H Hs _ Hvs Hin Hle Hso.
      destruct (has_char "{" line); apply (IH _ _ _ _ _ _ H); auto;
        try lia; try discriminate. }
  intros H Hs Hins _ Hin Hle Hso. specialize (Hins eq_refl). revert H.
  destruct (startswith (strip line) "///").
  { intros H. apply (IH _ _ _ _ _ _ H); auto; try lia; discriminate. }
  destruct (startswith (strip line) "#[").
  { intros H. apply (IH _ _ _ _ _ _ H); auto; try lia; discriminate. }
  match goal with
  | |- context [match ?x with Some _ => _ | None => _ end] =>
      destruct x as [vn|] eqn:Em
  end.
  2:{ intros H. apply (IH _ _ _ _ _ _ H); auto; try lia; discriminate. }
  assert (Hvn : match_variant_name (strip line) = Some vn).
  { destruct (_ && _) in Em; [exact Em|discriminate]. }
  rewrite collect_variant_definition_spec.
  pose proof (taken_bounds lines idx Hidx) as Ht.
  intros H. apply (IH _ _ _ _ _ _ H); try lia; try discriminate.
  - apply Forall_app. split; [assumption|]. constructor; [|constructor].
    unfold variant_in_block. cbn [variant_start_line variant_name].
    replace (idx + 1 - 1) with idx by lia. rewrite Hnth. split; [lia|exact Hvn].
  - apply Forall_app. split.
    + eapply Forall_impl; [|exact Hle]. simpl. intros; lia.
    + constructor; [|constructor]. simpl. lia.
  - apply strongly_sorted_snoc; [assumption|].
    eapply Forall_impl; [|exact Hle]. unfold starts_before. simpl. intros; lia.
Qed.

(** Every variant segmentation records starts on a line of the block after
    the declaration line, its name is the identifier at the head of that
    line, and the variants are recorded in strictly increasing line order, so
    no line starts two variants. *)
Theorem recorded_variants_are_placed_in_order (lines : list string)
    (start_index end_index : nat) (vs : list Variant)
    (Hvs : collect_variants lines start_index end_index = Done vs) :
  Forall (variant_in_block lines start_index end_index) vs
  /\ StronglySorted starts_before vs.
Proof.
  apply (collect_variants_loop_placement lines start_index end_index
           _ _ _ _ _ _ _ Hvs); auto; try discriminate; constructor.
Qed.

Lemma recorded_variants_are_placed_in_order_witness :
  Forall (variant_in_block source_without_last_comma 0 3)
    [mkVariant "Created" 2 [] "Created(OrderId),";
     mkVariant "Cancelled" 3 []
       (join LF ["Cancelled { reason: String }"; "}"; "";
                 "pub enum OrderStatus {"; "    Open,"])]
  /\ StronglySorted starts_before
       [mkVariant "Created" 2 [] "Created(OrderId),";
        mkVariant "Cancelled" 3 []
          (join LF ["Cancelled { reason: String }"; "}"; "";
                    "pub enum OrderStatus {"; "    Open,"])].
Proof.
  apply (recorded_variants_are_placed_in_order source_without_last_comma 0 3).
  vm_compute. reflexivity.
Defined.

(** *** Names are identifiers *)

Lemma take_word_all_word (s : string) : all_word (take_word s) = true.
Proof.
  induction s as [|c s IH]; simpl; [reflexivity|].
  destruct (is_word c) eqn:E; simpl; [now rewrite E, IH|reflexivity].
Qed.

Lemma upper_is_word (c : ascii) : is_upper c = true -> is_word c = true.
Proof.
  unfold is_upper, is_word. intros H. rewrite H. reflexivity.
Qed.

Lemma match_variant_name_identifier (s n : string) :
  match_variant_name s = Some n ->
  is_variant_identifier n = true /\ all_word n = true.
Proof.
  destruct s as [|c s]; simpl; [discriminate|].
  destruct (is_upper c) eqn:E; [|discriminate].
  intros [= <-]. simpl. rewrite E, (upper_is_word _ E), take_word_all_word.
  auto.
Qed.

Lemma RE_ENUM_here_identifier (s n : string) :
  RE_ENUM_here s = Some n -> n <> "" /\ all_word n = true.
Proof.
  unfold RE_ENUM_here.
  destruct (eat "pub" s) as [s1|]; [|discriminate].
  destruct (eat_spaces1 s1) as [s2|]; [|discriminate].
  destruct (eat "enum" s2) as [s3|]; [|discriminate].
  destruct (eat_spaces1 s3) as [s4|]; [|discriminate].
  pose proof (take_word_all_word s4) as W.
  destruct (take_word s4) as [|c w]; [discriminate|].
  intros [= <-]. split; [discriminate|exact W].
Qed.

Lemma RE_ENUM_search_identifier (line n : string) :
  RE_ENUM_search line = Some n -> n <> "" /\ all_word n = true.
Proof.
  induction line as [|c line IH].
  - simpl. discriminate.
  - cbn [RE_ENUM_search]. destruct (RE_ENUM_here (String c line)) eqn:E.
    + intros [= <-]. now apply RE_ENUM_here_identifier in E.
    + exact IH.
Qed.

Lemma enum_lines_from_names (rest : list string) :
  forall idx,
  Forall (fun decl => snd decl <> "" /\ all_word (snd decl) = true)
    (enum_lines_from idx rest).
Proof.
  induction rest as [|line rest IH]; intros idx; simpl; [constructor|].
  destruct (RE_ENUM_search line) as [nm|] eqn:E; [|apply IH].
  constructor; [|apply IH]. simpl. now apply RE_ENUM_search_identifier in E.
Qed.

(** Every name in the inventory is an identifier: an item's name is a
    non-empty run of letters, digits and underscores, and a variant's name is
    such a run with an upper-case first letter.  A search pattern built from
    them holds no white space and no character with a meaning in a regular
    expression. *)
Theorem inventory_names_are_identifiers (REPO_ROOT cwd : Path)
    (read_text : Path -> string) (path : Path) (items : list EnumItem)
    (Hitems : parse_file REPO_ROOT cwd read_text path = Done items) :
  Forall (fun item =>
            name item <> "" /\ all_word (name item) = true
            /\ Forall (fun v =>
                         is_variant_identifier (variant_name v) = true
                         /\ all_word (variant_name v) = true)
                 (variants item)) items.
Proof.
  apply parse_file_loop_items in Hitems.
  pose proof (enum_lines_from_names (splitlines (read_text path)) 0) as Hn.
  fold (enum_lines (splitlines (read_text path))) in Hitems.
  unfold enum_lines in Hitems.
  induction Hitems as [|decl item decls items Hd _ IH]; [constructor|].
  inversion Hn as [|? ? [Hne Hw] Hn']; subst.
  constructor; [|now apply IH].
  destruct Hd as (Hname & _ & _ & _ & _ & _ & Hvs).
  rewrite Hname. split; [exact Hne|]. split; [exact Hw|].
  destruct (collect_variants_loop_placement _ (fst decl) _ _ _ _ _ _ _ _ Hvs)
    as [Hp _]; auto; try discriminate; try constructor.
  eapply Forall_impl; [|exact Hp]. intros v [_ Hm].
  now apply match_variant_name_identifier in Hm.
Qed.

Lemma inventory_names_are_identifiers_witness :
  Forall (fun item =>
            name item <> "" /\ all_word (name item) = true
            /\ Forall (fun v =>
                         is_variant_identifier (variant_name v) = true
                         /\ all_word (variant_name v) = true)
                 (variants item)) sample_items.
Proof.
  apply (inventory_names_are_identifiers sample_root sample_root sample_text
           (sample_root ++ ["crates"; "events"; "src"; "audit.rs"])).
  vm_compute. reflexivity.
Defined.

Lemma parse_file_returns_on_every_text_witness :
  exists items,
    parse_file sample_root sample_root sample_text
      (sample_root ++ ["crates"; "events"; "src"; "audit.rs"]) = Done items
    /\ List.length items
       = List.length
           (enum_lines
              (splitlines
                 (sample_text
                    (sample_root ++ ["crates"; "events"; "src"; "audit.rs"])))).
Proof.
  apply (proj1 (parse_file_returns_on_every_text sample_root sample_root
                  sample_text
                  (sample_root ++ ["crates"; "events"; "src"; "audit.rs"]))
           ["audit.rs"] ["crates"; "events"; "src"; "audit.rs"]).
  - discriminate.
  - reflexivity.
  - reflexivity.
Defined.

Lemma parse_file_items_follow_declarations_witness :
  Forall2 (item_of_declaration sample_root sample_root
             (sample_root ++ ["crates"; "events"; "src"; "audit.rs"])
             (splitlines
                (sample_text
                   (sample_root ++ ["crates"; "events"; "src"; "audit.rs"]))))
    (enum_lines
       (splitlines
          (sample_text (sample_root ++ ["crates"; "events"; "src"; "audit.rs"]))))
    sample_items.
Proof.
  apply (parse_file_items_follow_declarations sample_root sample_root
           sample_text (sample_root ++ ["crates"; "events"; "src"; "audit.rs"])).
  vm_compute. reflexivity.
Defined.


(** *** Splitting and joining *)

Lemma has_char_cons (c d : ascii) (s : string) :
  has_char c (String d s) = Ascii.eqb d c || has_char c s.
Proof.
  unfold has_char. cbn [count]. pose proof (count_nonneg s c).
  destruct (Ascii.eqb d c); cbn [orb].
  - apply Z.ltb_lt. lia.
  - now rewrite Z.add_0_l.
Qed.

Lemma split_on_plain (c : ascii) (s : string) :
  has_char c s = false -> forall cur, split_on c cur s = [(cur ++ s)%string].
Proof.
  induction s as [|d s IH]; intros H cur; simpl.
  - now rewrite str_app_nil_r.
  - rewrite has_char_cons in H. apply orb_false_iff in H as [Hd Hs].
    rewrite Hd, (IH Hs). now rewrite str_app_assoc.
Qed.

Lemma split_on_sep (c : ascii) (a : string) :
  has_char c a = false ->
  forall cur s,
  split_on c cur (a ++ String c s) = (cur ++ a)%string :: split_on c "" s.
Proof.
  induction a as [|d a IH]; intros H cur s; simpl.
  - now rewrite Ascii.eqb_refl, str_app_nil_r.
  - rewrite has_char_cons in H. apply orb_false_iff in H as [Hd Ha].
    rewrite Hd, (IH Ha). now rewrite str_app_assoc.
Qed.

Lemma join_cons2 (sep x y : string) (l : list string) :
  join sep (x :: y :: l) = (x ++ sep ++ join sep (y :: l))%string.
Proof. reflexivity. Qed.

Lemma split_on_join (parts : list string) :
  parts <> [] -> Forall (fun p => has_char "/" p = false) parts ->
  split_on "/" "" (join "/" parts) = parts.
Proof.
  intros Hne H. induction H as [|p parts Hp Hps IH]; [congruence|].
  destruct parts as [|q parts].
  - simpl. now rewrite split_on_plain.
  - rewrite join_cons2. change ("/" ++ ?s)%string with (String "/" s).
    rewrite split_on_sep by assumption. simpl append.
    rewrite IH by discriminate. reflexivity.
Qed.

Lemma plain_not_slash_first (p : string) :
  plain_part p -> startswith p "/" = false /\ leading_slashes p = 0.
Proof.
  intros (Hne & _ & Hs). destruct p as [|c p]; [congruence|].
  rewrite has_char_cons in Hs. apply orb_false_iff in Hs as [Hc _].
  simpl. rewrite Hc. split; [reflexivity|].
  destruct c as [b0 b1 b2 b3 b4 b5 b6 b7].
  destruct b0, b1, b2, b3, b4, b5, b6, b7; try reflexivity; discriminate.
Qed.

Lemma leading_slashes_app (p s : string) :
  p <> "" -> leading_slashes p = 0 -> leading_slashes (p ++ s) = 0.
Proof.
  destruct p as [|c p]; [congruence|]. intros _. simpl.
  destruct c as [b0 b1 b2 b3 b4 b5 b6 b7].
  destruct b0, b1, b2, b3, b4, b5, b6, b7; try reflexivity; discriminate.
Qed.

Lemma filter_plain (parts : list string) :
  Forall plain_part parts ->
  filter (fun x => negb (x =? "")%string && negb (x =? ".")%string) parts
  = parts.
Proof.
  induction 1 as [|p parts (Hne & Hd & _) _ IH]; simpl; [reflexivity|].
  apply String.eqb_neq in Hne, Hd. now rewrite Hne, Hd, IH.
Qed.

(** Reading back the string of a relative path gives the path. *)
Lemma Path_of_path_str (rel : Path) :
  Forall plain_part rel -> Path_of (path_str rel) = rel.
Proof.
  intros H. destruct rel as [|p rel]; [reflexivity|].
  inversion H as [|? ? Hp Hrel]; subst.
  destruct (plain_not_slash_first p Hp) as [Hs Hl].
  unfold path_str. rewrite Hs. unfold Path_of.
  assert (Hl' : leading_slashes (join "/" (p :: rel)) = 0).
  { destruct rel as [|q rel]; [exact Hl|].
    rewrite join_cons2. apply leading_slashes_app; [apply Hp|exact Hl]. }
  rewrite Hl'. cbn [app]. rewrite split_on_join; [now apply filter_plain|discriminate|].
  eapply Forall_impl; [|exact H]. now intros q (_ & _ & Hq).
Qed.

(** The usage script finds the declaring file again: for a file below the
    repository root whose inventory path was taken relative to that root,
    joining the root with the recorded path string gives the file's path. *)
Theorem recorded_path_leads_back_to_file (REPO_ROOT path rel : Path)
    (Hrel : relative_to path REPO_ROOT = Some rel)
    (Hplain : Forall plain_part rel) :
  joinpath REPO_ROOT (path_str rel) = path.
Proof.
  unfold joinpath. rewrite (Path_of_path_str rel Hplain).
  apply relative_to_inv in Hrel. subst path.
  destruct rel as [|p rel]; simpl.
  - reflexivity.
  - inversion Hplain as [|? ? Hp _]; subst.
    now rewrite (proj1 (plain_not_slash_first p Hp)).
Qed.

Lemma recorded_path_leads_back_to_file_witness :
  joinpath ["/"; "repo"] (path_str ["crates"; "events"; "src"; "order"; "mod.rs"])
  = ["/"; "repo"; "crates"; "events"; "src"; "order"; "mod.rs"].
Proof.
  apply (recorded_path_leads_back_to_file ["/"; "repo"]
           ["/"; "repo"; "crates"; "events"; "src"; "order"; "mod.rs"]
           ["crates"; "events"; "src"; "order"; "mod.rs"]).
  - reflexivity.
  - repeat constructor; discriminate.
Defined.

(** *** Lines of search output *)

Lemma split_first_found (c : ascii) (a : string) :
  has_char c a = false ->
  forall cur b,
  Usage.split_first c cur (a ++ String c b) = Some ((cur ++ a)%string, b).
Proof.
  induction a as [|d a IH]; intros H cur b; simpl.
  - now rewrite Ascii.eqb_refl, str_app_nil_r.
  - rewrite has_char_cons in H. apply orb_false_iff in H as [Hd Ha].
    rewrite Hd, (IH Ha). now rewrite str_app_assoc.
Qed.

Lemma split_first_inv (c : ascii) (s : string) :
  forall cur a b,
  Usage.split_first c cur s = Some (a, b) ->
  exists a', a = (cur ++ a')%string /\ s = (a' ++ String c b)%string
             /\ has_char c a' = false.
Proof.
  induction s as [|d s IH]; intros cur a b; simpl; [discriminate|].
  destruct (Ascii.eqb_spec d c) as [->|Hd].
  - intros [= <- <-]. exists "". now rewrite str_app_nil_r.
  - intros H. destruct (IH _ _ _ H) as (a' & -> & -> & Ha).
    exists (String d a'). rewrite str_app_assoc. repeat split.
    rewrite has_char_cons, Ha. apply Ascii.eqb_neq in Hd. now rewrite Hd.
Qed.

(** A line of search output is taken apart at its first two colons: a line
    [path:number:text] whose path and number hold no colon gives back the
    three fields, the text with every colon it holds; and whatever the
    script takes apart was such a line. *)
Theorem output_line_splits_at_first_two_colons
    (line path_str line_no text : string) :
  (has_char ":" path_str = false -> has_char ":" line_no = false ->
   Usage.split_colon2 (path_str ++ ":" ++ line_no ++ ":" ++ text)
   = Some (path_str, line_no, text))
  /\ (Usage.split_colon2 line = Some (path_str, line_no, text) ->
      line = (path_str ++ ":" ++ line_no ++ ":" ++ text)%string
      /\ has_char ":" path_str = false /\ has_char ":" line_no = false).
Proof.
  unfold Usage.split_colon2. split.
  - intros Hp Hn.
    replace (path_str ++ ":" ++ line_no ++ ":" ++ text)%string
      with (path_str ++ String ":" (line_no ++ String ":" text))%string
      by reflexivity.
    rewrite (split_first_found ":" path_str Hp "").
    now rewrite (split_first_found ":" line_no Hn "").
  - destruct (Usage.split_first ":" "" line) as [[p rest]|] eqn:E1;
      [|discriminate].
    destruct (Usage.split_first ":" "" rest) as [[n t]|] eqn:E2;
      [|discriminate].
    intros [= -> -> ->].
    destruct (split_first_inv _ _ _ _ _ E1) as (p' & -> & -> & Hp).
    destruct (split_first_inv _ _ _ _ _ E2) as (n' & -> & -> & Hn).
    simpl. auto.
Qed.

Lemma output_line_splits_at_first_two_colons_witness :
  Usage.split_colon2
    ("/repo/apps/shop.rs" ++ ":" ++ "10" ++ ":"
     ++ "    emit(OrderEvent::Created(id));")
  = Some ("/repo/apps/shop.rs", "10", "    emit(OrderEvent::Created(id));").
Proof.
  apply (output_line_splits_at_first_two_colons "" "/repo/apps/shop.rs" "10"
           "    emit(OrderEvent::Created(id));"); reflexivity.
Defined.

Section SearchResults.
Import Usage UsageSpec.

Variable REPO_ROOT : Path.
Variable resolve : Path -> Path.
Variable subprocess_run : list string -> CompletedProcess.

Local Abbreviation kept_match := (kept_match REPO_ROOT).

Lemma ripgrep_loop_kept (out_lines : list string) :
  forall results found,
  Forall kept_match results ->
  Usage.ripgrep_loop REPO_ROOT out_lines results = Done found ->
  Forall kept_match found.
Proof.
  induction out_lines as [|line out_lines IH]; intros results found Hr; simpl.
  - now intros [= <-].
  - destruct (split_colon2 line) as [[[p n] t]|]; [|discriminate].
    destruct (relative_to (Path_of p) REPO_ROOT) as [rel|] eqn:E;
      [|now apply IH].
    destruct (in_excluded_dir rel) eqn:X; [now apply IH|].
    destruct (py_int n) as [k|]; [|discriminate].
    apply IH. apply Forall_app. split; [assumption|].
    constructor; [|constructor]. exists rel. auto.
Qed.

(** Every match the search returns lies below the repository root and
    outside [refactor] and [target], so the occurrence made from it always
    turns into a report entry with its path relative to the root; and a
    record fails to be made only when its search fails, with the same
    exception. *)
Theorem search_results_stay_in_the_tree (item : item_dict)
    (variant : variant_dict) :
  (forall found,
     Usage.ripgrep REPO_ROOT subprocess_run (pattern_of item variant)
     = Done found ->
     Forall (fun m =>
               exists rel,
                 relative_to (fst (fst m)) REPO_ROOT = Some rel
                 /\ in_excluded_dir rel = false
                 /\ Usage.to_dict REPO_ROOT
                      (mkOccurrence (fst (fst m)) (snd (fst m)) (snd m))
                    = Done (JDict [("path", JStr (path_str rel));
                                   ("line", JInt (snd (fst m)));
                                   ("line_text", JStr (strip (snd m)))]))
       found)
  /\ (forall e,
        Usage.usage_record REPO_ROOT resolve subprocess_run item variant
        = Raised e
        <-> Usage.ripgrep REPO_ROOT subprocess_run (pattern_of item variant)
            = Raised e).
Proof.
  split.
  - intros found H.
    assert (K : Forall kept_match found).
    { unfold Usage.ripgrep in H.
      destruct (negb _); [discriminate|].
      destruct (_ =? "")%string; [injection H as <-; constructor|].
      exact (ripgrep_loop_kept _ [] found (Forall_nil _) H). }
    eapply Forall_impl; [|exact K]. intros m (rel & Hrel & Hx).
    exists rel. split; [exact Hrel|]. split; [exact Hx|].
    unfold Usage.to_dict. simpl. now rewrite Hrel.
  - intros e. split.
    + intros H.
      destruct (Usage.ripgrep REPO_ROOT subprocess_run (pattern_of item variant))
        as [found|e'|] eqn:E.
      * destruct (usage_record_found REPO_ROOT resolve subprocess_run item
                    variant found E) as (occ & Ho & _).
        rewrite Ho in H. discriminate.
      * rewrite (usage_record_raised REPO_ROOT resolve subprocess_run item
                   variant e' E) in H. now injection H as ->.
      * unfold Usage.usage_record in H. fold (pattern_of item variant) in H.
        rewrite E in H. discriminate.
    + apply usage_record_raised.
Qed.

End SearchResults.

Lemma search_results_stay_in_the_tree_witness :
  Usage.ripgrep sample_root sample_search
    (UsageSpec.pattern_of (sample_order_item ["Lost"])
       (Usage.mkVariantDict "Lost"))
  = Raised (RuntimeError "rg: regex parse error").
Proof.
  apply (proj2 (search_results_stay_in_the_tree sample_root (fun p => p)
                  sample_search (sample_order_item ["Lost"])
                  (Usage.mkVariantDict "Lost"))).
  vm_compute. reflexivity.
Defined.


(** *** The source walker *)

Lemma startswith_app (sub b : string) : startswith (sub ++ b) sub = true.
Proof.
  induction sub as [|c sub IH]; simpl; [now destruct b|].
  now rewrite Ascii.eqb_refl, IH.
Qed.

Lemma contains_app (sub a b : string) : contains sub (a ++ sub ++ b) = true.
Proof.
  induction a as [|c a IH].
  - cbn [append]. pose proof (startswith_app sub b) as H.
    destruct (sub ++ b)%string; cbn [contains]; now rewrite H.
  - simpl. rewrite IH. apply orb_true_r.
Qed.

Lemma join_cons_nonempty (sep x : string) (l : list string) :
  l <> [] -> join sep (x :: l) = (x ++ sep ++ join sep l)%string.
Proof. destruct l; [congruence|reflexivity]. Qed.

Lemma tests_component_in_string (before after : list string) (nxt : string) :
  forall pfx,
  contains "/tests/"
    (pfx ++ "/" ++ join "/" (before ++ "tests" :: nxt :: after)) = true.
Proof.
  induction before as [|b before IH]; intros pfx.
  - cbn [app]. rewrite join_cons2.
    replace (pfx ++ "/" ++ "tests" ++ "/" ++ join "/" (nxt :: after))%string
      with (pfx ++ "/tests/" ++ join "/" (nxt :: after))%string by reflexivity.
    apply contains_app.
  - cbn [app]. rewrite join_cons_nonempty by (now destruct before).
    replace (pfx ++ "/" ++ b ++ "/"
             ++ join "/" (before ++ "tests" :: nxt :: after))%string
      with ((pfx ++ "/" ++ b) ++ "/"
            ++ join "/" (before ++ "tests" :: nxt :: after))%string.
    + apply IH.
    + rewrite !str_app_assoc. reflexivity.
Qed.

Lemma path_with_tests_component (before after : list string) (nxt : string) :
  contains "/tests/" (path_str ("/" :: before ++ "tests" :: nxt :: after))
  = true.
Proof.
  unfold path_str. cbn [startswith Ascii.eqb Bool.eqb andb].
  apply (tests_component_in_string before after nxt "").
Qed.

Section Walker.

Variable REPO_ROOT cwd : Path.
Variable read_text : Path -> string.

Local Abbreviation main_loop := (main_loop REPO_ROOT cwd read_text).
Local Abbreviation parse_file := (parse_file REPO_ROOT cwd read_text).

Lemma main_loop_skips_all (paths : list Path) :
  Forall (fun path => contains "/tests/" (path_str path) = true) paths ->
  forall items, main_loop paths items = Done items.
Proof.
  induction 1 as [|path paths Hp _ IH]; intros items;
    cbn [Inventory.main_loop]; [reflexivity|].
  now rewrite Hp.
Qed.

(** An absolute path with a directory named [tests] anywhere above the file
    is skipped, so such a file adds no item and is never read.  This holds
    for every file when the repository itself lies below a directory named
    [tests]: the inventory then has no items. *)
Theorem files_below_tests_are_skipped :
  (forall before nxt after paths items,
     main_loop (("/" :: before ++ "tests" :: nxt :: after) :: paths) items
     = main_loop paths items)
  /\ (forall above below listing,
        REPO_ROOT = "/" :: above ++ "tests" :: below ->
        Forall (fun path => exists rel, path = BASE REPO_ROOT ++ rel) listing ->
        main_loop (sorted listing) [] = Done []).
Proof.
  split.
  - intros before nxt after paths items. cbn [Inventory.main_loop].
    now rewrite path_with_tests_component.
  - intros above below listing Hroot Hall. apply main_loop_skips_all.
    apply (Permutation_Forall (sorted_perm listing)).
    eapply Forall_impl; [|exact Hall]. intros path [rel ->].
    assert (E : exists nxt after,
               BASE REPO_ROOT ++ rel = "/" :: above ++ "tests" :: nxt :: after).
    { unfold BASE. rewrite Hroot.
      destruct below as [|b below].
      - exists "crates", (["events"; "src"] ++ rel).
        cbn [app]. rewrite <- !app_assoc. reflexivity.
      - exists b, (below ++ ["crates"; "events"; "src"] ++ rel).
        cbn [app]. rewrite <- !app_assoc. reflexivity. }
    destruct E as (nxt & after & ->). apply path_with_tests_component.
Qed.

Lemma main_loop_by_file (paths : list Path) :
  forall items result,
  main_loop paths items = Done result ->
  exists per_file,
    Forall2 (fun path found => parse_file path = Done found)
      (read_by_main paths) per_file
    /\ result = items ++ List.concat per_file.
Proof.
  induction paths as [|path paths IH]; intros items result;
    cbn [Inventory.main_loop].
  - intros [= <-]. exists []. split; [constructor|now rewrite app_nil_r].
  - unfold read_by_main. cbn [filter].
    destruct (contains "/tests/" (path_str path)); cbn [negb].
    + apply IH.
    + destruct (parse_file path) as [found| |] eqn:E; simpl; try discriminate.
      intros H. destruct (IH _ _ H) as (per_file & HF & ->).
      exists (found :: per_file). split; [now constructor|].
      simpl. now rewrite app_assoc.
Qed.

(** The items of the inventory are those of the files read, file after file
    in the order of the sorted listing and, within a file, in the order
    [parse_file] yields them. *)
Theorem inventory_items_are_grouped_by_file (listing : list Path)
    (items : list EnumItem)
    (Hitems : main_loop (sorted listing) [] = Done items) :
  exists per_file,
    Forall2 (fun path found => parse_file path = Done found)
      (read_by_main (sorted listing)) per_file
    /\ items = List.concat per_file.
Proof. now apply main_loop_by_file in Hitems. Qed.

End Walker.

Lemma files_below_tests_are_skipped_witness :
  Inventory.main_loop ["/"; "home"; "tests"; "repo"]
    ["/"; "home"; "tests"; "repo"] sample_text
    (sorted [BASE ["/"; "home"; "tests"; "repo"] ++ ["order"; "mod.rs"];
             BASE ["/"; "home"; "tests"; "repo"] ++ ["audit.rs"]]) []
  = Done [].
Proof.
  apply (proj2 (files_below_tests_are_skipped ["/"; "home"; "tests"; "repo"]
                  ["/"; "home"; "tests"; "repo"] sample_text)
           ["home"] ["repo"]).
  - reflexivity.
  - repeat constructor; eexists; reflexivity.
Defined.

Lemma inventory_items_are_grouped_by_file_witness :
  exists per_file,
    Forall2 (fun path found =>
               Inventory.parse_file sample_root sample_root sample_text path
               = Done found)
      (read_by_main (sorted sample_listing)) per_file
    /\ sample_tree_items = List.concat per_file.
Proof.
  apply (inventory_items_are_grouped_by_file sample_root sample_root
           sample_text sample_listing sample_tree_items).
  vm_compute. reflexivity.
Defined.


(** *** Blank lines and white space *)

Lemma leading_doc_loop_without_blanks (above : list string) :
  forall docs,
  collect_leading_doc_loop above (List.length above) docs
  = collect_leading_doc_loop
      (filter (fun l => negb (is_blank_line l)) above)
      (List.length (filter (fun l => negb (is_blank_line l)) above)) docs.
Proof.
  induction above as [|x above IH] using rev_ind; intros docs; [reflexivity|].
  rewrite filter_app, length_app. cbn [List.length filter].
  rewrite Nat.add_1_r, leading_doc_loop_snoc.
  destruct (is_blank_line x) eqn:B; cbn [negb].
  - rewrite (blank_not_doc x B), app_nil_r. apply IH.
  - rewrite length_app. cbn [List.length]. rewrite Nat.add_1_r.
    rewrite leading_doc_loop_snoc, B.
    destruct (is_doc_line x); [apply IH|reflexivity].
Qed.

(** Blank lines above a declaration never change its doc list: the list is
    the same as for the text with those blank lines removed, wherever they
    stand among the doc-comment lines. *)
Theorem blank_lines_do_not_change_doc_list (above rest : list string) :
  collect_leading_doc (above ++ rest) (List.length above)
  = collect_leading_doc
      (filter (fun l => negb (is_blank_line l)) above ++ rest)
      (List.length (filter (fun l => negb (is_blank_line l)) above)).
Proof.
  rewrite !collect_leading_doc_above. f_equal. f_equal.
  apply leading_doc_loop_without_blanks.
Qed.

Lemma lstrip_head (s : string) :
  match lstrip s with
  | EmptyString => True
  | String c _ => isspace c = false
  end.
Proof.
  induction s as [|c s IH]; simpl; [exact I|].
  destruct (isspace c) eqn:E; [exact IH|exact E].
Qed.

Lemma rstrip_last (s : string) :
  match last_char (rstrip s) with
  | None => True
  | Some c => isspace c = false
  end.
Proof.
  induction s as [|c s IH]; simpl; [exact I|].
  destruct (rstrip s) as [|d r] eqn:E.
  - destruct (isspace c) eqn:S; simpl; [exact I|exact S].
  - simpl in IH |- *. exact IH.
Qed.

Lemma rstrip_head (s : string) :
  match s with
  | EmptyString => True
  | String c _ => isspace c = false
  end ->
  match rstrip s with
  | EmptyString => True
  | String c _ => isspace c = false
  end.
Proof.
  destruct s as [|c s]; simpl; [auto|]. intros H.
  destruct (rstrip s); [rewrite H|]; exact H.
Qed.

Lemma strip_trimmed (s : string) : trimmed (strip s).
Proof.
  unfold trimmed, strip. split; [apply rstrip_head, lstrip_head|apply rstrip_last].
Qed.

Lemma leading_doc_loop_trimmed (lines : list string) (n : nat) :
  forall docs,
  Forall trimmed docs ->
  Forall trimmed (collect_leading_doc_loop lines n docs).
Proof.
  induction n as [|i IH]; intros docs H; simpl; [exact H|].
  destruct (startswith _ "///").
  - apply IH. apply Forall_app. split; [exact H|].
    constructor; [apply strip_trimmed|constructor].
  - destruct (_ =? "")%string; [now apply IH|exact H].
Qed.

(** No captured text begins or ends with white space: neither the definition
    of an item, nor the definition of a variant, nor an entry of a doc list
    collected above a declaration. *)
Theorem captured_text_is_trimmed (lines : list string) (idx : nat)
    (docs : list string)
    (Hdocs : collect_leading_doc lines idx = Done docs) :
  trimmed (fst (collect_block lines idx))
  /\ trimmed (fst (collect_variant_definition lines idx))
  /\ Forall trimmed docs.
Proof.
  split; [|split].
  - unfold collect_block. destruct (collect_block_loop _ _ _ _ _ _ _).
    apply strip_trimmed.
  - unfold collect_variant_definition.
    destruct (collect_variant_definition_loop _ _ _ _ _ _ _).
    apply strip_trimmed.
  - unfold collect_leading_doc in Hdocs.
    destruct (_ <? _)%nat; [discriminate|]. injection Hdocs as <-.
    apply Forall_rev. apply leading_doc_loop_trimmed. constructor.
Qed.

Lemma captured_text_is_trimmed_witness :
  trimmed (fst (collect_block source_with_struct_variant 1))
  /\ trimmed (fst (collect_variant_definition source_with_struct_variant 1))
  /\ Forall trimmed [].
Proof.
  apply (captured_text_is_trimmed source_with_struct_variant 1 []).
  reflexivity.
Defined.

(** The working directory decides the base of the inventory: run from the
    repository root, the base is [crates/events/src]; run from a directory
    that does not hold the event sources, the script raises and writes no
    inventory, whatever the files are. *)
Theorem inventory_base_follows_working_directory (REPO_ROOT cwd : Path)
    (rglob_rs : list Path) (read_text : Path -> string)
    (json_dumps : json -> string) :
  (relative_to (BASE REPO_ROOT) cwd = None ->
   forall text, main REPO_ROOT cwd rglob_rs read_text json_dumps <> Done text)
  /\ (forall output,
        main_output REPO_ROOT REPO_ROOT rglob_rs read_text = Done output ->
        exists items,
          output = JDict [("base", JStr "crates/events/src");
                          ("items", JList items)]).
Proof.
  split.
  - intros H text. unfold main, main_output. rewrite H.
    destruct (main_loop _ _ _ _ _); simpl; discriminate.
  - intros output. unfold main_output.
    destruct (main_loop _ _ _ _ _); simpl; try discriminate.
    unfold BASE. rewrite relative_to_app. intros [= <-]. eauto.
Qed.

Lemma inventory_base_follows_working_directory_witness :
  main sample_root ["/"; "elsewhere"] sample_listing sample_text sample_dumps
  <> Done "".
Proof.
  apply (proj1 (inventory_base_follows_working_directory sample_root
                  ["/"; "elsewhere"] sample_listing sample_text sample_dumps)).
  reflexivity.
Defined.

